(** * SiK radio firmware: serial transport, bit interleaver and EEPROM bus

    A shallow embedding of [Firmware/radio/interleave.c],
    [Firmware/radio/serial.c] and [Firmware/radio/i2c.c].  The target is an 8051 built with SDCC:
    [uint8_t] values are integers modulo 2^8, [int] and [uint16_t] are
    16 bits wide, and arithmetic that mixes [int] with [uint16_t] is done
    modulo 2^16.  Machine integers are [Z] with the wrap-around written
    out; byte arrays are [list Z]. *)

From Stdlib Require Import ZArith Lia Ascii.
From stdpp Require Import base list.

Local Open Scope Z_scope.

(** ** Machine integers and byte arrays *)

Definition uint8 (x : Z) : Z := x mod 256.
Definition uint16 (x : Z) : Z := x mod 65536.

(** [a[i]] for an array of bytes. *)
Definition rdbyte (a : list Z) (i : Z) : Z := default 0 (a !! Z.to_nat i).

(** [a[i] = v]. *)
Definition wrbyte (a : list Z) (i : Z) (v : Z) : list Z := <[Z.to_nat i := v]> a.

(** A character constant. *)
Definition ch (a : ascii) : Z := Z.of_N (N_of_ascii a).
Arguments ch a%_char.

(** [0, 1, ..., n-1] as machine integers. *)
Definition upto (n : Z) : list Z := Z.of_nat <$> seq 0 (Z.to_nat n).

(** ** The interleaver ([interleave.c]) *)

Module Interleave.

(** The compiled-in stride table, one entry per length class. *)
Definition steps : list Z :=
  [ 0; 7; 9; 28; 13; 68; 17; 20; 57; 47;
    21; 23; 104; 25; 25; 233; 31; 110; 32; 60;
    31; 107; 281; 66; 33; 159; 146; 228; 188; 111;
    37; 354; 82; 118; 239; 41; 253; 186; 191; 196;
    143; 402; 95; 48; 45; 93; 47; 588; 400; 613;
    49; 99; 49; 52; 168; 255; 511; 157; 241; 294;
    299; 168; 905; 55; 447; 179; 306; 221; 176; 399;
    57; 293; 255; 410; 430; 620; 172; 178; 436; 305;
    61; 252; 1047; 435; 1040; 394 ].

(** [steps[n/3]]. *)
Definition stride (n : Z) : Z := default 0 (steps !! Z.to_nat (n / 3)).

(** The index both macros compute: [((bit)*steps[n/3])%n].  The product
    of an [int] and a [uint16_t] is an unsigned 16-bit value. *)
Definition permuted (n bit : Z) : Z := uint16 (bit * stride n) mod n.

(** [interleave_getbit(n,in,bit)]:
    [((in[p>>3] >> (p&7)) ? 1 : 0)] with [p] the permuted index. *)
Definition interleave_getbit (n : Z) (inb : list Z) (bit : Z) : Z :=
  let p := permuted n bit in
  if Z.shiftr (rdbyte inb (Z.shiftr p 3)) (Z.land p 7) =? 0 then 0 else 1.

(** [interleave_setbit(n,in,bit,value)]:
    [if (value==0) in[p>>3] &= ~1<<(p&7); else in[p>>3] |= 1<<(p&7);] *)
Definition interleave_setbit (n : Z) (inb : list Z) (bit value : Z) : list Z :=
  let p := permuted n bit in
  let idx := Z.shiftr p 3 in
  if value =? 0
  then wrbyte inb idx (uint8 (Z.land (rdbyte inb idx) (Z.shiftl (Z.lnot 1) (Z.land p 7))))
  else wrbyte inb idx (uint8 (Z.lor (rdbyte inb idx) (Z.shiftl 1 (Z.land p 7)))).

(** [interleave_getbyte(n,in,index)]. *)
Definition interleave_getbyte (n : Z) (inb : list Z) (index : Z) : Z :=
  let v := 0 in
  let v := uint8 (Z.lor v (interleave_getbit n inb (index * 8 + 0))) in
  let v := uint8 (Z.lor v (Z.shiftl (interleave_getbit n inb (index * 8 + 1)) 1)) in
  let v := uint8 (Z.lor v (Z.shiftl (interleave_getbit n inb (index * 8 + 2)) 2)) in
  let v := uint8 (Z.lor v (Z.shiftl (interleave_getbit n inb (index * 8 + 3)) 3)) in
  let v := uint8 (Z.lor v (Z.shiftl (interleave_getbit n inb (index * 8 + 4)) 4)) in
  let v := uint8 (Z.lor v (Z.shiftl (interleave_getbit n inb (index * 8 + 5)) 5)) in
  let v := uint8 (Z.lor v (Z.shiftl (interleave_getbit n inb (index * 8 + 6)) 6)) in
  let v := uint8 (Z.lor v (Z.shiftl (interleave_getbit n inb (index * 8 + 7)) 7)) in
  v.

(** [interleave_setbyte(n,in,index,value)]. *)
Definition interleave_setbyte (n : Z) (inb : list Z) (index value : Z) : list Z :=
  let inb := interleave_setbit n inb (Z.shiftl index 3 + 0) (Z.land (Z.shiftr value 0) 1) in
  let inb := interleave_setbit n inb (Z.shiftl index 3 + 1) (Z.land (Z.shiftr value 1) 1) in
  let inb := interleave_setbit n inb (Z.shiftl index 3 + 2) (Z.land (Z.shiftr value 2) 1) in
  let inb := interleave_setbit n inb (Z.shiftl index 3 + 3) (Z.land (Z.shiftr value 3) 1) in
  let inb := interleave_setbit n inb (Z.shiftl index 3 + 4) (Z.land (Z.shiftr value 4) 1) in
  let inb := interleave_setbit n inb (Z.shiftl index 3 + 5) (Z.land (Z.shiftr value 5) 1) in
  let inb := interleave_setbit n inb (Z.shiftl index 3 + 6) (Z.land (Z.shiftr value 6) 1) in
  let inb := interleave_setbit n inb (Z.shiftl index 3 + 7) (Z.land (Z.shiftr value 7) 1) in
  inb.

(** *** The behaviour the specification describes, for comparison

    The permuted index over the [8n] bits of an [n]-byte block, and
    access to the single bit at that index. *)
Definition spec_permuted (n bit : Z) : Z := (bit * stride n) mod (8 * n).

Definition spec_getbit (n : Z) (inb : list Z) (bit : Z) : Z :=
  let p := spec_permuted n bit in
  Z.b2z (Z.testbit (rdbyte inb (p / 8)) (p mod 8)).

Definition spec_setbit (n : Z) (inb : list Z) (bit value : Z) : list Z :=
  let p := spec_permuted n bit in
  let b := rdbyte inb (p / 8) in
  wrbyte inb (p / 8)
    (if value =? 0 then Z.ldiff b (Z.shiftl 1 (p mod 8)) else Z.lor b (Z.shiftl 1 (p mod 8))).

(** The stride map of length class [n] on the block's bit positions. *)
Definition stride_image (n : Z) : list Z := (fun i => spec_permuted n i) <$> upto (8 * n).

(** The modulus the table generator ([main] under [STANDALONE]) searched
    with for the entry printed as "n bytes": [n] runs over 1, 25, 49, ... *)
Definition generator_modulus (k : Z) : Z := 1 + 24 * k.

End Interleave.

(** ** The serial transport ([serial.c]) *)

Module Serial.

Definition RX_BUFF_MAX : Z := 256.
Definition TX_BUFF_MAX : Z := 512.

Definition SERIAL_CTS_THRESHOLD_LOW : Z := 17.
Definition SERIAL_CTS_THRESHOLD_HIGH : Z := 34.

(** Modelled from the spec: the LED levels [LED_ON] and [LED_OFF] come
    from a board header that is not part of these sources; the spec only
    says that silence mode is signalled visually. *)
Definition LED_ON : Z := 1.
Definition LED_OFF : Z := 0.

(** The scalar globals of the driver, the globals of its collaborators
    that it reads or writes, and the special function registers and pins
    it touches.  A C [bool] holds 0 or 1.  The board is taken to have
    both flow-control pins, so the code under [#ifdef SERIAL_CTS] and
    [#ifdef SERIAL_RTS] is part of the model; request/credit gating is
    still switched by [feature_rtscts] at run time. *)
Inductive var :=
  | rx_insert | rx_remove | tx_insert | tx_remove
  | rts_count | tx_idle
  | last_was_bang | tx_buffered_data
  | uboot_counter | last_byte
  | uboot_silence_mode | uboot_silence_counter
  | heartbeat_requested | eeprom_param_request
  | at_mode_active | at_cmd_ready | feature_rtscts
  | serial_rx_overflow | serial_tx_overflow
  | RI0 | TI0 | SBUF0 | ES0 | TR1 | TMOD | TH1 | CKCON | SCON0
  | SERIAL_RTS | SERIAL_CTS | LED_BOOTLOADER.

#[global] Instance var_eq_dec : EqDecision var.
Proof. solve_decision. Defined.

(** Calls into collaborators whose code lies outside [serial.c]; the
    model records them in order and does not follow them into the
    radio, EEPROM, flash, parameter and AT-command code.
    [user_pin_command c] stands for the [switch] on a lower-case letter
    or digit that is compiled only when the board header sets
    [PIN_MAX > 0]; [eeprom_dump] and [eeprom_dump_compat] for the two
    EEPROM listing loops; [printfl_txpower] and [printfl_reinited] for
    the two formatted replies.  What a recorded call does to the
    transport itself is not modelled: the replies and the listing loops
    queue bytes for output, the pin-command cases [g], [j] and [w] read
    from the receive ring, [g] can end silence mode and [h] sets
    [heartbeat_requested].  The statements below reach none of these
    branches; of the pin commands they reach only the digit [0], whose
    case calls the pin driver and nothing else. *)
Inductive ext_call :=
  | at_input (c : Z)
  | at_plus_detector (c : Z)
  | radio_set_transmit_power (p : Z)
  | printfl_txpower
  | user_pin_command (c : Z)
  | eeprom_dump
  | eeprom_dump_compat
  | flash_report_summary
  | reinit
  | printfl_reinited
  | param_default
  | packet_set_serial_speed (v : Z).

(** The transport's memory: scalars, the two ring arrays, the bytes
    written to the UART data register so far, and the collaborator calls
    made so far. *)
Record state := mkState {
  regs : var -> Z;
  rx_buf : list Z;
  tx_buf : list Z;
  sent : list Z;
  calls : list ext_call
}.

Definition rd (x : var) (st : state) : Z := regs st x.

Definition wr (x : var) (v : Z) (st : state) : state :=
  mkState (fun y => if decide (y = x) then v else regs st y)
          (rx_buf st) (tx_buf st) (sent st) (calls st).

Definition call (e : ext_call) (st : state) : state :=
  mkState (regs st) (rx_buf st) (tx_buf st) (sent st) (calls st ++ [e]).

Definition transmit (c : Z) (st : state) : state :=
  mkState (regs st) (rx_buf st) (tx_buf st) (sent st ++ [c]) (calls st).

(** A C condition [if (x)]. *)
Definition truthy (v : Z) : bool := negb (v =? 0).

(** The buffer a FIFO macro is instantiated at: [_b] is [rx] or [tx]. *)
Inductive bufname := rx | tx.

Definition sizeof_buf (b : bufname) : Z :=
  match b with rx => RX_BUFF_MAX | tx => TX_BUFF_MAX end.
Definition insert_of (b : bufname) : var :=
  match b with rx => rx_insert | tx => tx_insert end.
Definition remove_of (b : bufname) : var :=
  match b with rx => rx_remove | tx => tx_remove end.
Definition buf_of (b : bufname) (st : state) : list Z :=
  match b with rx => rx_buf st | tx => tx_buf st end.
Definition set_buf (b : bufname) (l : list Z) (st : state) : state :=
  match b with
  | rx => mkState (regs st) l (tx_buf st) (sent st) (calls st)
  | tx => mkState (regs st) (rx_buf st) l (sent st) (calls st)
  end.

(** *** FIFO status macros *)

Definition BUF_NEXT_INSERT (b : bufname) (st : state) : Z :=
  if uint16 (rd (insert_of b) st + 1) =? sizeof_buf b then 0
  else uint16 (rd (insert_of b) st + 1).
Definition BUF_NEXT_REMOVE (b : bufname) (st : state) : Z :=
  if uint16 (rd (remove_of b) st + 1) =? sizeof_buf b then 0
  else uint16 (rd (remove_of b) st + 1).
Definition BUF_FULL (b : bufname) (st : state) : bool :=
  BUF_NEXT_INSERT b st =? rd (remove_of b) st.
Definition BUF_NOT_FULL (b : bufname) (st : state) : bool :=
  negb (BUF_NEXT_INSERT b st =? rd (remove_of b) st).
Definition BUF_EMPTY (b : bufname) (st : state) : bool :=
  rd (insert_of b) st =? rd (remove_of b) st.
Definition BUF_NOT_EMPTY (b : bufname) (st : state) : bool :=
  negb (rd (insert_of b) st =? rd (remove_of b) st).
Definition BUF_USED (b : bufname) (st : state) : Z :=
  if rd (insert_of b) st >=? rd (remove_of b) st
  then uint16 (rd (insert_of b) st - rd (remove_of b) st)
  else uint16 ((sizeof_buf b - rd (remove_of b) st) + rd (insert_of b) st).
Definition BUF_FREE (b : bufname) (st : state) : Z :=
  if rd (insert_of b) st >=? rd (remove_of b) st
  then uint16 (sizeof_buf b + rd (remove_of b) st - rd (insert_of b) st)
  else uint16 (rd (remove_of b) st - rd (insert_of b) st).

(** *** FIFO insert, remove and peek macros *)

Definition BUF_INSERT (b : bufname) (c : Z) (st : state) : state :=
  let st := set_buf b (wrbyte (buf_of b st) (rd (insert_of b) st) c) st in
  wr (insert_of b) (BUF_NEXT_INSERT b st) st.

(** [BUF_REMOVE(_b, _c)]: the byte stored in [_c], and the new state. *)
Definition BUF_REMOVE (b : bufname) (st : state) : Z * state :=
  let c := rdbyte (buf_of b st) (rd (remove_of b) st) in
  (c, wr (remove_of b) (BUF_NEXT_REMOVE b st) st).

Definition BUF_PEEK (b : bufname) (st : state) : Z :=
  rdbyte (buf_of b st) (rd (remove_of b) st).
Definition BUF_PEEK2 (b : bufname) (st : state) : Z :=
  rdbyte (buf_of b st) (BUF_NEXT_REMOVE b st).
Definition BUF_PEEKX (b : bufname) (offset : Z) (st : state) : Z :=
  rdbyte (buf_of b st) (uint16 (rd (remove_of b) st + offset) mod sizeof_buf b).

(** [ES0_SAVE_DISABLE; body; ES0_RESTORE]. *)
Definition es0_critical {A} (body : state -> A * state) (st : state) : A * state :=
  let ES_saved := rd ES0 st in
  let st := wr ES0 0 st in
  let '(a, st) := body st in
  (a, wr ES0 ES_saved st).

Definition saturating_inc (counter : var) (st : state) : state :=
  if negb (rd counter st =? 0xFFFF) then wr counter (uint16 (rd counter st + 1)) st
  else st.

Definition hex_decode (c : Z) : Z :=
  if (c >=? ch "0") && (c <=? ch "9") then uint8 (c - ch "0")
  else if (c >=? ch "A") && (c <=? ch "F") then uint8 ((c - ch "A") + 10)
  else if (c >=? ch "a") && (c <=? ch "f") then uint8 ((c - ch "a") + 10)
  else 0.

(** *** Mainline operations *)

Definition serial_restart (st : state) : state :=
  if truthy (rd feature_rtscts st) && truthy (rd SERIAL_RTS st)
     && negb (truthy (rd at_mode_active st))
  then st
  else wr TI0 1 (wr tx_idle 0 st).

Definition serial_check_rts (st : state) : state :=
  if BUF_NOT_EMPTY tx st && truthy (rd tx_idle st) then serial_restart st else st.

Definition _serial_write (c : Z) (st : state) : state :=
  snd (es0_critical (fun st =>
    (tt,
     if BUF_NOT_FULL tx st then
       let st := BUF_INSERT tx c st in
       if truthy (rd tx_idle st) then serial_restart st else st
     else saturating_inc serial_tx_overflow st)) st).

Definition serial_write_space (st : state) : Z * state :=
  es0_critical (fun st => (uint16 (BUF_FREE tx st), st)) st.

Definition serial_write (c : Z) (st : state) : bool * state :=
  if truthy (rd uboot_silence_mode st) then (false, st)
  else
    let '(space, st) := serial_write_space st in
    if space <? 1 then (false, st)
    else (true, _serial_write c st).

(** [memcpy(&dst[off], src, n)]. *)
Definition memcpy (dst : list Z) (off : Z) (src : list Z) (n : Z) : list Z :=
  list_inserts (Z.to_nat off) (take (Z.to_nat n) src) dst.

Definition serial_write_buf (buf : list Z) (count : Z) (st : state) : state :=
  if count =? 0 then st
  else
    let '(space, st) := serial_write_space st in
    let '(count, st) :=
      if count >? space
      then (uint8 space, saturating_inc serial_tx_overflow st)
      else (count, st) in
    let n1 := count in
    let n1 :=
      if n1 >? uint16 (TX_BUFF_MAX - rd tx_insert st)
      then uint8 (uint16 (TX_BUFF_MAX - rd tx_insert st))
      else n1 in
    let st := set_buf tx (memcpy (tx_buf st) (rd tx_insert st) buf n1) st in
    let buf := drop (Z.to_nat n1) buf in
    let count := uint8 (count - n1) in
    let st := wr tx_insert (uint16 (rd tx_insert st + n1)) st in
    let st :=
      if rd tx_insert st >=? TX_BUFF_MAX
      then wr tx_insert (uint16 (rd tx_insert st - TX_BUFF_MAX)) st
      else st in
    let st :=
      if negb (count =? 0)
      then wr tx_insert count (set_buf tx (memcpy (tx_buf st) 0 buf count) st)
      else st in
    if truthy (rd tx_idle st) then serial_restart st else st.

Definition serial_read (st : state) : Z * state :=
  es0_critical (fun st =>
    let '(c, st) := if BUF_NOT_EMPTY rx st then BUF_REMOVE rx st else (0, st) in
    let st :=
      if BUF_FREE rx st >? SERIAL_CTS_THRESHOLD_HIGH then wr SERIAL_CTS 0 st else st in
    (c, st)) st.

Definition serial_peek (st : state) : Z * state :=
  es0_critical (fun st => (BUF_PEEK rx st, st)) st.
Definition serial_peek2 (st : state) : Z * state :=
  es0_critical (fun st => (BUF_PEEK2 rx st, st)) st.
Definition serial_peekx (offset : Z) (st : state) : Z * state :=
  es0_critical (fun st => (BUF_PEEKX rx offset st, st)) st.

Definition serial_read_available (st : state) : Z * state :=
  es0_critical (fun st => (uint16 (BUF_USED rx st), st)) st.

(** [serial_read_buf(buf, count)]: the result, the caller's array
    afterwards, and the new state. *)
Definition serial_read_buf (buf : list Z) (count : Z) (st : state)
  : bool * list Z * state :=
  let '(avail, st) := serial_read_available st in
  if count >? avail then (false, buf, st)
  else
    let n1 := count in
    let n1 :=
      if n1 >? uint16 (RX_BUFF_MAX - rd rx_remove st)
      then uint16 (RX_BUFF_MAX - rd rx_remove st)
      else n1 in
    let buf := memcpy buf 0 (drop (Z.to_nat (rd rx_remove st)) (rx_buf st)) n1 in
    let count := uint8 (count - n1) in
    let off := n1 in
    let st := wr rx_remove (uint16 (rd rx_remove st + n1)) st in
    let st :=
      if rd rx_remove st >=? RX_BUFF_MAX
      then wr rx_remove (uint16 (rd rx_remove st - RX_BUFF_MAX)) st
      else st in
    let '(buf, st) :=
      if count >? 0
      then (memcpy buf off (rx_buf st) count, wr rx_remove count st)
      else (buf, st) in
    let st :=
      if BUF_FREE rx st >? SERIAL_CTS_THRESHOLD_HIGH then wr SERIAL_CTS 0 st else st in
    (true, buf, st).

(** [serial_read_space]: the free part of the receive array as a
    percentage, computed in 16-bit arithmetic and returned as a byte. *)
Definition serial_read_space (st : state) : Z * state :=
  let '(avail, st) := serial_read_available st in
  let space := uint16 (RX_BUFF_MAX - avail) in
  let space := uint16 (uint16 (100 * (space / 8)) / (RX_BUFF_MAX / 8)) in
  (uint8 space, st).

Definition serial_read_space_bytes (st : state) : Z * state :=
  let '(avail, st) := serial_read_available st in
  (uint16 (RX_BUFF_MAX - avail), st).

Definition putchar_r (c : Z) (st : state) : state :=
  let st := if c =? 10 then _serial_write 13 st else st in
  _serial_write c st.

(** *** The UART interrupt handler *)

(** [while (BUF_NOT_EMPTY(rx)) { BUF_REMOVE(rx,c); }], unrolled at most
    [fuel] times; with both pointers inside the array the loop exits
    within [RX_BUFF_MAX] rounds. *)
Fixpoint drain_rx (fuel : nat) (st : state) : state :=
  match fuel with
  | O => st
  | S fuel =>
      if BUF_NOT_EMPTY rx st then drain_rx fuel (snd (BUF_REMOVE rx st)) else st
  end.

(** [if (BUF_NOT_FULL(rx)) BUF_INSERT(rx, c); else count an overflow]. *)
Definition rx_store (c : Z) (st : state) : state :=
  if BUF_NOT_FULL rx st then BUF_INSERT rx c st
  else saturating_inc serial_rx_overflow st.

(** The banner detector at the head of the receive branch. *)
Definition uboot_detect (c : Z) (st : state) : state :=
  let st :=
    if ((rd last_byte st =? 0x86) && (c =? 0x98)) || ((rd last_byte st =? 0x98) && (c =? 0x86))
    then wr uboot_counter (uint8 (rd uboot_counter st + 1)) st
    else wr uboot_counter 0 st in
  let st :=
    if rd uboot_counter st >=? 80 then
      let st := wr LED_BOOTLOADER LED_ON st in
      let st := wr uboot_silence_counter (20 * 100) st in
      let st := wr uboot_counter 0 st in
      wr uboot_silence_mode 1 st
    else st in
  wr last_byte c st.

(** The [!] escape scanner: the [if]/[else if] chain of the receive
    branch, in source order.  [None] is a branch that resets the chip
    and never returns. *)
Definition escape_scan (c : Z) (st : state) : option state :=
  let bang := truthy (rd last_was_bang st) in
  if c =? ch "!" then
    let st :=
      if truthy (rd uboot_silence_mode st) then
        wr LED_BOOTLOADER LED_OFF (wr uboot_silence_counter 0 (wr uboot_silence_mode 0 st))
      else st in
    Some (if truthy (rd last_was_bang st)
          then wr last_was_bang 0 (wr tx_buffered_data 1 st)
          else wr last_was_bang 1 st)
  else if (c =? ch "M") && bang then
    Some (call (radio_set_transmit_power 30) (wr last_was_bang 0 st))
  else if (c =? ch "H") && bang then
    Some (call (radio_set_transmit_power 24) (wr last_was_bang 0 st))
  else if (c =? ch "L") && bang then
    Some (call (radio_set_transmit_power 0) (wr last_was_bang 0 st))
  else if (c =? ch "P") && bang then
    Some (call printfl_txpower (wr last_was_bang 0 st))
  else if (c =? ch "B") && bang then
    let '(c, st) :=
      if BUF_EMPTY rx st then (1, st)
      else let '(r, st) := serial_read st in
           (if negb (r =? ch "u") then 1 else c, st) in
    let '(c, st) :=
      if BUF_EMPTY rx st then (1, st)
      else let '(r, st) := serial_read st in
           (if negb (r =? ch "p") then 1 else c, st) in
    let c := if BUF_NOT_EMPTY rx st then 1 else c in
    let st := wr last_was_bang 0 st in
    if c =? ch "B" then None else Some st
  else if (c =? ch "C") && bang then
    Some (drain_rx (Z.to_nat RX_BUFF_MAX) (wr last_was_bang 0 st))
  else if ((c >=? ch "a") && (c <=? ch "z") && bang)
          || ((c >=? ch "0") && (c <=? ch "9") && bang) then
    Some (call (user_pin_command c) (wr last_was_bang 0 st))
  else if (c =? ch "D") && bang then
    Some (wr last_was_bang 0 (wr eeprom_param_request 1 st))
  else if (c =? ch "E") && bang then
    Some (wr last_was_bang 0 (call eeprom_dump st))
  else if (c =? ch "I") && bang then
    Some (wr last_was_bang 0 (call eeprom_dump_compat st))
  else if (c =? ch "F") && bang then
    Some (call flash_report_summary (wr last_was_bang 0 st))
  else if (c =? ch "0") && bang then
    Some (wr rx_remove 0 (wr rx_insert 0 (wr last_was_bang 0 st)))
  else if (c =? ch "Y") && bang then
    let st := wr last_was_bang 0 st in
    let st := wr tx_buffered_data 0 st in
    let st := wr heartbeat_requested 0 st in
    Some (call printfl_reinited (call reinit st))
  else if (c =? ch "Z") && bang then
    None
  else if (c =? ch "R") && bang then
    Some (call param_default (wr last_was_bang 0 st))
  else if (c =? ch "V") && bang then
    Some (putchar_r (ch "1") (wr last_was_bang 0 st))
  else if (c =? ch ".") && bang then
    Some (rx_store (ch "!") (wr last_was_bang 0 st))
  else if bang then
    Some (putchar_r (ch "E") (wr last_was_bang 0 st))
  else
    Some (rx_store c st).

(** The receive branch: [if (RI0) { ... }]. *)
Definition rx_branch (st : state) : option state :=
  let st := wr RI0 0 st in
  let c := rd SBUF0 st in
  let st := uboot_detect c st in
  if truthy (rd at_mode_active st) then
    Some (if negb (truthy (rd at_cmd_ready st)) then call (at_input c) st else st)
  else
    let st := call (at_plus_detector c) st in
    match escape_scan c st with
    | None => None
    | Some st =>
        Some (if BUF_FREE rx st <? SERIAL_CTS_THRESHOLD_LOW
              then wr SERIAL_CTS 1 st else st)
    end.

(** The transmit branch: [if (TI0) { ... }]. *)
Definition tx_branch (st : state) : state :=
  let st := wr TI0 0 st in
  if BUF_NOT_EMPTY tx st then
    let credit :=
      if truthy (rd feature_rtscts st) then
        if truthy (rd SERIAL_RTS st) && negb (truthy (rd at_mode_active st)) then
          if rd rts_count st =? 0 then None
          else Some (wr rts_count (uint8 (rd rts_count st - 1)) st)
        else Some (wr rts_count 8 st)
      else Some st in
    match credit with
    | None => wr tx_idle 1 st
    | Some st => let '(c, st) := BUF_REMOVE tx st in transmit c st
    end
  else wr tx_idle 1 st.

Definition serial_interrupt (st : state) : option state :=
  match (if truthy (rd RI0 st) then rx_branch st else Some st) with
  | None => None
  | Some st => Some (if truthy (rd TI0 st) then tx_branch st else st)
  end.

(** *** Initialisation *)

(** [serial_rates]: rate code, [th1], [ckcon]. *)
Definition serial_rates : list (Z * Z * Z) :=
  [ (1, 0x2C, 0x02); (2, 0x96, 0x02); (4, 0x2C, 0x00); (9, 0x96, 0x00);
    (19, 0x60, 0x01); (38, 0xb0, 0x01); (57, 0x2b, 0x08); (115, 0x96, 0x08);
    (230, 0xcb, 0x08) ].

Definition num_rates : Z := Z.of_nat (length serial_rates).

(** The index at which [for (i = 0; i < num_rates; i++) if (speed ==
    serial_rates[i].rate) break;] stops, starting from [i]. *)
Fixpoint rate_scan (speed : Z) (rates : list (Z * Z * Z)) (i : Z) : Z :=
  match rates with
  | [] => i
  | (rate, _, _) :: rates => if speed =? rate then i else rate_scan speed rates (i + 1)
  end.

Definition serial_device_valid_speed (speed : Z) : bool :=
  negb (rate_scan speed serial_rates 0 =? num_rates).

Definition serial_device_set_speed (speed : Z) (st : state) : state :=
  let i := rate_scan speed serial_rates 0 in
  let i := if i =? num_rates then 6 else i in
  let '(_, th1, ckcon) := default (0, 0, 0) (serial_rates !! Z.to_nat i) in
  let st := wr TH1 th1 st in
  let st := wr CKCON (uint8 (Z.lor (Z.land (rd CKCON st) (Z.lnot 0x0b)) ckcon)) st in
  call (packet_set_serial_speed ((speed * 125) mod 2 ^ 32)) st.

Definition serial_init (speed : Z) (st : state) : state :=
  let st := wr ES0 0 st in
  let st := wr rx_insert 0 st in
  let st := wr rx_remove 0 st in
  let st := wr tx_insert 0 st in
  let st := wr tx_remove 0 st in
  let st := wr tx_idle 1 st in
  let st := wr TR1 0 st in
  let st := wr TMOD (uint8 (Z.lor (Z.land (rd TMOD st) (Z.lnot 0xf0)) 0x20)) st in
  let st := serial_device_set_speed speed st in
  let st := wr TR1 1 st in
  let st := wr SCON0 0x10 st in
  let st := wr SERIAL_CTS 0 st in
  wr ES0 1 st.

(** *** Observations used in the statements *)

(** The bytes a ring holds, oldest first: [BUF_USED] cells from the
    remove pointer on, wrapping at the end of the array. *)
Definition queued (b : bufname) (st : state) : list Z :=
  (fun k => rdbyte (buf_of b st) ((rd (remove_of b) st + k) mod sizeof_buf b))
    <$> upto (BUF_USED b st).

(** The outbound stream: what went to the UART, then what is queued. *)
Definition outbound (st : state) : list Z := sent st ++ queued tx st.

(** The UART delivers byte [c] and raises the receive interrupt. *)
Definition receive (c : Z) (st : state) : option state :=
  serial_interrupt (wr SBUF0 c (wr RI0 1 st)).

Fixpoint receive_all (cs : list Z) (st : state) : option state :=
  match cs with
  | [] => Some st
  | c :: cs =>
      match receive c st with
      | None => None
      | Some st => receive_all cs st
      end
  end.

(** [n] transmit interrupts in a row: the transmit branch run [n]
    times with nothing received in between. *)
Fixpoint tx_interrupts (n : nat) (st : state) : state :=
  match n with
  | O => st
  | S n => tx_interrupts n (tx_branch st)
  end.

(** The bytes the escape scanner acts on when they follow a [!]: the
    escape itself, the literal marker, the upper-case command letters,
    and every lower-case letter and digit. *)
Definition command_letters : list Z :=
  [ ch "M"; ch "H"; ch "L"; ch "P"; ch "B"; ch "C"; ch "D"; ch "E";
    ch "I"; ch "F"; ch "Y"; ch "Z"; ch "R"; ch "V" ].

Definition is_command_code (c : Z) : bool :=
  (c =? ch "!") || (c =? ch ".")
  || existsb (Z.eqb c) command_letters
  || ((c >=? ch "a") && (c <=? ch "z"))
  || ((c >=? ch "0") && (c <=? ch "9")).

(** Both pointers of both rings inside their arrays, the arrays at their
    declared sizes, the 16-bit counters and the 8-bit banner counter in
    range. *)
Definition well_formed (st : state) : bool :=
  (0 <=? rd rx_insert st) && (rd rx_insert st <? RX_BUFF_MAX)
  && (0 <=? rd rx_remove st) && (rd rx_remove st <? RX_BUFF_MAX)
  && (0 <=? rd tx_insert st) && (rd tx_insert st <? TX_BUFF_MAX)
  && (0 <=? rd tx_remove st) && (rd tx_remove st <? TX_BUFF_MAX)
  && (Z.of_nat (length (rx_buf st)) =? RX_BUFF_MAX)
  && (Z.of_nat (length (tx_buf st)) =? TX_BUFF_MAX)
  && (0 <=? rd serial_rx_overflow st) && (rd serial_rx_overflow st <=? 65535)
  && (0 <=? rd serial_tx_overflow st) && (rd serial_tx_overflow st <=? 65535)
  && (0 <=? rd uboot_counter st) && (rd uboot_counter st <? 80).

(** Memory as the C start-up code leaves it: statics zeroed. *)
Definition power_on : state :=
  mkState (fun _ => 0)
          (replicate (Z.to_nat RX_BUFF_MAX) 0) (replicate (Z.to_nat TX_BUFF_MAX) 0)
          [] [].

(** Two states that agree on every scalar, array and trace. *)
Definition same_state (s1 s2 : state) : Prop :=
  (forall x, rd x s1 = rd x s2)
  /\ rx_buf s1 = rx_buf s2 /\ tx_buf s1 = tx_buf s2
  /\ sent s1 = sent s2 /\ calls s1 = calls s2.

(** *** Auxiliary notions for the proofs *)

(** One ring with both pointers inside its array. *)
Definition ring_ok (b : bufname) (st : state) : Prop :=
  0 <= rd (insert_of b) st < sizeof_buf b
  /\ 0 <= rd (remove_of b) st < sizeof_buf b
  /\ Z.of_nat (length (buf_of b st)) = sizeof_buf b.

(** Two states with the same ring [b]. *)
Definition same_ring (b : bufname) (s1 s2 : state) : Prop :=
  rd (insert_of b) s1 = rd (insert_of b) s2
  /\ rd (remove_of b) s1 = rd (remove_of b) s2
  /\ buf_of b s1 = buf_of b s2.

(** The handler's receive path up to the escape scanner, outside AT mode. *)
Definition pre_scan (c : Z) (st : state) : state :=
  call (at_plus_detector c) (uboot_detect c (wr RI0 0 (wr SBUF0 c (wr RI0 1 st)))).

(** The ready-to-receive update that follows the scanner. *)
Definition cts_low (st : state) : state :=
  if BUF_FREE rx st <? SERIAL_CTS_THRESHOLD_LOW then wr SERIAL_CTS 1 st else st.

(** The transmit branch, if its interrupt flag is up. *)
Definition tx_after (st : state) : state :=
  if truthy (rd TI0 st) then tx_branch st else st.

(** The block that ends silence mode when a [!] arrives. *)
Definition clear_silence (st : state) : state :=
  if truthy (rd uboot_silence_mode st) then
    wr LED_BOOTLOADER LED_OFF (wr uboot_silence_counter 0 (wr uboot_silence_mode 0 st))
  else st.

(** What the protocol statements observe of a state. *)
Record view := mkView {
  v_rx : list Z; v_out : list Z; v_bang : Z; v_flush : Z; v_at : Z;
  v_rx_overflow : Z; v_tx_overflow : Z; v_silence : Z; v_calls : list ext_call
}.

Definition seen (st : state) : view :=
  mkView (queued rx st) (outbound st) (rd last_was_bang st) (rd tx_buffered_data st)
         (rd at_mode_active st) (rd serial_rx_overflow st) (rd serial_tx_overflow st)
         (rd uboot_silence_mode st) (calls st).

(** The alternating banner pattern, [k] bytes long, starting with 0x86. *)
Fixpoint banner (k : nat) : list Z :=
  match k with
  | O => []
  | S k => 0x86 :: ((fun c => if c =? 0x86 then 0x98 else 0x86) <$> banner k)
  end.

End Serial.

(** ** The EEPROM bus ([i2c.c], built with [PIN_MAX > 0]) *)

Module I2C.

(** What the bus code does to the outside, in order: calls into the pin
    driver ([pins_user.h]) and runs of the busy-wait loop [i2c_delay]. *)
Inductive bus_event :=
  | pins_user_set_io (pin : Z) (output : bool)
  | pins_user_set_value (pin : Z) (level : bool)
  | pins_user_get_adc (pin : Z)
  | delay.

(** The events so far, and the values the coming [pins_user_get_adc]
    calls return, in call order (0 once the list is used up). *)
Record bus := mkBus { events : list bus_event; adc : list Z }.

Definition emit (e : bus_event) (b : bus) : bus := mkBus (events b ++ [e]) (adc b).

Definition get_adc (pin : Z) (b : bus) : Z * bus :=
  (default 0 (head (adc b)), mkBus (events b ++ [pins_user_get_adc pin]) (tail (adc b))).

Definition i2c_delay (b : bus) : bus := emit delay b.

Definition i2c_clock_high (b : bus) : bus := emit (pins_user_set_io 3 false) b.

Definition i2c_clock_low (b : bus) : bus :=
  emit (pins_user_set_value 3 false) (emit (pins_user_set_io 3 true) b).

Definition i2c_data_high (b : bus) : bus := emit (pins_user_set_io 4 false) b.

Definition i2c_data_low (b : bus) : bus :=
  emit (pins_user_set_value 4 false) (emit (pins_user_set_io 4 true) b).

Definition i2c_clock_value (b : bus) : Z * bus :=
  let '(v, b) := get_adc 3 b in (if negb (v =? 0) then 1 else 0, b).

Definition i2c_data_value (b : bus) : Z * bus :=
  let '(v, b) := get_adc 4 b in (if negb (v =? 0) then 1 else 0, b).

Definition i2c_stop (b : bus) : bus := i2c_data_high (i2c_clock_high b).

Definition i2c_start (b : bus) : bus := i2c_clock_low (i2c_data_low (i2c_stop b)).

(** [while (i2c_clock_value()) i2c_delay();], at most [fuel] reads; the
    loop has no bound of its own. *)
Fixpoint wait_clock (fuel : nat) (b : bus) : option bus :=
  match fuel with
  | O => None
  | S fuel =>
      let '(v, b) := i2c_clock_value b in
      if negb (v =? 0) then wait_clock fuel (i2c_delay b) else Some b
  end.

(** The receive loop of [i2c_rx] with [x] rounds to go. *)
Fixpoint i2c_rx_bits (fuel : nat) (x : nat) (d : Z) (b : bus) : option (Z * bus) :=
  match x with
  | O => Some (d, b)
  | S x =>
      let d := uint8 (Z.shiftl d 1) in
      let b := i2c_delay (i2c_clock_high b) in
      match wait_clock fuel b with
      | None => None
      | Some b =>
          let '(v, b) := i2c_data_value b in
          let d := if negb (v =? 0) then uint8 (Z.lor d 1) else d in
          let b := i2c_delay (i2c_clock_low b) in
          i2c_rx_bits fuel x d b
      end
  end.

Definition i2c_rx (fuel : nat) (ack : Z) (b : bus) : option (Z * bus) :=
  let b := i2c_delay (i2c_data_high b) in
  match i2c_rx_bits fuel 8 0 b with
  | None => None
  | Some (d, b) =>
      let b := if negb (ack =? 0) then i2c_data_low b else i2c_data_high b in
      let b := i2c_delay b in
      let b := i2c_delay (i2c_clock_high b) in
      let b := i2c_delay (i2c_clock_low b) in
      let b := i2c_delay (i2c_data_high b) in
      Some (d, b)
  end.

(** The transmit loop of [i2c_tx] with [x] rounds to go. *)
Fixpoint i2c_tx_bits (x : nat) (d : Z) (b : bus) : bus :=
  match x with
  | O => b
  | S x =>
      let b := if negb (Z.land d 0x80 =? 0) then i2c_data_high b else i2c_data_low b in
      let d := uint8 (Z.shiftl d 1) in
      let b := i2c_delay (i2c_clock_high b) in
      let b := i2c_delay (i2c_clock_low b) in
      i2c_tx_bits x d b
  end.

Definition i2c_tx (d : Z) (b : bus) : Z * bus :=
  let b := i2c_delay (i2c_clock_low b) in
  let b := i2c_tx_bits 8 d b in
  i2c_data_value b.

(** [while (i2c_tx(value)) i2c_delay();], at most [fuel] transmissions;
    the loop has no bound of its own. *)
Fixpoint tx_until_acked (fuel : nat) (value : Z) (b : bus) : option bus :=
  match fuel with
  | O => None
  | S fuel =>
      let '(r, b) := i2c_tx value b in
      if negb (r =? 0) then tx_until_acked fuel value (i2c_delay b) else Some b
  end.

(** [eeprom_write_byte(address, value)]: the result and the bus
    afterwards; [None] if the device never acknowledges the value. *)
Definition eeprom_write_byte (fuel : nat) (address value : Z) (b : bus)
  : option (Z * bus) :=
  let b := i2c_start b in
  let '(r, b) := i2c_tx (uint8 (0xa0 + Z.land (Z.shiftr address 7) 0xe)) b in
  if negb (r =? 0) then Some (-1, b)
  else
    let '(r, b) := i2c_tx (uint8 (Z.land address 0xff)) b in
    if negb (r =? 0) then Some (-1, b)
    else
      match tx_until_acked fuel value b with
      | None => None
      | Some b => Some (0, i2c_stop b)
      end.

(** [eeprom_read_byte(address, byte)]: the result, [*byte] afterwards,
    and the bus afterwards. *)
Definition eeprom_read_byte (fuel : nat) (address byte : Z) (b : bus)
  : option (Z * Z * bus) :=
  let b := i2c_start b in
  let '(r, b) := i2c_tx (uint8 (0xa0 + Z.land (Z.shiftr address 7) 0xe)) b in
  if negb (r =? 0) then Some (-1, byte, b)
  else
    let '(r, b) := i2c_tx (uint8 (Z.land address 0xff)) b in
    if negb (r =? 0) then Some (-1, byte, b)
    else
      let b := i2c_stop b in
      let b := i2c_start b in
      let '(r, b) := i2c_tx (uint8 (0xa1 + Z.land (Z.shiftr address 7) 0xe)) b in
      if negb (r =? 0) then Some (-1, byte, b)
      else
        match i2c_rx fuel 1 b with
        | None => None
        | Some (d, b) => Some (0, d, i2c_stop b)
        end.

(** *** Observations used in the statements *)

(** A run of events appended to the bus. *)
Definition emits (es : list bus_event) (b : bus) : bus := mkBus (events b ++ es) (adc b).

(** The settings of the data line (pin 4) among a run of events:
    released ([true]) or driven ([false]). *)
Definition data_bits (es : list bus_event) : list bool :=
  omap (fun e => match e with
                 | pins_user_set_io 4 output => Some (negb output)
                 | _ => None
                 end) es.

(** How often a run of events releases the clock line (pin 3). *)
Definition clock_releases (es : list bus_event) : nat :=
  length (omap (fun e => match e with
                         | pins_user_set_io 3 false => Some tt
                         | _ => None
                         end) es).

(** Eight bits, most significant first, and the byte they spell. *)
Definition bits_of_byte (d : Z) : list bool := (fun i => Z.testbit d (7 - i)) <$> upto 8.

Definition byte_of_bits (bs : list bool) : Z :=
  fold_left (fun acc (bit : bool) => 2 * acc + Z.b2z bit) bs 0.

(** The events of one [i2c_tx d], up to its closing read of the data pin. *)
Definition tx_events (d : Z) : list bus_event :=
  events (i2c_tx_bits 8 d (i2c_delay (i2c_clock_low (mkBus [] [])))).

(** The events of the start and stop conditions. *)
Definition start_events : list bus_event := events (i2c_start (mkBus [] [])).
Definition stop_events : list bus_event := events (i2c_stop (mkBus [] [])).

(** The control byte: device code 1010, the three high address bits,
    and the read flag. *)
Definition control_byte (address read : Z) : Z :=
  uint8 (0xa0 + read + Z.land (Z.shiftr address 7) 0xe).

End I2C.

(** * Properties *)

(** ** Byte arrays *)

Lemma rdbyte_wrbyte_eq a i v :
  0 <= i < Z.of_nat (length a) -> rdbyte (wrbyte a i v) i = v.
Proof.
  intros Hi. unfold rdbyte, wrbyte.
  rewrite list_lookup_insert_eq; [done | lia].
Qed.

Lemma rdbyte_wrbyte_ne a i j v :
  0 <= i -> 0 <= j -> i <> j -> rdbyte (wrbyte a i v) j = rdbyte a j.
Proof.
  intros Hi Hj Hne. unfold rdbyte, wrbyte.
  rewrite list_lookup_insert_ne; [done | lia].
Qed.

Lemma length_wrbyte a i v : length (wrbyte a i v) = length a.
Proof. apply length_insert. Qed.

Lemma length_upto n : length (upto n) = Z.to_nat n.
Proof. unfold upto. by rewrite length_fmap, length_seq. Qed.

Lemma lookup_upto n (i : nat) :
  (i < Z.to_nat n)%nat -> upto n !! i = Some (Z.of_nat i).
Proof.
  intros Hi. unfold upto. rewrite list_lookup_fmap, lookup_seq_lt by done. done.
Qed.

(** ** The interleaver *)

Module InterleaveFacts.
Import Interleave.

(** The bit position within a byte that the macros shift by. *)
Lemma land7_range p : 0 <= Z.land p 7 <= 7.
Proof.
  replace (Z.land p 7) with (p mod 8).
  - pose proof (Z.mod_pos_bound p 8). lia.
  - change 7 with (Z.ones 3). rewrite Z.land_ones by lia. reflexivity.
Qed.

(** X1: writing a non-zero value and reading the same index back gives
    1, whatever else the byte holds: the bit just set keeps the shifted
    byte non-zero. *)
Lemma setbit_one_getbit n inb bit v :
  v <> 0 ->
  0 <= Z.shiftr (permuted n bit) 3 < Z.of_nat (length inb) ->
  0 <= rdbyte inb (Z.shiftr (permuted n bit) 3) < 256 ->
  interleave_getbit n (interleave_setbit n inb bit v) bit = 1.
Proof.
  intros Hv Hidx Hb. unfold interleave_getbit, interleave_setbit.
  apply Z.eqb_neq in Hv. rewrite Hv.
  rewrite rdbyte_wrbyte_eq by done.
  set (k := Z.land (permuted n bit) 7).
  set (b := rdbyte inb (Z.shiftr (permuted n bit) 3)) in *.
  pose proof (land7_range (permuted n bit)) as Hk. fold k in Hk.
  destruct (Z.shiftr (uint8 (Z.lor b (Z.shiftl 1 k))) k =? 0) eqn:E; [|done].
  exfalso. apply Z.eqb_eq in E.
  assert (Ht : Z.testbit (Z.shiftr (uint8 (Z.lor b (Z.shiftl 1 k))) k) 0 = true).
  { rewrite Z.shiftr_spec by lia. unfold uint8.
    change 256 with (2 ^ 8). rewrite Z.mod_pow2_bits_low by lia.
    rewrite Z.lor_spec, Z.shiftl_spec by lia.
    replace (0 + k - k) with 0 by lia. cbn. apply orb_true_r. }
  rewrite E in Ht. discriminate.
Qed.

(** The byte-level fact behind both macros: after [b &= ~1<<k] the
    test [(b >> k) ? 1 : 0] sees exactly the bits of [b] above [k]. *)
Lemma cleared_byte_test b k :
  0 <= b < 256 -> 0 <= k <= 7 ->
  (Z.shiftr (uint8 (Z.land b (Z.shiftl (Z.lnot 1) k))) k =? 0)
  = (Z.shiftr b (k + 1) =? 0).
Proof.
  intros Hb Hk.
  assert (Hall : forallb (fun b =>
            forallb (fun k =>
              Bool.eqb (Z.shiftr (uint8 (Z.land b (Z.shiftl (Z.lnot 1) k))) k =? 0)
                       (Z.shiftr b (k + 1) =? 0))
              (upto 8)) (upto 256) = true) by (vm_compute; reflexivity).
  rewrite forallb_forall in Hall.
  assert (Hin : forall m x, 0 <= x < m -> In x (upto m)).
  { intros m x Hx. apply list_elem_of_In, list_elem_of_lookup.
    exists (Z.to_nat x). rewrite lookup_upto by lia. f_equal. lia. }
  specialize (Hall b (Hin 256 b Hb)). rewrite forallb_forall in Hall.
  specialize (Hall k (Hin 8 k ltac:(lia))). by apply Bool.eqb_prop in Hall.
Qed.

(** X2: writing a zero and reading the same index back gives 0 exactly
    when the byte held no set bit above the addressed position; with such
    a bit set the read-back is 1. *)
Lemma setbit_zero_getbit n inb bit :
  0 <= Z.shiftr (permuted n bit) 3 < Z.of_nat (length inb) ->
  0 <= rdbyte inb (Z.shiftr (permuted n bit) 3) < 256 ->
  interleave_getbit n (interleave_setbit n inb bit 0) bit
  = if Z.shiftr (rdbyte inb (Z.shiftr (permuted n bit) 3)) (Z.land (permuted n bit) 7 + 1) =? 0
    then 0 else 1.
Proof.
  intros Hidx Hb. unfold interleave_getbit, interleave_setbit.
  rewrite Z.eqb_refl, rdbyte_wrbyte_eq by done.
  by rewrite cleared_byte_test by (done || apply land7_range).
Qed.

(** A stride coprime to the modulus permutes the residues. *)
Lemma coprime_stride_injective s m i j :
  0 < m -> Z.gcd s m = 1 -> 0 <= i < m -> 0 <= j < m ->
  (i * s) mod m = (j * s) mod m -> i = j.
Proof.
  intros Hm Hg Hi Hj He.
  assert (Hd : (m | s * (i - j))).
  { apply Z.mod_divide; [lia|].
    replace (s * (i - j)) with (i * s - j * s) by ring.
    rewrite Zminus_mod, He, Z.sub_diag. apply Z.mod_0_l. lia. }
  apply Z.gauss in Hd; [|by rewrite Z.gcd_comm].
  destruct Hd as [q Hq].
  assert (q = 0) by nia. lia.
Qed.

(** What the table generator checked: every entry is coprime to the
    generator's modulus, one more than the block's bit count. *)
Lemma steps_coprime_generator_modulus :
  Forall (fun k => Z.gcd (stride (3 * k)) (generator_modulus k) = 1) (upto 86).
Proof.
  let l := eval vm_compute in (upto 86) in change (upto 86) with l.
  repeat (constructor; [vm_compute; reflexivity|]). constructor.
Qed.

(** X3: every table entry is a stride that permutes the positions
    modulo the generator's modulus [24k + 1] (one more than the bit count
    of the [3k]-byte block): two positions below that modulus with the
    same image are the same position. *)
Lemma stride_bijective_on_generator_modulus k i j :
  0 <= k < 86 ->
  0 <= i < generator_modulus k -> 0 <= j < generator_modulus k ->
  (i * stride (3 * k)) mod generator_modulus k
  = (j * stride (3 * k)) mod generator_modulus k ->
  i = j.
Proof.
  intros Hk Hi Hj. apply coprime_stride_injective; try done.
  - unfold generator_modulus. lia.
  - pose proof steps_coprime_generator_modulus as Hall.
    rewrite Forall_forall in Hall. apply Hall.
    apply list_elem_of_lookup. exists (Z.to_nat k).
    rewrite lookup_upto by lia. f_equal. lia.
Qed.

(** C1: a cleared bit does not read back as cleared.  In a 3-byte block
    whose first byte is 0xFF, writing 0 at bit index 0 and reading bit
    index 0 again yields 1. *)
Theorem setbit_zero_getbit_reads_one :
  interleave_setbit 3 [255; 0; 0] 0 0 = [254; 0; 0]
  /\ interleave_getbit 3 (interleave_setbit 3 [255; 0; 0] 0 0) 0 = 1.
Proof. split; reflexivity. Qed.

(** C2: the macros do not address the single bit the permutation names.
    The index is reduced modulo [n], not [8n] (for [n = 3], bit 1 goes to
    position 1 instead of 7); reading answers whether any bit at or above
    the position is set (byte 0x02, position 0 reads 1); and clearing
    position [k] clears positions 0 to [k] (for [n = 18], bit 1 goes to
    position 17 under both moduli, and byte 2 turns from 0xFF into 0xFC,
    not 0xFD). *)
Theorem getbit_setbit_diverge_from_single_bit_access :
  (permuted 3 1 = 1 /\ spec_permuted 3 1 = 7)
  /\ (permuted 3 0 = spec_permuted 3 0
      /\ interleave_getbit 3 [2; 0; 0] 0 = 1 /\ spec_getbit 3 [2; 0; 0] 0 = 0)
  /\ (permuted 18 1 = 17 /\ spec_permuted 18 1 = 17
      /\ rdbyte (interleave_setbit 18 (replicate 18 255) 1 0) 2 = 252
      /\ rdbyte (spec_setbit 18 (replicate 18 255) 1 0) 2 = 253).
Proof. repeat split; reflexivity. Qed.

(** C3: the stride of the 6-byte class is not a bijection on the 48 bit
    positions: stride 9 shares the factor 3 with 48, so positions 0 and
    16 collide. *)
Theorem stride_not_bijective_n6 :
  stride 6 = 9
  /\ spec_permuted 6 0 = spec_permuted 6 16
  /\ ~ NoDup (stride_image 6).
Proof.
  split; [reflexivity|]. split; [reflexivity|].
  intros H.
  pose proof (NoDup_lookup _ 0%nat 16%nat 0 H) as Hl.
  discriminate Hl; reflexivity.
Qed.

(** The same happens in 52 of the 85 non-empty length classes. *)
Lemma stride_shared_factor_classes :
  length (filter (fun k => Z.gcd (stride (3 * k)) (8 * (3 * k)) <> 1) (upto 86)) = 53%nat
  /\ Z.gcd (stride 0) (8 * 0) = 0.
Proof. split; vm_compute; reflexivity. Qed.

Lemma setbit_one_getbit_witness :
  interleave_getbit 18 (interleave_setbit 18 (replicate 18 0) 1 1) 1 = 1.
Proof.
  apply (setbit_one_getbit 18 (replicate 18 0) 1 1);
    vm_compute; (discriminate || (split; (discriminate || reflexivity))).
Defined.

Lemma setbit_zero_getbit_witness :
  interleave_getbit 18 (interleave_setbit 18 (replicate 18 255) 1 0) 1 = 1.
Proof.
  rewrite (setbit_zero_getbit 18 (replicate 18 255) 1);
    vm_compute; (reflexivity || (split; (discriminate || reflexivity))).
Defined.

Lemma stride_bijective_on_generator_modulus_witness :
  (2 * stride 3) mod generator_modulus 1 <> (3 * stride 3) mod generator_modulus 1.
Proof.
  intros H.
  apply (stride_bijective_on_generator_modulus 1 2 3) in H;
    [discriminate H | vm_compute; split; (discriminate || reflexivity) ..].
Defined.

(** *** Which bytes the accessors reach *)

Lemma permuted_range n bit : 0 < n -> 0 <= permuted n bit < n.
Proof. intros Hn. unfold permuted. apply Z.mod_pos_bound. lia. Qed.

Lemma permuted_byte_index n bit :
  0 < n -> 0 <= Z.shiftr (permuted n bit) 3 <= (n - 1) / 8.
Proof.
  intros Hn. pose proof (permuted_range n bit Hn) as Hp.
  rewrite Z.shiftr_div_pow2 by lia. change (2 ^ 3) with 8.
  split; [apply Z.div_pos; lia | apply Z.div_le_mono; lia].
Qed.

Lemma interleave_setbit_frame n inb bit v :
  0 < n ->
  length (interleave_setbit n inb bit v) = length inb
  /\ (forall j, (n - 1) / 8 < j -> rdbyte (interleave_setbit n inb bit v) j = rdbyte inb j).
Proof.
  intros Hn. pose proof (permuted_byte_index n bit Hn) as Hp.
  unfold interleave_setbit. cbv zeta.
  case_match; (split; [apply length_wrbyte|]; intros j Hj; apply rdbyte_wrbyte_ne; lia).
Qed.

Lemma interleave_getbit_agree n inb inb' bit :
  0 < n ->
  (forall j, 0 <= j <= (n - 1) / 8 -> rdbyte inb' j = rdbyte inb j) ->
  interleave_getbit n inb' bit = interleave_getbit n inb bit.
Proof.
  intros Hn H. unfold interleave_getbit. cbv zeta.
  by rewrite H by (by apply permuted_byte_index).
Qed.

(** X4: both byte accessors work within bytes 0 to [(n-1)/8] of the
    [n]-byte block and nowhere else.  Writing a byte at any index keeps
    the length of the block and every byte above that range, and reading
    a byte at any index depends on nothing above it. *)
Theorem interleave_reaches_first_eighth n inb index value :
  0 < n ->
  length (interleave_setbyte n inb index value) = length inb
  /\ (forall j, (n - 1) / 8 < j ->
        rdbyte (interleave_setbyte n inb index value) j = rdbyte inb j)
  /\ (forall inb',
        (forall j, 0 <= j <= (n - 1) / 8 -> rdbyte inb' j = rdbyte inb j) ->
        interleave_getbyte n inb' index = interleave_getbyte n inb index).
Proof.
  intros Hn. split; [|split].
  - unfold interleave_setbyte. cbv zeta.
    by rewrite !(proj1 (interleave_setbit_frame _ _ _ _ Hn)).
  - intros j Hj. unfold interleave_setbyte. cbv zeta.
    by rewrite !(proj2 (interleave_setbit_frame _ _ _ _ Hn)) by done.
  - intros inb' H. unfold interleave_getbyte. cbv zeta.
    by rewrite !(interleave_getbit_agree n inb inb' _ Hn H).
Qed.

Lemma interleave_reaches_first_eighth_witness :
  rdbyte (interleave_setbyte 18 (replicate 18 0) 1 255) 3 = 0
  /\ interleave_getbyte 18 ([0; 0; 0] ++ replicate 15 255) 1 = 0.
Proof.
  destruct (interleave_reaches_first_eighth 18 (replicate 18 0) 1 255 eq_refl)
    as (_ & H2 & H3).
  split.
  - rewrite H2; vm_compute; reflexivity.
  - rewrite (H3 ([0; 0; 0] ++ replicate 15 255)); [vm_compute; reflexivity|].
    intros j Hj. change ((18 - 1) / 8) with 2 in Hj.
    assert (Hc : j = 0 \/ j = 1 \/ j = 2) by lia.
    destruct Hc as [->|[->| ->]]; reflexivity.
Defined.

End InterleaveFacts.

(** ** Lists indexed by machine integers *)

Lemma upto_succ n : 0 <= n -> upto (n + 1) = upto n ++ [n].
Proof.
  intros Hn. unfold upto.
  replace (Z.to_nat (n + 1)) with (Z.to_nat n + 1)%nat by lia.
  rewrite seq_app, fmap_app. cbn. do 2 f_equal. lia.
Qed.

Lemma fmap_upto_ext {A} (f g : Z -> A) n :
  (forall k, 0 <= k < n -> f k = g k) -> f <$> upto n = g <$> upto n.
Proof.
  intros Hfg. apply list_eq. intros i. rewrite !list_lookup_fmap.
  destruct (decide (i < Z.to_nat n)%nat) as [Hi|Hi].
  - rewrite lookup_upto by done. cbn. f_equal. apply Hfg. lia.
  - rewrite lookup_ge_None_2; [done|]. rewrite length_upto. lia.
Qed.

Lemma fmap_upto_app {A} (f : Z -> A) m n :
  0 <= m -> 0 <= n ->
  f <$> upto (m + n) = (f <$> upto m) ++ ((fun k => f (m + k)) <$> upto n).
Proof.
  intros Hm Hn. apply list_eq. intros i.
  rewrite lookup_app, !list_lookup_fmap.
  destruct (decide (i < Z.to_nat m)%nat) as [Hi|Hi].
  - rewrite !lookup_upto by lia. done.
  - rewrite (lookup_ge_None_2 (upto m)) by (rewrite length_upto; lia). cbn.
    rewrite length_fmap, length_upto.
    destruct (decide (i < Z.to_nat (m + n))%nat) as [Hj|Hj].
    + rewrite !lookup_upto by lia. cbn. do 2 f_equal. lia.
    + rewrite !lookup_ge_None_2; [done | rewrite length_upto; lia ..].
Qed.

Lemma take_fmap_upto {A} (f : Z -> A) m n :
  0 <= m <= n -> take (Z.to_nat m) (f <$> upto n) = f <$> upto m.
Proof.
  intros Hmn. replace n with (m + (n - m)) by lia.
  rewrite fmap_upto_app by lia.
  rewrite take_app_le by (rewrite length_fmap, length_upto; lia).
  rewrite firstn_all2; [done|]. rewrite length_fmap, length_upto. lia.
Qed.

Lemma drop_fmap_upto {A} (f : Z -> A) m n :
  0 <= m <= n ->
  drop (Z.to_nat m) (f <$> upto n) = (fun k => f (m + k)) <$> upto (n - m).
Proof.
  intros Hmn. replace n with (m + (n - m)) at 1 by lia.
  rewrite fmap_upto_app by lia.
  rewrite drop_app_length'; [done|]. rewrite length_fmap, length_upto. done.
Qed.

Lemma array_as_fmap_upto (l : list Z) n :
  0 <= n <= Z.of_nat (length l) -> take (Z.to_nat n) l = rdbyte l <$> upto n.
Proof.
  intros Hn. apply list_eq. intros i. rewrite list_lookup_fmap, lookup_take.
  case_decide as Hi.
  - rewrite lookup_upto by done. cbn. unfold rdbyte. rewrite Nat2Z.id.
    destruct (lookup_lt_is_Some_2 l i) as [x Hx]; [lia|]. by rewrite Hx.
  - rewrite lookup_ge_None_2; [done|]. rewrite length_upto. lia.
Qed.

Lemma rdbyte_drop (l : list Z) m j :
  0 <= m -> 0 <= j -> rdbyte (drop (Z.to_nat m) l) j = rdbyte l (m + j).
Proof.
  intros Hm Hj. unfold rdbyte. rewrite lookup_drop. do 2 f_equal. lia.
Qed.

Lemma rdbyte_take (l : list Z) n j :
  0 <= j < n -> rdbyte (take (Z.to_nat n) l) j = rdbyte l j.
Proof.
  intros Hj. unfold rdbyte. rewrite lookup_take_lt by lia. done.
Qed.
(** ** The serial transport *)

Module SerialFacts.
Import Serial.

(** Let [lia] see through division and remainder by constants. *)
#[local] Ltac Zify.zify_post_hook ::= Z.to_euclidean_division_equations.

Create Rewrite HintDb store.

(** *** The store *)

Lemma rd_wr_eq x v st : rd x (wr x v st) = v.
Proof. unfold rd, wr. cbn. by rewrite decide_True. Qed.

Lemma rd_wr_ne x y v st : x <> y -> rd x (wr y v st) = rd x st.
Proof. intros H. unfold rd, wr. cbn. by rewrite decide_False. Qed.

Lemma rd_call x e st : rd x (call e st) = rd x st.
Proof. reflexivity. Qed.
Lemma rd_transmit x c st : rd x (transmit c st) = rd x st.
Proof. reflexivity. Qed.
Lemma rd_set_buf x b l st : rd x (set_buf b l st) = rd x st.
Proof. by destruct b. Qed.

Lemma buf_of_wr b x v st : buf_of b (wr x v st) = buf_of b st.
Proof. by destruct b. Qed.
Lemma buf_of_call b e st : buf_of b (call e st) = buf_of b st.
Proof. by destruct b. Qed.
Lemma buf_of_transmit b c st : buf_of b (transmit c st) = buf_of b st.
Proof. by destruct b. Qed.
Lemma buf_of_set_buf_eq b l st : buf_of b (set_buf b l st) = l.
Proof. by destruct b. Qed.
Lemma buf_of_set_buf_ne b b' l st : b <> b' -> buf_of b (set_buf b' l st) = buf_of b st.
Proof. by destruct b, b'. Qed.

Lemma sent_wr x v st : sent (wr x v st) = sent st.
Proof. reflexivity. Qed.
Lemma sent_set_buf b l st : sent (set_buf b l st) = sent st.
Proof. by destruct b. Qed.
Lemma calls_wr x v st : calls (wr x v st) = calls st.
Proof. reflexivity. Qed.
Lemma calls_set_buf b l st : calls (set_buf b l st) = calls st.
Proof. by destruct b. Qed.

Lemma rx_buf_wr x v st : rx_buf (wr x v st) = rx_buf st.
Proof. reflexivity. Qed.
Lemma tx_buf_wr x v st : tx_buf (wr x v st) = tx_buf st.
Proof. reflexivity. Qed.
Lemma rx_buf_set_buf_rx l st : rx_buf (set_buf rx l st) = l.
Proof. reflexivity. Qed.
Lemma rx_buf_set_buf_tx l st : rx_buf (set_buf tx l st) = rx_buf st.
Proof. reflexivity. Qed.
Lemma tx_buf_set_buf_tx l st : tx_buf (set_buf tx l st) = l.
Proof. reflexivity. Qed.
Lemma tx_buf_set_buf_rx l st : tx_buf (set_buf rx l st) = tx_buf st.
Proof. reflexivity. Qed.

#[local] Hint Rewrite rx_buf_wr tx_buf_wr rx_buf_set_buf_rx rx_buf_set_buf_tx
  tx_buf_set_buf_tx tx_buf_set_buf_rx : store.
#[local] Hint Rewrite rd_wr_eq rd_call rd_transmit rd_set_buf
  buf_of_wr buf_of_call buf_of_transmit buf_of_set_buf_eq
  sent_wr sent_set_buf calls_wr calls_set_buf : store.
#[local] Hint Rewrite rd_wr_ne using discriminate : store.
#[local] Hint Rewrite buf_of_set_buf_ne using discriminate : store.

Ltac store := autorewrite with store in *.

(** *** Well-formed states *)

Lemma well_formed_ring st b : well_formed st = true -> ring_ok b st.
Proof.
  unfold well_formed, ring_ok. intros H.
  repeat (apply andb_prop in H; destruct H as [H ?]).
  destruct b; cbn [insert_of remove_of buf_of sizeof_buf]; lia.
Qed.

Lemma well_formed_counters st :
  well_formed st = true ->
  0 <= rd serial_rx_overflow st <= 65535
  /\ 0 <= rd serial_tx_overflow st <= 65535
  /\ 0 <= rd uboot_counter st < 80.
Proof.
  unfold well_formed. intros H.
  repeat (apply andb_prop in H; destruct H as [H ?]). lia.
Qed.

Lemma same_ring_refl b st : same_ring b st st.
Proof. by repeat split. Qed.

Lemma same_ring_trans b s1 s2 s3 :
  same_ring b s1 s2 -> same_ring b s2 s3 -> same_ring b s1 s3.
Proof. intros (?&?&?) (?&?&?). repeat split; congruence. Qed.

Lemma same_ring_sym b s1 s2 : same_ring b s1 s2 -> same_ring b s2 s1.
Proof. intros (?&?&?). by repeat split. Qed.

Lemma same_ring_ok b s1 s2 : same_ring b s1 s2 -> ring_ok b s2 -> ring_ok b s1.
Proof. unfold ring_ok. intros (->&->&->). done. Qed.

(** *** The FIFO macros on a well-formed ring *)

Ltac ring_cases b :=
  destruct b; cbn [insert_of remove_of buf_of sizeof_buf] in *;
  unfold RX_BUFF_MAX, TX_BUFF_MAX, uint16, uint8 in *.

Lemma BUF_USED_mod b st :
  ring_ok b st ->
  BUF_USED b st = (rd (insert_of b) st - rd (remove_of b) st) mod sizeof_buf b.
Proof.
  intros (Hi & Hr & _). unfold BUF_USED.
  ring_cases b; case_match; lia.
Qed.

Lemma BUF_USED_range b st : ring_ok b st -> 0 <= BUF_USED b st < sizeof_buf b.
Proof.
  intros H. rewrite BUF_USED_mod by done. apply Z.mod_pos_bound. by destruct b.
Qed.

Lemma BUF_FREE_used b st :
  ring_ok b st -> BUF_FREE b st = sizeof_buf b - BUF_USED b st.
Proof.
  intros (Hi & Hr & _). unfold BUF_FREE, BUF_USED.
  ring_cases b; case_match; lia.
Qed.

Lemma BUF_NEXT_INSERT_mod b st :
  ring_ok b st -> BUF_NEXT_INSERT b st = (rd (insert_of b) st + 1) mod sizeof_buf b.
Proof.
  intros (Hi & Hr & _). unfold BUF_NEXT_INSERT.
  ring_cases b; case_match; lia.
Qed.

Lemma BUF_NEXT_REMOVE_mod b st :
  ring_ok b st -> BUF_NEXT_REMOVE b st = (rd (remove_of b) st + 1) mod sizeof_buf b.
Proof.
  intros (Hi & Hr & _). unfold BUF_NEXT_REMOVE.
  ring_cases b; case_match; lia.
Qed.

Lemma BUF_NOT_FULL_used b st :
  ring_ok b st -> BUF_NOT_FULL b st = (BUF_USED b st <? sizeof_buf b - 1).
Proof.
  intros H. rewrite BUF_USED_mod by done. unfold BUF_NOT_FULL.
  rewrite BUF_NEXT_INSERT_mod by done. destruct H as (Hi & Hr & _).
  ring_cases b; lia.
Qed.

Lemma BUF_FULL_used b st :
  ring_ok b st -> BUF_FULL b st = (BUF_USED b st =? sizeof_buf b - 1).
Proof.
  intros H. rewrite BUF_USED_mod by done. unfold BUF_FULL.
  rewrite BUF_NEXT_INSERT_mod by done. destruct H as (Hi & Hr & _).
  ring_cases b; lia.
Qed.

Lemma BUF_NOT_EMPTY_used b st :
  ring_ok b st -> BUF_NOT_EMPTY b st = (0 <? BUF_USED b st).
Proof.
  intros H. rewrite BUF_USED_mod by done. unfold BUF_NOT_EMPTY.
  destruct H as (Hi & Hr & _). ring_cases b; lia.
Qed.

Lemma BUF_EMPTY_used b st :
  ring_ok b st -> BUF_EMPTY b st = (BUF_USED b st =? 0).
Proof.
  intros H. rewrite BUF_USED_mod by done. unfold BUF_EMPTY.
  destruct H as (Hi & Hr & _). ring_cases b; lia.
Qed.

(** A full ring is still reported as having one free byte. *)
Lemma BUF_FULL_free b st : ring_ok b st -> BUF_FULL b st = true -> BUF_FREE b st = 1.
Proof.
  intros H Hf. rewrite BUF_FREE_used by done. rewrite BUF_FULL_used in Hf by done. lia.
Qed.

(** *** The queue a ring holds *)

Lemma length_queued b st : ring_ok b st -> Z.of_nat (length (queued b st)) = BUF_USED b st.
Proof.
  intros H. unfold queued. rewrite length_fmap, length_upto.
  pose proof (BUF_USED_range b st H). lia.
Qed.

Lemma same_ring_used b s1 s2 : same_ring b s1 s2 -> BUF_USED b s1 = BUF_USED b s2.
Proof. intros (Hi & Hr & Hb). unfold BUF_USED. by rewrite Hi, Hr. Qed.

Lemma same_ring_queued b s1 s2 : same_ring b s1 s2 -> queued b s1 = queued b s2.
Proof.
  intros H. unfold queued. rewrite (same_ring_used b s1 s2 H).
  destruct H as (Hi & Hr & Hb). by rewrite Hr, Hb.
Qed.

Lemma same_ring_wr b x v st :
  x <> insert_of b -> x <> remove_of b -> same_ring b (wr x v st) st.
Proof.
  intros Hi Hr. unfold same_ring. rewrite !rd_wr_ne by done.
  by rewrite buf_of_wr.
Qed.

Lemma same_ring_call b e st : same_ring b (call e st) st.
Proof. unfold same_ring. by rewrite !rd_call, buf_of_call. Qed.

Lemma same_ring_transmit b c st : same_ring b (transmit c st) st.
Proof. unfold same_ring. by rewrite !rd_transmit, buf_of_transmit. Qed.

Lemma same_ring_set_buf b b' l st : b <> b' -> same_ring b (set_buf b' l st) st.
Proof. intros H. unfold same_ring. by rewrite !rd_set_buf, buf_of_set_buf_ne. Qed.

(** Pointers of one ring are not variables of the other. *)
Lemma insert_of_ne_remove_of b b' : insert_of b <> remove_of b'.
Proof. by destruct b, b'. Qed.

Lemma rd_BUF_INSERT_other x b c st :
  x <> insert_of b -> rd x (BUF_INSERT b c st) = rd x st.
Proof. intros H. unfold BUF_INSERT. by rewrite rd_wr_ne, rd_set_buf. Qed.

Lemma rd_BUF_INSERT_insert b c st :
  ring_ok b st ->
  rd (insert_of b) (BUF_INSERT b c st) = (rd (insert_of b) st + 1) mod sizeof_buf b.
Proof.
  intros H. unfold BUF_INSERT. rewrite rd_wr_eq.
  rewrite <- BUF_NEXT_INSERT_mod by done. unfold BUF_NEXT_INSERT. by rewrite !rd_set_buf.
Qed.

Lemma buf_of_BUF_INSERT b c st :
  buf_of b (BUF_INSERT b c st) = wrbyte (buf_of b st) (rd (insert_of b) st) c.
Proof. unfold BUF_INSERT. by rewrite buf_of_wr, buf_of_set_buf_eq. Qed.

Lemma same_ring_BUF_INSERT b b' c st : b <> b' -> same_ring b (BUF_INSERT b' c st) st.
Proof.
  intros H. unfold BUF_INSERT.
  eapply same_ring_trans; [apply same_ring_wr | by apply same_ring_set_buf];
    by destruct b, b'.
Qed.

Lemma BUF_INSERT_ok b c st : ring_ok b st -> ring_ok b (BUF_INSERT b c st).
Proof.
  intros H. pose proof H as (Hi & Hr & Hl). unfold ring_ok.
  rewrite rd_BUF_INSERT_insert by done.
  rewrite rd_BUF_INSERT_other by (symmetry; apply insert_of_ne_remove_of).
  rewrite buf_of_BUF_INSERT, length_wrbyte.
  ring_cases b; lia.
Qed.

Lemma BUF_USED_BUF_INSERT b c st :
  ring_ok b st -> BUF_NOT_FULL b st = true ->
  BUF_USED b (BUF_INSERT b c st) = BUF_USED b st + 1.
Proof.
  intros H Hnf. rewrite BUF_NOT_FULL_used in Hnf by done.
  rewrite (BUF_USED_mod b (BUF_INSERT b c st)) by (by apply BUF_INSERT_ok).
  rewrite BUF_USED_mod in * by done.
  rewrite rd_BUF_INSERT_insert by done.
  rewrite rd_BUF_INSERT_other by (symmetry; apply insert_of_ne_remove_of).
  destruct H as (Hi & Hr & Hl). ring_cases b; lia.
Qed.

(** [BUF_INSERT] on a ring that is not full appends to the queue. *)
Lemma queued_BUF_INSERT b c st :
  ring_ok b st -> BUF_NOT_FULL b st = true ->
  queued b (BUF_INSERT b c st) = queued b st ++ [c].
Proof.
  intros H Hnf. unfold queued.
  rewrite BUF_USED_BUF_INSERT by done.
  pose proof (BUF_USED_range b st H) as Hu.
  rewrite upto_succ, fmap_app by lia. cbn [fmap list_fmap].
  rewrite rd_BUF_INSERT_other by (symmetry; apply insert_of_ne_remove_of).
  rewrite buf_of_BUF_INSERT.
  rewrite BUF_USED_mod in * by done. destruct H as (Hi & Hr & Hl).
  f_equal.
  - apply fmap_upto_ext. intros k Hk.
    apply rdbyte_wrbyte_ne; ring_cases b; lia.
  - f_equal.
    replace ((rd (remove_of b) st
              + (rd (insert_of b) st - rd (remove_of b) st) mod sizeof_buf b)
             mod sizeof_buf b) with (rd (insert_of b) st) by (ring_cases b; lia).
    apply rdbyte_wrbyte_eq. lia.
Qed.

Lemma rd_BUF_REMOVE_other x b st :
  x <> remove_of b -> rd x (snd (BUF_REMOVE b st)) = rd x st.
Proof. intros H. unfold BUF_REMOVE. cbn [snd]. by rewrite rd_wr_ne. Qed.

Lemma rd_BUF_REMOVE_remove b st :
  ring_ok b st ->
  rd (remove_of b) (snd (BUF_REMOVE b st)) = (rd (remove_of b) st + 1) mod sizeof_buf b.
Proof.
  intros H. unfold BUF_REMOVE. cbn [snd]. rewrite rd_wr_eq.
  by apply BUF_NEXT_REMOVE_mod.
Qed.

Lemma buf_of_BUF_REMOVE b b' st : buf_of b (snd (BUF_REMOVE b' st)) = buf_of b st.
Proof. unfold BUF_REMOVE. cbn [snd]. by rewrite buf_of_wr. Qed.

Lemma same_ring_BUF_REMOVE b b' st : b <> b' -> same_ring b (snd (BUF_REMOVE b' st)) st.
Proof.
  intros H. unfold BUF_REMOVE. cbn [snd]. apply same_ring_wr; by destruct b, b'.
Qed.

Lemma BUF_REMOVE_ok b st : ring_ok b st -> ring_ok b (snd (BUF_REMOVE b st)).
Proof.
  intros H. pose proof H as (Hi & Hr & Hl). unfold ring_ok.
  rewrite rd_BUF_REMOVE_remove by done.
  rewrite rd_BUF_REMOVE_other by apply insert_of_ne_remove_of.
  rewrite buf_of_BUF_REMOVE. ring_cases b; lia.
Qed.

Lemma BUF_USED_BUF_REMOVE b st :
  ring_ok b st -> BUF_NOT_EMPTY b st = true ->
  BUF_USED b (snd (BUF_REMOVE b st)) = BUF_USED b st - 1.
Proof.
  intros H Hne. rewrite BUF_NOT_EMPTY_used in Hne by done.
  rewrite (BUF_USED_mod b (snd (BUF_REMOVE b st))) by (by apply BUF_REMOVE_ok).
  rewrite BUF_USED_mod in * by done.
  rewrite rd_BUF_REMOVE_remove by done.
  rewrite rd_BUF_REMOVE_other by apply insert_of_ne_remove_of.
  destruct H as (Hi & Hr & Hl). ring_cases b; lia.
Qed.

(** [BUF_REMOVE] on a ring that is not empty takes the queue's head. *)
Lemma queued_BUF_REMOVE b st :
  ring_ok b st -> BUF_NOT_EMPTY b st = true ->
  queued b st = fst (BUF_REMOVE b st) :: queued b (snd (BUF_REMOVE b st)).
Proof.
  intros H Hne. unfold queued.
  rewrite BUF_USED_BUF_REMOVE by done.
  rewrite BUF_NOT_EMPTY_used in Hne by done.
  pose proof (BUF_USED_range b st H) as Hu.
  replace (BUF_USED b st) with (1 + (BUF_USED b st - 1)) at 1 by lia.
  rewrite fmap_upto_app by lia.
  rewrite rd_BUF_REMOVE_remove, buf_of_BUF_REMOVE by done.
  destruct H as (Hi & Hr & Hl).
  change (upto 1) with [0]. cbn [fmap list_fmap app].
  f_equal.
  - unfold BUF_REMOVE. cbn [fst]. f_equal. ring_cases b; lia.
  - apply fmap_upto_ext. intros k Hk. f_equal. ring_cases b; lia.
Qed.

Lemma queued_empty b st : BUF_EMPTY b st = true -> queued b st = [].
Proof.
  unfold BUF_EMPTY, queued, BUF_USED. intros H%Z.eqb_eq. rewrite H.
  by rewrite Z.geb_leb, Z.leb_refl, Z.sub_diag.
Qed.

(** The drain loop of the [C] command leaves the ring empty: with both
    pointers inside the array it runs at most [BUF_USED] rounds, so
    [RX_BUFF_MAX] rounds always suffice. *)
Lemma drain_rx_used fuel st :
  ring_ok rx st -> BUF_USED rx st <= Z.of_nat fuel ->
  BUF_EMPTY rx (drain_rx fuel st) = true /\ ring_ok rx (drain_rx fuel st).
Proof.
  revert st. induction fuel as [|fuel IH]; intros st Hr Hu.
  - cbn [drain_rx]. split; [|done]. rewrite BUF_EMPTY_used by done.
    pose proof (BUF_USED_range rx st Hr). lia.
  - cbn [drain_rx]. destruct (BUF_NOT_EMPTY rx st) eqn:E.
    + apply IH; [by apply BUF_REMOVE_ok|].
      rewrite BUF_USED_BUF_REMOVE by done. lia.
    + split; [|done]. rewrite BUF_EMPTY_used by done.
      rewrite BUF_NOT_EMPTY_used in E by done.
      pose proof (BUF_USED_range rx st Hr). lia.
Qed.

Lemma drain_rx_empties st :
  ring_ok rx st -> queued rx (drain_rx (Z.to_nat RX_BUFF_MAX) st) = [].
Proof.
  intros Hr. apply queued_empty, drain_rx_used; [done|].
  pose proof (BUF_USED_range rx st Hr). cbn [sizeof_buf] in *. lia.
Qed.

(** *** Reading the receive ring *)

Lemma same_state_refl st : same_state st st.
Proof. by repeat split. Qed.

Lemma same_state_es0 st : same_state (wr ES0 (rd ES0 st) (wr ES0 0 st)) st.
Proof.
  repeat split; try reflexivity.
  intros x. destruct (decide (x = ES0)) as [->|Hx].
  - by rewrite rd_wr_eq.
  - by rewrite !rd_wr_ne.
Qed.

Lemma serial_read_available_used st :
  ring_ok rx st -> fst (serial_read_available st) = BUF_USED rx st.
Proof.
  intros H. unfold serial_read_available, es0_critical. cbn [fst].
  rewrite (same_ring_used rx (wr ES0 0 st) st) by (by apply same_ring_wr).
  pose proof (BUF_USED_range rx st H). unfold uint16, sizeof_buf, RX_BUFF_MAX in *. lia.
Qed.

Lemma serial_read_available_state st : same_state (snd (serial_read_available st)) st.
Proof. apply same_state_es0. Qed.

Lemma serial_write_space_free st :
  ring_ok tx st -> fst (serial_write_space st) = BUF_FREE tx st.
Proof.
  intros H. unfold serial_write_space, es0_critical. cbn [fst].
  assert (Hf : BUF_FREE tx (wr ES0 0 st) = BUF_FREE tx st) by reflexivity.
  rewrite Hf, BUF_FREE_used by done.
  pose proof (BUF_USED_range tx st H). unfold uint16, sizeof_buf, TX_BUFF_MAX in *. lia.
Qed.

Lemma serial_write_space_state st : same_state (snd (serial_write_space st)) st.
Proof. apply same_state_es0. Qed.

(** [serial_read] with at least one byte queued returns the oldest. *)
Lemma serial_read_head st :
  ring_ok rx st -> BUF_NOT_EMPTY rx st = true ->
  queued rx st = fst (serial_read st) :: queued rx (snd (serial_read st)).
Proof.
  intros H Hne. rewrite (queued_BUF_REMOVE rx st) by done.
  unfold serial_read, es0_critical.
  assert (Hne' : BUF_NOT_EMPTY rx (wr ES0 0 st) = true) by exact Hne.
  rewrite Hne'. destruct (BUF_REMOVE rx (wr ES0 0 st)) as [c st1] eqn:E.
  cbn [fst snd]. f_equal.
  - unfold BUF_REMOVE in *. by inversion E.
  - apply same_ring_queued.
    assert (E1 : st1 = snd (BUF_REMOVE rx (wr ES0 0 st))) by (by rewrite E).
    apply same_ring_sym.
    eapply same_ring_trans; [by apply same_ring_wr|].
    case_match.
    + eapply same_ring_trans; [by apply same_ring_wr|]. subst st1. by repeat split.
    + subst st1. by repeat split.
Qed.

(** C10: reading from an empty receive ring returns the byte value 0 and
    moves neither pointer; a ring whose oldest byte is a received 0
    returns the same value, and only the available-byte count (0 against
    a positive count) tells the two apart. *)
Theorem serial_read_empty_returns_zero st :
  BUF_EMPTY rx st = true ->
  (fst (serial_read st) = 0
   /\ rd rx_insert (snd (serial_read st)) = rd rx_insert st
   /\ rd rx_remove (snd (serial_read st)) = rd rx_remove st
   /\ fst (serial_read_available st) = 0)
  /\ (forall st', ring_ok rx st' -> head (queued rx st') = Some 0 ->
        fst (serial_read st') = 0 /\ 0 < fst (serial_read_available st')).
Proof.
  intros He. split.
  - unfold BUF_EMPTY in He. cbn [insert_of remove_of] in He. apply Z.eqb_eq in He.
    unfold serial_read, serial_read_available, es0_critical, BUF_NOT_EMPTY, BUF_USED.
    cbn [insert_of remove_of]. store. rewrite He, Z.eqb_refl. cbn [negb fst snd].
    repeat split.
    + case_match; by store.
    + case_match; by store.
    + rewrite Z.sub_diag, Z.geb_leb, Z.leb_refl. reflexivity.
  - intros st' Hr Hh.
    assert (Hne : BUF_NOT_EMPTY rx st' = true).
    { rewrite BUF_NOT_EMPTY_used by done. pose proof (length_queued rx st' Hr).
      destruct (queued rx st'); [done|]. cbn [length] in *. lia. }
    rewrite serial_read_available_used by done.
    split.
    + pose proof (serial_read_head st' Hr Hne) as Hq.
      rewrite Hq in Hh. cbn in Hh. by inversion Hh.
    + rewrite BUF_NOT_EMPTY_used in Hne by done. lia.
Qed.

Lemma serial_read_empty_returns_zero_witness :
  BUF_EMPTY rx power_on = true /\ fst (serial_read power_on) = 0.
Proof.
  split; [reflexivity|].
  exact (proj1 (proj1 (serial_read_empty_returns_zero power_on eq_refl))).
Defined.

(** *** [memcpy] *)

Lemma length_memcpy dst off src n : length (memcpy dst off src n) = length dst.
Proof. apply length_inserts. Qed.

Lemma rdbyte_memcpy dst off src n j :
  0 <= off -> 0 <= n <= Z.of_nat (length src) ->
  off + n <= Z.of_nat (length dst) -> 0 <= j ->
  rdbyte (memcpy dst off src n) j
  = if (off <=? j) && (j <? off + n) then rdbyte src (j - off) else rdbyte dst j.
Proof.
  intros Hoff Hn Hfit Hj. unfold rdbyte, memcpy.
  assert (Hlen : length (take (Z.to_nat n) src) = Z.to_nat n)
    by (rewrite length_take; lia).
  destruct (Z.leb_spec off j); cbn [andb].
  - destruct (Z.ltb_spec j (off + n)).
    + rewrite list_lookup_inserts by lia.
      rewrite lookup_take_lt by lia. do 2 f_equal. lia.
    + rewrite list_lookup_inserts_ge by lia. done.
  - rewrite list_lookup_inserts_lt by lia. done.
Qed.

(** *** Block read *)

Section read_buf.
Variables (st : state) (buf : list Z) (count : Z).
Hypothesis Hr : ring_ok rx st.
Hypothesis Hcount : 0 <= count <= 255.
Hypothesis Hbuf : count <= Z.of_nat (length buf).

Let rem := rd rx_remove st.

Lemma serial_read_buf_short :
  fst (serial_read_available st) < count ->
  exists st', serial_read_buf buf count st = (false, buf, st') /\ same_state st' st.
Proof.
  intros Hlt. unfold serial_read_buf.
  destruct (serial_read_available st) as [avail st0] eqn:E.
  assert (Hs : same_state st0 st).
  { replace st0 with (snd (serial_read_available st)) by (by rewrite E).
    apply serial_read_available_state. }
  cbn [fst] in Hlt. destruct (Z.gtb_spec count avail); [|lia].
  by exists st0.
Qed.

Lemma serial_read_buf_enough :
  count <= fst (serial_read_available st) ->
  exists buf' st',
    serial_read_buf buf count st = (true, buf', st')
    /\ rd rx_remove st' = (rem + count) mod RX_BUFF_MAX
    /\ rd rx_insert st' = rd rx_insert st
    /\ rx_buf st' = rx_buf st
    /\ length buf' = length buf
    /\ (forall j, 0 <= j ->
          rdbyte buf' j
          = if j <? count then rdbyte (rx_buf st) ((rem + j) mod RX_BUFF_MAX)
            else rdbyte buf j).
Proof.
  intros Hle.
  rewrite serial_read_available_used in Hle by done.
  pose proof (BUF_USED_range rx st Hr) as Hu.
  pose proof Hr as (Hi & Hrm & Hl). cbn [insert_of remove_of buf_of sizeof_buf] in *.
  unfold serial_read_buf, serial_read_available, es0_critical.
  assert (Hused : uint16 (BUF_USED rx (wr ES0 0 st)) = BUF_USED rx st).
  { change (BUF_USED rx (wr ES0 0 st)) with (BUF_USED rx st).
    unfold uint16, RX_BUFF_MAX in *. lia. }
  rewrite Hused. destruct (Z.gtb_spec count (BUF_USED rx st)); [lia|].
  store. fold rem. fold rem in Hrm.
  change (rx_buf (wr ES0 (rd ES0 st) (wr ES0 0 st))) with (rx_buf st).
  unfold RX_BUFF_MAX, uint16, uint8 in *.
  set (n1 := if count >? (256 - rem) mod 65536 then (256 - rem) mod 65536 else count).
  assert (Hn1 : n1 = Z.min count (256 - rem)) by (subst n1; case_match; lia).
  clearbody n1.
  assert (Hdrop : Z.of_nat (length (drop (Z.to_nat rem) (rx_buf st))) = 256 - rem)
    by (rewrite length_drop; lia).
  destruct (Z.gtb_spec ((count - n1) mod 256) 0) as [Hwrap|Hwrap];
    destruct (Z.geb_spec ((rem + n1) mod 65536) 256) as [Hge|Hge];
    try lia;
    (eexists _, _; split; [reflexivity|]);
    (split; [case_match; store; lia|]);
    (split; [case_match; by store|]);
    (split; [by case_match|]);
    (split; [by rewrite ?length_memcpy|]);
    intros j Hj.
  - change (rx_buf (wr _ _ (wr _ _ (wr _ _ _)))) with (rx_buf st).
    rewrite !rdbyte_memcpy by (rewrite ?length_memcpy; lia).
    destruct (Z.ltb_spec j count), (Z.leb_spec n1 j), (Z.ltb_spec j (n1 + (count - n1) mod 256)),
      (Z.leb_spec 0 j), (Z.ltb_spec j (0 + n1)); cbn [andb]; try lia.
    + f_equal. lia.
    + rewrite rdbyte_drop by lia. f_equal. lia.
  - rewrite !rdbyte_memcpy by (rewrite ?length_memcpy; lia).
    destruct (Z.ltb_spec j count), (Z.leb_spec 0 j), (Z.ltb_spec j (0 + n1));
      cbn [andb]; try lia; try done.
    rewrite rdbyte_drop by lia. f_equal. lia.
  - rewrite !rdbyte_memcpy by (rewrite ?length_memcpy; lia).
    destruct (Z.ltb_spec j count), (Z.leb_spec 0 j), (Z.ltb_spec j (0 + n1));
      cbn [andb]; try lia; try done.
    rewrite rdbyte_drop by lia. f_equal. lia.
Qed.

(** The bytes read are the oldest [count] of the queue, in order, and
    they are the ones removed. *)
Lemma serial_read_buf_fifo buf' st' :
  count <= fst (serial_read_available st) ->
  serial_read_buf buf count st = (true, buf', st') ->
  take (Z.to_nat count) buf' = take (Z.to_nat count) (queued rx st)
  /\ drop (Z.to_nat count) buf' = drop (Z.to_nat count) buf
  /\ queued rx st' = drop (Z.to_nat count) (queued rx st).
Proof.
  intros Hle Heq.
  destruct (serial_read_buf_enough Hle) as (b & s & Heq' & Hrem & Hins & Hrx & Hlen & Hcells).
  rewrite Heq in Heq'. inversion Heq'; subst b s. clear Heq'.
  rewrite serial_read_available_used in Hle by done.
  pose proof (BUF_USED_range rx st Hr) as Hu.
  assert (Hr' : ring_ok rx st').
  { destruct Hr as (Hi & Hrm & Hl). unfold ring_ok.
    cbn [insert_of remove_of buf_of sizeof_buf] in *.
    rewrite Hrem, Hins, Hrx. unfold RX_BUFF_MAX in *. lia. }
  assert (Hused' : BUF_USED rx st' = BUF_USED rx st - count).
  { rewrite !BUF_USED_mod in * by done. destruct Hr as (Hi & Hrm & Hl).
    cbn [insert_of remove_of buf_of sizeof_buf] in *.
    rewrite Hrem, Hins. fold rem. fold rem in Hrm. unfold RX_BUFF_MAX in *. lia. }
  split; [|split].
  - rewrite array_as_fmap_upto by lia. unfold queued.
    rewrite take_fmap_upto by lia. apply fmap_upto_ext. intros k Hk.
    rewrite Hcells by lia. destruct (Z.ltb_spec k count); [done | lia].
  - apply list_eq. intros i. rewrite !lookup_drop.
    specialize (Hcells (count + Z.of_nat i)). unfold rdbyte in Hcells.
    replace (Z.to_nat (count + Z.of_nat i)) with (Z.to_nat count + i)%nat in Hcells by lia.
    destruct (Z.ltb_spec (count + Z.of_nat i) count); [lia|].
    destruct (decide (Z.to_nat count + i < length buf)%nat) as [Hi|Hi].
    + destruct (lookup_lt_is_Some_2 buf' (Z.to_nat count + i)) as [x Hx]; [lia|].
      destruct (lookup_lt_is_Some_2 buf (Z.to_nat count + i)) as [y Hy]; [lia|].
      rewrite Hx, Hy in *. cbn in Hcells. f_equal. apply Hcells. lia.
    + rewrite !lookup_ge_None_2 by lia. done.
  - unfold queued. rewrite Hused', drop_fmap_upto by lia.
    apply fmap_upto_ext. intros k Hk. cbn [remove_of buf_of sizeof_buf].
    rewrite Hrem, Hrx. fold rem. f_equal.
    destruct Hr as (Hi & Hrm & Hl). cbn [remove_of] in Hrm. fold rem in Hrm.
    unfold RX_BUFF_MAX in *. lia.
Qed.
End read_buf.


(** C8: a block read is all or nothing.  With fewer than [count] bytes
    available it fails and leaves the caller's array and the whole state
    as they were; otherwise it succeeds, hands over the [count] oldest
    bytes in arrival order and removes exactly those from the queue,
    touching neither the insert pointer nor the ring array. *)
Theorem serial_read_buf_all_or_nothing st buf count :
  ring_ok rx st ->
  0 <= count <= 255 ->
  count <= Z.of_nat (length buf) ->
  let avail := fst (serial_read_available st) in
  let '(ok, buf', st') := serial_read_buf buf count st in
  avail = Z.of_nat (length (queued rx st))
  /\ (avail < count -> ok = false /\ buf' = buf /\ same_state st' st)
  /\ (count <= avail ->
      ok = true
      /\ take (Z.to_nat count) buf' = take (Z.to_nat count) (queued rx st)
      /\ drop (Z.to_nat count) buf' = drop (Z.to_nat count) buf
      /\ queued rx st' = drop (Z.to_nat count) (queued rx st)
      /\ rd rx_insert st' = rd rx_insert st
      /\ rx_buf st' = rx_buf st).
Proof.
  intros Hr Hcount Hbuf avail.
  assert (Havail : avail = Z.of_nat (length (queued rx st))).
  { subst avail. rewrite serial_read_available_used, length_queued by done. done. }
  destruct (Z.lt_ge_cases avail count) as [Hlt|Hge].
  - destruct (serial_read_buf_short st buf count Hlt) as (st' & -> & Hs).
    split; [done|]. split; [done | lia].
  - destruct (serial_read_buf_enough st buf count Hr Hcount Hbuf Hge)
      as (buf' & st' & Heq & _ & Hins & Hrx & _ & _).
    pose proof (serial_read_buf_fifo st buf count Hr Hcount Hbuf buf' st' Hge Heq)
      as (Ht & Hd & Hq).
    rewrite Heq. split; [done|]. split; [lia | done].
Qed.

Lemma serial_read_buf_all_or_nothing_witness :
  let st := wr rx_insert 2 (wr rx_remove 254 (set_buf rx (upto 256) power_on)) in
  ring_ok rx st
  /\ (let '(ok, buf', st') := serial_read_buf [9; 9; 9; 9; 9] 3 st in
      ok = true
      /\ take 3 buf' = take 3 (queued rx st)
      /\ queued rx st' = drop 3 (queued rx st)).
Proof.
  intros st.
  assert (Hr : ring_ok rx st) by (repeat split; vm_compute; (reflexivity || discriminate)).
  split; [exact Hr|].
  pose proof (serial_read_buf_all_or_nothing st [9; 9; 9; 9; 9] 3 Hr
                ltac:(lia) ltac:(cbn; lia)) as H.
  cbv zeta in H.
  destruct (serial_read_buf [9; 9; 9; 9; 9] 3 st) as [[ok buf'] st'].
  destruct H as (Hav & _ & Hok).
  assert (Hle : 3 <= fst (serial_read_available st)) by (vm_compute; discriminate).
  destruct (Hok Hle) as (H1 & H2 & _ & H4 & _).
  split; [exact H1|]. split; [exact H2 | exact H4].
Defined.

(** *** Writing the transmit ring *)

Lemma rd_serial_restart x st :
  x <> TI0 -> x <> tx_idle -> rd x (serial_restart st) = rd x st.
Proof. intros H1 H2. unfold serial_restart. case_match; [done|]. by rewrite !rd_wr_ne. Qed.

Lemma buf_of_serial_restart b st : buf_of b (serial_restart st) = buf_of b st.
Proof. unfold serial_restart. case_match; [done|]. by rewrite !buf_of_wr. Qed.

Lemma sent_serial_restart st : sent (serial_restart st) = sent st.
Proof. unfold serial_restart. by case_match. Qed.

Lemma calls_serial_restart st : calls (serial_restart st) = calls st.
Proof. unfold serial_restart. by case_match. Qed.

Lemma rd_saturating_inc_ne x c st : x <> c -> rd x (saturating_inc c st) = rd x st.
Proof. intros H. unfold saturating_inc. case_match; [|done]. by rewrite rd_wr_ne. Qed.

Lemma rd_saturating_inc_eq c st :
  0 <= rd c st <= 65535 -> rd c (saturating_inc c st) = Z.min 65535 (rd c st + 1).
Proof.
  intros H. unfold saturating_inc, uint16.
  destruct (Z.eqb_spec (rd c st) 65535); cbn [negb]; [lia|].
  rewrite rd_wr_eq. lia.
Qed.

Lemma buf_of_saturating_inc b c st : buf_of b (saturating_inc c st) = buf_of b st.
Proof. unfold saturating_inc. case_match; [|done]. by rewrite buf_of_wr. Qed.

Lemma sent_saturating_inc c st : sent (saturating_inc c st) = sent st.
Proof. unfold saturating_inc. by case_match. Qed.

Lemma calls_saturating_inc c st : calls (saturating_inc c st) = calls st.
Proof. unfold saturating_inc. by case_match. Qed.

#[local] Hint Rewrite buf_of_serial_restart sent_serial_restart calls_serial_restart
  buf_of_saturating_inc sent_saturating_inc calls_saturating_inc : store.
#[local] Hint Rewrite rd_serial_restart rd_saturating_inc_ne using discriminate : store.

(** The tail of every write: kick the transmitter if it is idle. *)
Lemma serial_restart_or_not st :
  let st' := if truthy (rd tx_idle st) then serial_restart st else st in
  (forall x, x <> TI0 -> x <> tx_idle -> rd x st' = rd x st)
  /\ (forall b, buf_of b st' = buf_of b st)
  /\ sent st' = sent st /\ calls st' = calls st.
Proof.
  cbv zeta. destruct (truthy (rd tx_idle st)); [|done].
  split; [intros; by apply rd_serial_restart|].
  split; [intros; by apply buf_of_serial_restart|].
  split; [apply sent_serial_restart | apply calls_serial_restart].
Qed.

Section write_buf.
Variables (st : state) (buf : list Z) (count : Z).
Hypothesis Hr : ring_ok tx st.
Hypothesis Hov : 0 <= rd serial_tx_overflow st <= 65535.
Hypothesis Hcount : 0 <= count <= 255.
Hypothesis Hbuf : count <= Z.of_nat (length buf).

Let ins := rd tx_insert st.
Let space := fst (serial_write_space st).
Let m := Z.min count space.
Let st' := serial_write_buf buf count st.

Lemma serial_write_buf_cells :
  rd tx_insert st' = (ins + m) mod TX_BUFF_MAX
  /\ rd tx_remove st' = rd tx_remove st
  /\ length (tx_buf st') = length (tx_buf st)
  /\ (forall j, 0 <= j < TX_BUFF_MAX ->
        rdbyte (tx_buf st') j
        = if (j - ins) mod TX_BUFF_MAX <? m then rdbyte buf ((j - ins) mod TX_BUFF_MAX)
          else rdbyte (tx_buf st) j)
  /\ rd serial_tx_overflow st'
     = (if count >? space then Z.min 65535 (rd serial_tx_overflow st + 1)
        else rd serial_tx_overflow st)
  /\ same_ring rx st' st /\ sent st' = sent st /\ calls st' = calls st.
Proof.
  pose proof (BUF_USED_range tx st Hr) as Hu.
  assert (Hspace : space = TX_BUFF_MAX - BUF_USED tx st).
  { subst space. rewrite serial_write_space_free, BUF_FREE_used by done. done. }
  pose proof Hr as (Hi & Hrm & Hl). cbn [insert_of remove_of buf_of sizeof_buf] in Hi, Hrm, Hl, Hu, Hspace.
  fold ins in Hi.
  subst st'. unfold serial_write_buf.
  destruct (Z.eqb_spec count 0) as [H0|H0].
  { subst m. replace (Z.min count space) with 0 by (unfold TX_BUFF_MAX in *; lia).
    rewrite Z.add_0_r. fold ins.
    repeat split; try done.
    - unfold TX_BUFF_MAX in *. lia.
    - intros j Hj. destruct (Z.ltb_spec ((j - ins) mod TX_BUFF_MAX) 0); [|done].
      unfold TX_BUFF_MAX in *. lia.
    - destruct (Z.gtb_spec count space); [|done]. unfold TX_BUFF_MAX in *. lia. }
  fold space.
  destruct (serial_write_space st) as [sp st0] eqn:E. cbn [fst] in space.
  assert (Hs : same_state st0 st).
  { replace st0 with (snd (serial_write_space st)) by (by rewrite E).
    apply serial_write_space_state. }
  destruct Hs as (Hregs & Hrx & Htx & Hsent & Hcalls).
  destruct (if count >? sp then _ else _) as [count0 st1] eqn:E1.
  assert (Hst1 : count0 = m
            /\ (forall x, x <> serial_tx_overflow -> rd x st1 = rd x st)
            /\ rx_buf st1 = rx_buf st /\ tx_buf st1 = tx_buf st
            /\ sent st1 = sent st /\ calls st1 = calls st
            /\ rd serial_tx_overflow st1
               = (if count >? sp then Z.min 65535 (rd serial_tx_overflow st + 1)
                  else rd serial_tx_overflow st)).
  { subst m space. destruct (Z.gtb_spec count sp); inversion E1; subst count0 st1.
    - split; [unfold uint8, TX_BUFF_MAX in *; lia|].
      split; [intros x Hx; by rewrite rd_saturating_inc_ne, Hregs|].
      rewrite rd_saturating_inc_eq by (by rewrite Hregs).
      unfold saturating_inc. rewrite Hregs. by case_match.
    - split; [lia|]. by rewrite Hregs. }
  destruct Hst1 as (-> & Hrd & Hrx1 & Htx1 & Hsent1 & Hcalls1 & Hov1).
  assert (Hm : 0 <= m <= 255 /\ m <= TX_BUFF_MAX - BUF_USED tx st /\ m <= count)
    by (subst m; lia).
  clearbody m. clear E E1 Hregs Hrx Htx Hsent Hcalls st0.
  rewrite (Hrd tx_insert) by done. fold ins.
  unfold TX_BUFF_MAX, uint16, uint8 in *.
  set (n1 := if m >? (512 - ins) mod 65536 then ((512 - ins) mod 65536) mod 256 else m).
  assert (Hn1 : n1 = Z.min m (512 - ins))
    by (subst n1; destruct (Z.gtb_spec m ((512 - ins) mod 65536)); lia).
  clearbody n1. store. rewrite ?(Hrd tx_insert), ?(Hrd tx_idle), ?Htx1 by done. fold ins.
  assert (Hdrop : Z.of_nat (length (drop (Z.to_nat n1) buf)) = Z.of_nat (length buf) - n1)
    by (rewrite length_drop; lia).
  destruct (Z.eqb_spec ((m - n1) mod 256) 0) as [Hrest|Hrest];
    destruct (Z.geb_spec ((ins + n1) mod 65536) 512) as [Hge|Hge];
    cbn [negb]; try lia;
    match goal with
    | |- context [if truthy (rd tx_idle ?X) then serial_restart ?X else ?X] =>
        set (core := X);
        pose proof (serial_restart_or_not core) as (Hfin & Hfinb & Hfins & Hfinc);
        generalize dependent (if truthy (rd tx_idle core) then serial_restart core else core)
    end;
    intros fin Hfin Hfinb Hfins Hfinc;
    pose proof (Hfinb tx) as Hfintx; pose proof (Hfinb rx) as Hfinrx;
    cbn [buf_of] in Hfintx, Hfinrx;
    unfold same_ring; cbn [insert_of remove_of buf_of];
    rewrite !Hfin, Hfintx, Hfinrx, Hfins, Hfinc by done;
    subst core; store;
    rewrite ?(Hrd tx_remove), ?(Hrd rx_insert), ?(Hrd rx_remove), ?length_memcpy by done.
  - (* wraps exactly to the start *)
    repeat split; try done; try lia.
    intros j Hj. rewrite rdbyte_memcpy by lia.
    destruct (Z.ltb_spec ((j - ins) mod 512) m), (Z.leb_spec ins j), (Z.ltb_spec j (ins + n1));
      cbn [andb]; try lia; try done.
    f_equal. lia.
  - (* fits before the end *)
    repeat split; try done; try lia.
    intros j Hj. rewrite rdbyte_memcpy by lia.
    destruct (Z.ltb_spec ((j - ins) mod 512) m), (Z.leb_spec ins j), (Z.ltb_spec j (ins + n1));
      cbn [andb]; try lia; try done.
    f_equal. lia.
  - (* split across the end *)
    repeat split; try done; try lia.
    intros j Hj. rewrite !rdbyte_memcpy by (rewrite ?length_memcpy; lia).
    destruct (Z.ltb_spec ((j - ins) mod 512) m), (Z.leb_spec ins j), (Z.ltb_spec j (ins + n1)),
      (Z.leb_spec 0 j), (Z.ltb_spec j (0 + (m - n1) mod 256));
      cbn [andb]; try lia; try done;
      rewrite ?rdbyte_drop by lia; f_equal; lia.
Qed.

(** When the block fits with room to spare it is appended to the queue. *)
Lemma serial_write_buf_appends :
  count < space -> queued tx st' = queued tx st ++ take (Z.to_nat count) buf.
Proof.
  intros Hfit.
  destruct serial_write_buf_cells as (Hins & Hrem & Hlen & Hcells & _).
  pose proof (BUF_USED_range tx st Hr) as Hu.
  assert (Hspace : space = TX_BUFF_MAX - BUF_USED tx st).
  { subst space. rewrite serial_write_space_free, BUF_FREE_used by done. done. }
  assert (Hmc : m = count) by (subst m; lia). rewrite Hmc in *. clear Hmc.
  assert (Hr' : ring_ok tx st').
  { destruct Hr as (Hi & Hrm & Hl). unfold ring_ok.
    cbn [insert_of remove_of buf_of sizeof_buf] in *.
    rewrite Hins, Hrem, Hlen. unfold TX_BUFF_MAX in *. lia. }
  assert (Hused' : BUF_USED tx st' = BUF_USED tx st + count).
  { rewrite !BUF_USED_mod in * by done. destruct Hr as (Hi & Hrm & Hl).
    cbn [insert_of remove_of buf_of sizeof_buf] in *.
    rewrite Hins, Hrem. fold ins in Hi |- *. unfold TX_BUFF_MAX in *. lia. }
  unfold queued. rewrite Hused', fmap_upto_app by lia.
  rewrite BUF_USED_mod in * by done. destruct Hr as (Hi & Hrm & Hl).
  cbn [insert_of remove_of buf_of sizeof_buf] in *. fold ins in Hi, Hu, Hspace, Hused' |- *.
  rewrite Hrem. f_equal.
  - apply fmap_upto_ext. intros k Hk. rewrite Hcells by (unfold TX_BUFF_MAX; lia).
    destruct (Z.ltb_spec (((rd tx_remove st + k) mod TX_BUFF_MAX - ins) mod TX_BUFF_MAX) count);
      [unfold TX_BUFF_MAX in *; lia | done].
  - rewrite array_as_fmap_upto by lia. apply fmap_upto_ext. intros k Hk.
    rewrite Hcells by (unfold TX_BUFF_MAX; lia).
    destruct (Z.ltb_spec
                (((rd tx_remove st + ((ins - rd tx_remove st) mod TX_BUFF_MAX + k))
                  mod TX_BUFF_MAX - ins) mod TX_BUFF_MAX) count);
      [f_equal | ]; unfold TX_BUFF_MAX in *; lia.
Qed.
End write_buf.

(** C6 (as the code has it): a block write never waits (it is a
    straight-line function of its input).  A block that fits into the
    free places of the ring, the capacity less the reserved place less
    the bytes queued, is accepted whole: it is appended to the queue in
    order and the overflow counter is left alone.  A call whose block is
    two or more bytes longer than that raises the saturating overflow
    counter by exactly one, whatever the number of bytes cut.  What is
    accepted of a block that does not fit, and the counter for a block
    one byte too long, are not part of the statement. *)
Theorem serial_write_buf_truncates_and_counts_once st buf count :
  ring_ok tx st ->
  0 <= rd serial_tx_overflow st <= 65535 ->
  0 <= count <= 255 ->
  count <= Z.of_nat (length buf) ->
  let free := TX_BUFF_MAX - 1 - BUF_USED tx st in
  let st' := serial_write_buf buf count st in
  (count <= free ->
     queued tx st' = queued tx st ++ take (Z.to_nat count) buf
     /\ rd serial_tx_overflow st' = rd serial_tx_overflow st)
  /\ (free + 2 <= count ->
     rd serial_tx_overflow st' = Z.min 65535 (rd serial_tx_overflow st + 1)).
Proof.
  intros Hr Hrange Hcount Hbuf free st'.
  destruct (serial_write_buf_cells st buf count Hr Hrange Hcount Hbuf)
    as (_ & _ & _ & _ & Hov & _).
  assert (Hsp : fst (serial_write_space st) = free + 1).
  { subst free. rewrite serial_write_space_free, BUF_FREE_used by done.
    cbn [sizeof_buf]. lia. }
  fold st' in Hov. rewrite Hsp in Hov. split.
  - intros Hfit. split.
    + apply (serial_write_buf_appends st buf count Hr Hrange Hcount Hbuf). lia.
    + rewrite Hov. destruct (Z.gtb_spec count (free + 1)); [lia | done].
  - intros Hcut. rewrite Hov. destruct (Z.gtb_spec count (free + 1)); [done | lia].
Qed.

Lemma serial_write_buf_truncates_and_counts_once_witness :
  (let st := BUF_INSERT tx 9 power_on in
   queued tx (serial_write_buf [1; 2] 2 st) = [9; 1; 2]
   /\ rd serial_tx_overflow (serial_write_buf [1; 2] 2 st) = 0)
  /\ (let st := wr tx_insert 510 power_on in
      rd serial_tx_overflow (serial_write_buf [1; 2; 3; 4; 5] 5 st) = 1).
Proof.
  split.
  - intros st.
    destruct (serial_write_buf_truncates_and_counts_once st [1; 2] 2
                ltac:(repeat split; vm_compute; (reflexivity || discriminate))
                ltac:(split; vm_compute; discriminate)
                ltac:(lia) ltac:(cbn; lia)) as [Hfit _].
    exact (Hfit ltac:(vm_compute; discriminate)).
  - intros st.
    destruct (serial_write_buf_truncates_and_counts_once st [1; 2; 3; 4; 5] 5
                ltac:(repeat split; vm_compute; (reflexivity || discriminate))
                ltac:(split; vm_compute; discriminate)
                ltac:(lia) ltac:(cbn; lia)) as [_ Hcut].
    exact (Hcut ltac:(vm_compute; discriminate)).
Defined.

(** C6, as stated, fails: with 510 bytes queued one place is free (and
    two are reported free); a block of five is cut, and the overflow
    counter goes from 0 to 1, not up by the four bytes that do not fit
    nor by the three beyond the reported space. *)
Lemma serial_write_buf_counts_calls_not_bytes :
  let st := wr tx_insert 510 power_on in
  let st' := serial_write_buf [1; 2; 3; 4; 5] 5 st in
  fst (serial_write_space st) = 2
  /\ BUF_USED tx st = 510
  /\ rd serial_tx_overflow st = 0
  /\ rd serial_tx_overflow st' = 1
  /\ rd serial_tx_overflow st' <> rd serial_tx_overflow st + (5 - 2)
  /\ rd serial_tx_overflow st' <> rd serial_tx_overflow st + (5 - 1).
Proof. repeat split; try reflexivity; vm_compute; discriminate. Qed.



(** *** Initialisation *)

Lemma rd_serial_device_set_speed x speed st :
  x <> TH1 -> x <> CKCON -> rd x (serial_device_set_speed speed st) = rd x st.
Proof.
  intros H1 H2. unfold serial_device_set_speed.
  destruct (default (0, 0, 0) _) as [[rate th1] ckcon].
  by rewrite rd_call, !rd_wr_ne.
Qed.

Lemma buf_of_serial_device_set_speed b speed st :
  buf_of b (serial_device_set_speed speed st) = buf_of b st.
Proof.
  unfold serial_device_set_speed.
  destruct (default (0, 0, 0) _) as [[rate th1] ckcon].
  by rewrite buf_of_call, !buf_of_wr.
Qed.

#[local] Hint Rewrite buf_of_serial_device_set_speed : store.
#[local] Hint Rewrite rd_serial_device_set_speed using discriminate : store.

(** An unsupported rate code selects the 57600 entry. *)
Lemma serial_device_set_speed_default speed st :
  serial_device_valid_speed speed = false ->
  rd TH1 (serial_device_set_speed speed st) = 43.
Proof.
  unfold serial_device_valid_speed, serial_device_set_speed.
  intros H. apply negb_false_iff in H. rewrite H. cbn. by store.
Qed.

(** C4: right after initialisation each ring is empty, [BUF_USED] is 0
    and [BUF_FREE] is the whole capacity, 256 and 512, not the capacity
    less the reserved slot. *)
Theorem buf_free_after_init_is_capacity speed st :
  let st' := serial_init speed st in
  (BUF_USED rx st' = 0 /\ BUF_FREE rx st' = RX_BUFF_MAX
   /\ BUF_FREE rx st' <> RX_BUFF_MAX - BUF_USED rx st' - 1)
  /\ (BUF_USED tx st' = 0 /\ BUF_FREE tx st' = TX_BUFF_MAX
      /\ BUF_FREE tx st' <> TX_BUFF_MAX - BUF_USED tx st' - 1).
Proof.
  cbv zeta. unfold BUF_USED, BUF_FREE, serial_init.
  cbn [insert_of remove_of sizeof_buf]. store. cbn. repeat split; discriminate.
Qed.

(** On every well-formed ring the two counts add up to the capacity. *)
Lemma BUF_USED_plus_BUF_FREE b st :
  ring_ok b st -> BUF_USED b st + BUF_FREE b st = sizeof_buf b.
Proof. intros H. rewrite BUF_FREE_used by done. lia. Qed.

(** C9 (as the code has it): initialisation empties both rings, marks
    the transmitter idle, releases the ready-to-receive line and leaves
    the UART interrupt enabled; the flow-control credit, the escape and
    flush flags, the silence flag and countdown, the banner detector and
    the overflow counters keep the values they had. *)
Theorem serial_init_resets_rings_only speed st :
  let st' := serial_init speed st in
  (rd rx_insert st' = 0 /\ rd rx_remove st' = 0
   /\ rd tx_insert st' = 0 /\ rd tx_remove st' = 0
   /\ queued rx st' = [] /\ queued tx st' = []
   /\ rd tx_idle st' = 1 /\ rd SERIAL_CTS st' = 0 /\ rd ES0 st' = 1)
  /\ (rd rts_count st' = rd rts_count st
      /\ rd last_was_bang st' = rd last_was_bang st
      /\ rd tx_buffered_data st' = rd tx_buffered_data st
      /\ rd uboot_silence_mode st' = rd uboot_silence_mode st
      /\ rd uboot_silence_counter st' = rd uboot_silence_counter st
      /\ rd uboot_counter st' = rd uboot_counter st
      /\ rd last_byte st' = rd last_byte st
      /\ rd serial_rx_overflow st' = rd serial_rx_overflow st
      /\ rd serial_tx_overflow st' = rd serial_tx_overflow st).
Proof.
  cbv zeta. split.
  - assert (H : rd rx_insert (serial_init speed st) = 0
                /\ rd rx_remove (serial_init speed st) = 0
                /\ rd tx_insert (serial_init speed st) = 0
                /\ rd tx_remove (serial_init speed st) = 0
                /\ rd tx_idle (serial_init speed st) = 1
                /\ rd SERIAL_CTS (serial_init speed st) = 0
                /\ rd ES0 (serial_init speed st) = 1).
    { unfold serial_init. store. done. }
    destruct H as (H1 & H2 & H3 & H4 & H5 & H6 & H7).
    assert (Hrx : queued rx (serial_init speed st) = []).
    { apply queued_empty. unfold BUF_EMPTY. cbn [insert_of remove_of]. by rewrite H1, H2. }
    assert (Htx : queued tx (serial_init speed st) = []).
    { apply queued_empty. unfold BUF_EMPTY. cbn [insert_of remove_of]. by rewrite H3, H4. }
    done.
  - unfold serial_init. store. done.
Qed.

(** C9, as stated, fails: initialisation from a state with the escape
    flag, the flush signal, a flow-control credit and silence mode set
    returns with all of them still set, none back at its start-up 0. *)
Lemma serial_init_keeps_flags :
  let st := wr uboot_silence_counter 2000 (wr uboot_silence_mode 1
              (wr rts_count 8 (wr tx_buffered_data 1 (wr last_was_bang 1 power_on)))) in
  let st' := serial_init 57 st in
  rd last_was_bang st' <> rd last_was_bang power_on
  /\ rd tx_buffered_data st' <> rd tx_buffered_data power_on
  /\ rd rts_count st' <> rd rts_count power_on
  /\ rd uboot_silence_mode st' <> rd uboot_silence_mode power_on
  /\ rd uboot_silence_counter st' <> rd uboot_silence_counter power_on.
Proof. cbv zeta. repeat split; vm_compute; discriminate. Qed.

(** *** The interrupt handler *)

Lemma rd_uboot_detect x c st :
  x <> uboot_counter -> x <> LED_BOOTLOADER -> x <> uboot_silence_counter ->
  x <> uboot_silence_mode -> x <> last_byte ->
  rd x (uboot_detect c st) = rd x st.
Proof.
  intros. unfold uboot_detect. repeat case_match; by rewrite !rd_wr_ne.
Qed.

Lemma buf_of_uboot_detect b c st : buf_of b (uboot_detect c st) = buf_of b st.
Proof. unfold uboot_detect. repeat case_match; by rewrite !buf_of_wr. Qed.

Lemma sent_uboot_detect c st : sent (uboot_detect c st) = sent st.
Proof. unfold uboot_detect. by repeat case_match. Qed.

Lemma calls_uboot_detect c st : calls (uboot_detect c st) = calls st.
Proof. unfold uboot_detect. by repeat case_match. Qed.

Lemma rd_pre_scan x c st :
  x <> RI0 -> x <> SBUF0 ->
  x <> uboot_counter -> x <> LED_BOOTLOADER -> x <> uboot_silence_counter ->
  x <> uboot_silence_mode -> x <> last_byte ->
  rd x (pre_scan c st) = rd x st.
Proof.
  intros. unfold pre_scan. rewrite rd_call, rd_uboot_detect by done. by rewrite !rd_wr_ne.
Qed.

Lemma buf_of_pre_scan b c st : buf_of b (pre_scan c st) = buf_of b st.
Proof. unfold pre_scan. by rewrite buf_of_call, buf_of_uboot_detect, !buf_of_wr. Qed.

Lemma sent_pre_scan c st : sent (pre_scan c st) = sent st.
Proof. unfold pre_scan. cbn [call sent]. by rewrite sent_uboot_detect. Qed.

Lemma calls_pre_scan c st : calls (pre_scan c st) = calls st ++ [at_plus_detector c].
Proof. unfold pre_scan. cbn [call calls]. by rewrite calls_uboot_detect. Qed.

Lemma rd_cts_low x st : x <> SERIAL_CTS -> rd x (cts_low st) = rd x st.
Proof. intros. unfold cts_low. case_match; [by rewrite rd_wr_ne | done]. Qed.

Lemma buf_of_cts_low b st : buf_of b (cts_low st) = buf_of b st.
Proof. unfold cts_low. case_match; [by rewrite buf_of_wr | done]. Qed.

Lemma sent_cts_low st : sent (cts_low st) = sent st.
Proof. unfold cts_low. by case_match. Qed.

Lemma calls_cts_low st : calls (cts_low st) = calls st.
Proof. unfold cts_low. by case_match. Qed.

#[local] Hint Rewrite buf_of_pre_scan sent_pre_scan calls_pre_scan
  buf_of_cts_low sent_cts_low calls_cts_low : store.
#[local] Hint Rewrite rd_pre_scan rd_cts_low using discriminate : store.

(** Outside AT mode a received byte goes through the detector, the
    escape scanner, the ready-to-receive update and the transmit branch. *)
Lemma receive_normal c st :
  rd at_mode_active st = 0 ->
  receive c st
  = match escape_scan c (pre_scan c st) with
    | None => None
    | Some s => Some (tx_after (cts_low s))
    end.
Proof.
  intros Hat. unfold receive, serial_interrupt, rx_branch.
  rewrite rd_wr_ne, rd_wr_eq by done. cbn [truthy Z.eqb negb].
  rewrite rd_wr_ne, rd_wr_eq by done.
  rewrite rd_uboot_detect, !rd_wr_ne, Hat by done. cbn [truthy Z.eqb negb].
  fold (pre_scan c st). by destruct (escape_scan c (pre_scan c st)).
Qed.

(** The same relation between rings written for whole states. *)
Lemma same_ring_of_frame b s s' :
  rd (insert_of b) s' = rd (insert_of b) s ->
  rd (remove_of b) s' = rd (remove_of b) s ->
  buf_of b s' = buf_of b s ->
  same_ring b s' s.
Proof. by repeat split. Qed.

Lemma outbound_same s s' : sent s' = sent s -> same_ring tx s' s -> outbound s' = outbound s.
Proof. intros Hs Hr. unfold outbound. by rewrite Hs, (same_ring_queued tx s' s Hr). Qed.

(** The transmit branch moves at most the oldest queued byte to the wire. *)
Lemma tx_branch_spec st :
  ring_ok tx st ->
  outbound (tx_branch st) = outbound st
  /\ ring_ok tx (tx_branch st)
  /\ BUF_USED tx (tx_branch st) <= BUF_USED tx st
  /\ same_ring rx (tx_branch st) st
  /\ calls (tx_branch st) = calls st
  /\ (forall x, x <> TI0 -> x <> rts_count -> x <> tx_idle -> x <> tx_remove ->
        rd x (tx_branch st) = rd x st).
Proof.
  intros Hr. unfold tx_branch.
  assert (Hr0 : ring_ok tx (wr TI0 0 st)) by (eapply same_ring_ok; [by apply same_ring_wr | done]).
  assert (Hidle : forall s, same_ring tx s st -> sent s = sent st -> same_ring rx s st ->
            calls s = calls st ->
            (forall x, x <> TI0 -> x <> rts_count -> x <> tx_idle -> x <> tx_remove ->
               rd x s = rd x st) ->
            outbound s = outbound st /\ ring_ok tx s /\ BUF_USED tx s <= BUF_USED tx st
            /\ same_ring rx s st /\ calls s = calls st
            /\ (forall x, x <> TI0 -> x <> rts_count -> x <> tx_idle -> x <> tx_remove ->
                  rd x s = rd x st)).
  { intros s Hs Hsent Hrx Hc Hx. split; [by apply outbound_same|].
    split; [by eapply same_ring_ok|]. rewrite (same_ring_used tx s st Hs). done. }
  destruct (BUF_NOT_EMPTY tx (wr TI0 0 st)) eqn:Hne.
  2:{ apply Hidle; try done. intros x ? ? ? ?. by rewrite !rd_wr_ne. }
  set (credit := if truthy (rd feature_rtscts (wr TI0 0 st)) then _ else _).
  assert (Hcredit : credit = None
            \/ exists sg, credit = Some sg /\ same_ring tx sg st /\ same_ring rx sg st
                 /\ sent sg = sent st /\ calls sg = calls st
                 /\ (forall x, x <> TI0 -> x <> rts_count -> rd x sg = rd x st)).
  { subst credit. repeat case_match; [by left | right .. ]; eexists; (split; [done|]).
    - repeat split; try done; try (by store). intros x ? ?. by rewrite !rd_wr_ne.
    - repeat split; try done; try (by store). intros x ? ?. by rewrite !rd_wr_ne.
    - repeat split; try done; try (by store). intros x ? ?. by rewrite !rd_wr_ne. }
  clearbody credit. destruct Hcredit as [-> | (sg & -> & Htx & Hrx & Hsent & Hcalls & Hx)].
  { apply Hidle; try done. intros x ? ? ? ?. by rewrite !rd_wr_ne. }
  assert (Hrg : ring_ok tx sg) by (by eapply same_ring_ok).
  assert (Hneg : BUF_NOT_EMPTY tx sg = true).
  { unfold BUF_NOT_EMPTY in *. destruct Htx as (-> & -> & _). revert Hne. by store. }
  pose proof (queued_BUF_REMOVE tx sg Hrg Hneg) as Hq.
  pose proof (BUF_USED_BUF_REMOVE tx sg Hrg Hneg) as Hu.
  pose proof (BUF_REMOVE_ok tx sg Hrg) as Hok.
  destruct (BUF_REMOVE tx sg) as [c s'] eqn:E. cbn [fst snd] in *.
  assert (Hs' : s' = wr tx_remove (BUF_NEXT_REMOVE tx sg) sg).
  { unfold BUF_REMOVE in E. by inversion E. }
  split; [|split; [|split; [|split; [|split]]]].
  - unfold outbound. cbn [transmit sent].
    rewrite (same_ring_queued tx (transmit c s') s') by apply same_ring_transmit.
    rewrite <- (same_ring_queued tx sg st Htx), Hq.
    rewrite Hs' at 1. cbn [sent wr]. rewrite Hsent, <- app_assoc. done.
  - eapply same_ring_ok; [apply same_ring_transmit | done].
  - rewrite (same_ring_used tx (transmit c s') s') by apply same_ring_transmit.
    rewrite Hu, (same_ring_used tx sg st Htx). lia.
  - eapply same_ring_trans; [apply same_ring_transmit|].
    eapply same_ring_trans; [|exact Hrx]. subst s'. by apply same_ring_wr.
  - subst s'. cbn [transmit calls wr]. done.
  - intros x ? ? ? ?. subst s'. rewrite rd_transmit, rd_wr_ne by done. by apply Hx.
Qed.

Lemma tx_after_spec st :
  ring_ok tx st ->
  outbound (tx_after st) = outbound st
  /\ ring_ok tx (tx_after st)
  /\ BUF_USED tx (tx_after st) <= BUF_USED tx st
  /\ same_ring rx (tx_after st) st
  /\ calls (tx_after st) = calls st
  /\ (forall x, x <> TI0 -> x <> rts_count -> x <> tx_idle -> x <> tx_remove ->
        rd x (tx_after st) = rd x st).
Proof.
  intros Hr. unfold tx_after. case_match; [by apply tx_branch_spec|].
  split; [done|]. split; [done|]. split; [lia|]. by repeat split.
Qed.

(** *** Queueing one byte *)

Lemma _serial_write_unfold c st :
  _serial_write c st
  = wr ES0 (rd ES0 st)
      (if BUF_NOT_FULL tx (wr ES0 0 st) then
         let s1 := BUF_INSERT tx c (wr ES0 0 st) in
         if truthy (rd tx_idle s1) then serial_restart s1 else s1
       else saturating_inc serial_tx_overflow (wr ES0 0 st)).
Proof. reflexivity. Qed.

Lemma _serial_write_spec c st :
  ring_ok tx st ->
  let s' := _serial_write c st in
  (if BUF_NOT_FULL tx st
   then queued tx s' = queued tx st ++ [c]
        /\ rd serial_tx_overflow s' = rd serial_tx_overflow st
   else queued tx s' = queued tx st)
  /\ ring_ok tx s' /\ same_ring rx s' st
  /\ sent s' = sent st /\ calls s' = calls st
  /\ (forall x, x <> tx_insert -> x <> tx_idle -> x <> TI0 -> x <> serial_tx_overflow ->
        x <> ES0 -> rd x s' = rd x st).
Proof.
  intros Hr. cbv zeta. rewrite _serial_write_unfold.
  set (s0 := wr ES0 0 st).
  assert (Hs0 : same_ring tx s0 st) by (by apply same_ring_wr).
  assert (Hr0 : ring_ok tx s0) by (by eapply same_ring_ok).
  assert (Hnf : BUF_NOT_FULL tx s0 = BUF_NOT_FULL tx st) by reflexivity.
  rewrite Hnf. destruct (BUF_NOT_FULL tx st) eqn:E.
  - cbv zeta. pose proof (serial_restart_or_not (BUF_INSERT tx c s0)) as (Hx & Hb & Hs & Hc).
    cbv zeta in Hx, Hb, Hs, Hc.
    set (s2 := if truthy _ then _ else _) in *. clearbody s2.
    assert (Htx : same_ring tx (wr ES0 (rd ES0 st) s2) (BUF_INSERT tx c s0)).
    { eapply same_ring_trans; [by apply same_ring_wr|].
      apply same_ring_of_frame; [by apply Hx | by apply Hx | apply Hb]. }
    split; [split|].
    + rewrite (same_ring_queued _ _ _ Htx), queued_BUF_INSERT by done.
      by rewrite (same_ring_queued _ _ _ Hs0).
    + rewrite rd_wr_ne, Hx, rd_BUF_INSERT_other by done. subst s0. by rewrite rd_wr_ne.
    + split; [eapply same_ring_ok; [exact Htx | by apply BUF_INSERT_ok]|].
      split.
      { eapply same_ring_trans; [by apply same_ring_wr|].
        eapply same_ring_trans;
          [apply same_ring_of_frame; [by apply Hx | by apply Hx | apply Hb]|].
        eapply same_ring_trans; [by apply same_ring_BUF_INSERT|]. subst s0.
        by apply same_ring_wr. }
      split; [by rewrite sent_wr, Hs; unfold BUF_INSERT; store|].
      split; [by rewrite calls_wr, Hc; unfold BUF_INSERT; store|].
      intros x ? ? ? ? ?. rewrite rd_wr_ne, Hx, rd_BUF_INSERT_other by done.
      subst s0. by rewrite rd_wr_ne.
  - assert (Htx : same_ring tx (wr ES0 (rd ES0 st) (saturating_inc serial_tx_overflow s0)) st).
    { apply same_ring_of_frame; subst s0; cbn [insert_of remove_of]; by store. }
    split; [by apply same_ring_queued|].
    split; [by eapply same_ring_ok|].
    split; [apply same_ring_of_frame; subst s0; cbn [insert_of remove_of]; by store|].
    split; [subst s0; by store|]. split; [subst s0; by store|].
    intros x ? ? ? ? ?. subst s0. by rewrite rd_wr_ne, rd_saturating_inc_ne, rd_wr_ne.
Qed.

Lemma rx_store_spec c st :
  ring_ok rx st ->
  let s' := rx_store c st in
  (if BUF_NOT_FULL rx st
   then queued rx s' = queued rx st ++ [c]
        /\ rd serial_rx_overflow s' = rd serial_rx_overflow st
   else queued rx s' = queued rx st
        /\ (0 <= rd serial_rx_overflow st <= 65535 ->
            rd serial_rx_overflow s' = Z.min 65535 (rd serial_rx_overflow st + 1)))
  /\ ring_ok rx s' /\ same_ring tx s' st
  /\ sent s' = sent st /\ calls s' = calls st
  /\ (forall x, x <> rx_insert -> x <> serial_rx_overflow -> rd x s' = rd x st).
Proof.
  intros Hr. cbv zeta. unfold rx_store. destruct (BUF_NOT_FULL rx st) eqn:E.
  - split; [split; [by apply queued_BUF_INSERT | by rewrite rd_BUF_INSERT_other]|].
    split; [by apply BUF_INSERT_ok|].
    split; [by apply same_ring_BUF_INSERT|].
    split; [unfold BUF_INSERT; by store|]. split; [unfold BUF_INSERT; by store|].
    intros x ? ?. by rewrite rd_BUF_INSERT_other.
  - assert (Hrx : same_ring rx (saturating_inc serial_rx_overflow st) st).
    { apply same_ring_of_frame; cbn [insert_of remove_of]; by store. }
    split; [split; [by apply same_ring_queued | apply rd_saturating_inc_eq]|].
    split; [by eapply same_ring_ok|].
    split; [apply same_ring_of_frame; cbn [insert_of remove_of]; by store|].
    split; [by store|]. split; [by store|].
    intros x ? ?. by rewrite rd_saturating_inc_ne.
Qed.

(** *** The escape scanner *)

Lemma rd_clear_silence x st :
  x <> LED_BOOTLOADER -> x <> uboot_silence_counter -> x <> uboot_silence_mode ->
  rd x (clear_silence st) = rd x st.
Proof. intros. unfold clear_silence. case_match; [by rewrite !rd_wr_ne | done]. Qed.

Lemma buf_of_clear_silence b st : buf_of b (clear_silence st) = buf_of b st.
Proof. unfold clear_silence. case_match; [by rewrite !buf_of_wr | done]. Qed.

Lemma sent_clear_silence st : sent (clear_silence st) = sent st.
Proof. unfold clear_silence. by case_match. Qed.

Lemma calls_clear_silence st : calls (clear_silence st) = calls st.
Proof. unfold clear_silence. by case_match. Qed.

Lemma clear_silence_off st : rd uboot_silence_mode (clear_silence st) = 0.
Proof.
  unfold clear_silence, truthy.
  destruct (Z.eqb_spec (rd uboot_silence_mode st) 0); cbn [negb]; [done|].
  by rewrite rd_wr_ne, rd_wr_ne, rd_wr_eq.
Qed.

#[local] Hint Rewrite buf_of_clear_silence sent_clear_silence calls_clear_silence : store.
#[local] Hint Rewrite rd_clear_silence using discriminate : store.

Lemma escape_scan_bang st :
  escape_scan (ch "!") st
  = Some (if truthy (rd last_was_bang st)
          then wr last_was_bang 0 (wr tx_buffered_data 1 (clear_silence st))
          else wr last_was_bang 1 (clear_silence st)).
Proof.
  unfold escape_scan. change (ch "!" =? ch "!") with true. cbv iota.
  fold (clear_silence st). by rewrite rd_clear_silence.
Qed.

Lemma escape_scan_dot st :
  truthy (rd last_was_bang st) = true ->
  escape_scan (ch ".") st = Some (rx_store (ch "!") (wr last_was_bang 0 st)).
Proof. intros H. unfold escape_scan. rewrite H. reflexivity. Qed.

Lemma escape_scan_unknown c st :
  is_command_code c = false ->
  truthy (rd last_was_bang st) = true ->
  escape_scan c st = Some (putchar_r (ch "E") (wr last_was_bang 0 st)).
Proof.
  intros Hc H.
  assert (H0 : (c =? ch "0") = false).
  { destruct (Z.eqb_spec c (ch "0")) as [->|Hne]; [discriminate Hc | done]. }
  unfold is_command_code, command_letters in Hc. cbn [existsb] in Hc.
  repeat match goal with
         | Hx : (_ || _) = false |- _ => apply orb_false_elim in Hx; destruct Hx
         end.
  unfold escape_scan. rewrite H.
  repeat match goal with
         | Hx : (c =? _) = false |- _ => rewrite Hx; clear Hx
         | Hx : (_ && _) = false |- _ => rewrite Hx; clear Hx
         end.
  reflexivity.
Qed.

Lemma escape_scan_data c st :
  c <> ch "!" ->
  truthy (rd last_was_bang st) = false ->
  escape_scan c st = Some (rx_store c st).
Proof.
  intros Hc H. unfold escape_scan. rewrite H.
  apply Z.eqb_neq in Hc. rewrite Hc. by rewrite !andb_false_r.
Qed.

Lemma same_ring_not_full b s s' : same_ring b s' s -> BUF_NOT_FULL b s' = BUF_NOT_FULL b s.
Proof.
  intros (Hi & Hr & _). unfold BUF_NOT_FULL, BUF_NEXT_INSERT. by rewrite Hi, Hr.
Qed.

Lemma seen_tx_after mid :
  ring_ok tx mid ->
  seen (tx_after mid) = seen mid
  /\ ring_ok tx (tx_after mid)
  /\ same_ring rx (tx_after mid) mid
  /\ BUF_USED tx (tx_after mid) <= BUF_USED tx mid.
Proof.
  intros Hr. destruct (tx_after_spec mid Hr) as (Ho & Hok & Hu & Hrx & Hc & Hx).
  split; [|done]. unfold seen.
  rewrite (same_ring_queued rx _ _ Hrx), Ho, Hc, !Hx by done. done.
Qed.

Section receive_normal.
Variable st : state.
Hypothesis Hrx : ring_ok rx st.
Hypothesis Htx : ring_ok tx st.
Hypothesis Hat : rd at_mode_active st = 0.

(** A [!]: nothing is queued or sent, silence mode ends, and the
    escape flag toggles, raising the flush signal on the way down. *)
Lemma receive_bang :
  exists s1,
    receive (ch "!") st = Some s1
    /\ seen s1
       = mkView (queued rx st) (outbound st)
           (if truthy (rd last_was_bang st) then 0 else 1)
           (if truthy (rd last_was_bang st) then 1 else rd tx_buffered_data st)
           0 (rd serial_rx_overflow st) (rd serial_tx_overflow st) 0
           (calls st ++ [at_plus_detector (ch "!")])
    /\ same_ring rx s1 st /\ ring_ok tx s1 /\ BUF_USED tx s1 <= BUF_USED tx st.
Proof.
  rewrite receive_normal, escape_scan_bang by done.
  rewrite rd_pre_scan by done.
  set (mid := cts_low _).
  assert (Hmtx : same_ring tx mid st).
  { subst mid. apply same_ring_of_frame; cbn [insert_of remove_of];
      destruct (truthy (rd last_was_bang st)); by store. }
  assert (Hmrx : same_ring rx mid st).
  { subst mid. apply same_ring_of_frame; cbn [insert_of remove_of];
      destruct (truthy (rd last_was_bang st)); by store. }
  assert (Hmid : ring_ok tx mid) by (by eapply same_ring_ok).
  destruct (seen_tx_after mid Hmid) as (Hseen & Hok & Hsrx & Hu).
  eexists. split; [reflexivity|]. rewrite Hseen.
  split; [|split; [by eapply same_ring_trans|split; [done|]]].
  - assert (Hout : outbound mid = outbound st).
    { apply outbound_same; [|done].
      subst mid. destruct (truthy (rd last_was_bang st)); by store. }
    unfold seen. rewrite (same_ring_queued rx _ _ Hmrx), Hout.
    subst mid. destruct (truthy (rd last_was_bang st)); store;
      rewrite ?rd_wr_ne, ?clear_silence_off, ?Hat by done; done.
  - by rewrite <- (same_ring_used tx mid st Hmtx).
Qed.

Hypothesis Hbang : truthy (rd last_was_bang st) = true.

(** [!] then [.]: one literal [!] is queued if the receive ring has
    room, and dropped with an overflow counted if it has not. *)
Lemma receive_dot :
  exists s2,
    receive (ch ".") st = Some s2
    /\ v_bang (seen s2) = 0 /\ v_flush (seen s2) = rd tx_buffered_data st
    /\ v_out (seen s2) = outbound st
    /\ v_calls (seen s2) = calls st ++ [at_plus_detector (ch ".")]
    /\ (if BUF_NOT_FULL rx st
        then v_rx (seen s2) = queued rx st ++ [ch "!"]
             /\ v_rx_overflow (seen s2) = rd serial_rx_overflow st
        else v_rx (seen s2) = queued rx st
             /\ (0 <= rd serial_rx_overflow st <= 65535 ->
                 v_rx_overflow (seen s2) = Z.min 65535 (rd serial_rx_overflow st + 1))).
Proof.
  rewrite receive_normal, escape_scan_dot by (by rewrite ?rd_pre_scan).
  set (x := wr last_was_bang 0 (pre_scan (ch ".") st)).
  assert (Hxrx : same_ring rx x st).
  { subst x. apply same_ring_of_frame; cbn [insert_of remove_of]; by store. }
  assert (Hxtx : same_ring tx x st).
  { subst x. apply same_ring_of_frame; cbn [insert_of remove_of]; by store. }
  destruct (rx_store_spec (ch "!") x (same_ring_ok _ _ _ Hxrx Hrx))
    as (Hq & Hok & Hstx & Hsent & Hcalls & Hfr).
  cbv zeta in Hq, Hok, Hstx, Hsent, Hcalls, Hfr.
  rewrite (same_ring_not_full rx st x Hxrx), (same_ring_queued rx x st Hxrx) in Hq.
  set (y := rx_store (ch "!") x) in *.
  assert (Hmid : ring_ok tx (cts_low y)).
  { eapply same_ring_ok; [|exact Htx].
    eapply same_ring_trans; [|eapply same_ring_trans; [exact Hstx | exact Hxtx]].
    apply same_ring_of_frame; cbn [insert_of remove_of]; by store. }
  destruct (seen_tx_after _ Hmid) as (Hseen & _).
  eexists. split; [reflexivity|]. rewrite Hseen. unfold seen.
  cbn [v_rx v_out v_bang v_flush v_at v_rx_overflow v_tx_overflow v_silence v_calls].
  rewrite !rd_cts_low by done.
  split; [rewrite Hfr by done; subst x; by rewrite rd_wr_eq|].
  split; [rewrite Hfr by done; subst x; by store|].
  split.
  { apply outbound_same; [store; rewrite Hsent; subst x; by store|].
    eapply same_ring_trans; [|eapply same_ring_trans; [exact Hstx | exact Hxtx]].
    apply same_ring_of_frame; cbn [insert_of remove_of]; by store. }
  split; [store; rewrite Hcalls; subst x; by store|].
  assert (Hqc : queued rx (cts_low y) = queued rx y).
  { apply same_ring_queued, same_ring_of_frame; cbn [insert_of remove_of]; by store. }
  rewrite Hqc.
  assert (Hov : rd serial_rx_overflow x = rd serial_rx_overflow st) by (subst x; by store).
  rewrite Hov in Hq. done.
Qed.

(** [!] then a byte that is no command code: nothing is queued for
    the packet layer, and one [E] joins the outbound stream if the
    transmit ring has room. *)
Lemma receive_unknown c :
  is_command_code c = false ->
  exists s2,
    receive c st = Some s2
    /\ v_bang (seen s2) = 0 /\ v_flush (seen s2) = rd tx_buffered_data st
    /\ v_rx (seen s2) = queued rx st
    /\ v_rx_overflow (seen s2) = rd serial_rx_overflow st
    /\ v_calls (seen s2) = calls st ++ [at_plus_detector c]
    /\ (if BUF_NOT_FULL tx st
        then v_out (seen s2) = outbound st ++ [ch "E"]
        else v_out (seen s2) = outbound st).
Proof.
  intros Hc.
  rewrite receive_normal, (escape_scan_unknown c) by (by rewrite ?rd_pre_scan).
  change (putchar_r (ch "E") ?s) with (_serial_write (ch "E") s).
  set (x := wr last_was_bang 0 (pre_scan c st)).
  assert (Hxrx : same_ring rx x st).
  { subst x. apply same_ring_of_frame; cbn [insert_of remove_of]; by store. }
  assert (Hxtx : same_ring tx x st).
  { subst x. apply same_ring_of_frame; cbn [insert_of remove_of]; by store. }
  destruct (_serial_write_spec (ch "E") x (same_ring_ok _ _ _ Hxtx Htx))
    as (Hq & Hok & Hsrx & Hsent & Hcalls & Hfr).
  cbv zeta in Hq, Hok, Hsrx, Hsent, Hcalls, Hfr.
  rewrite (same_ring_not_full tx st x Hxtx), (same_ring_queued tx x st Hxtx) in Hq.
  set (y := _serial_write (ch "E") x) in *.
  assert (Hytx : same_ring tx (cts_low y) y).
  { apply same_ring_of_frame; cbn [insert_of remove_of]; by store. }
  assert (Hmid : ring_ok tx (cts_low y)) by (by eapply same_ring_ok).
  destruct (seen_tx_after _ Hmid) as (Hseen & _).
  eexists. split; [reflexivity|]. rewrite Hseen. unfold seen.
  cbn [v_rx v_out v_bang v_flush v_at v_rx_overflow v_tx_overflow v_silence v_calls].
  rewrite !rd_cts_low by done.
  split; [rewrite Hfr by done; subst x; by rewrite rd_wr_eq|].
  split; [rewrite Hfr by done; subst x; by store|].
  split.
  { rewrite <- (same_ring_queued rx x st Hxrx). apply same_ring_queued.
    eapply same_ring_trans; [|exact Hsrx].
    apply same_ring_of_frame; cbn [insert_of remove_of]; by store. }
  split; [rewrite Hfr by done; subst x; by store|].
  split; [store; rewrite Hcalls; subst x; by store|].
  unfold outbound. rewrite (same_ring_queued tx _ _ Hytx), sent_cts_low, Hsent.
  assert (Hsx : sent x = sent st) by (subst x; by store). rewrite Hsx.
  destruct (BUF_NOT_FULL tx st).
  - destruct Hq as [-> _]. by rewrite app_assoc.
  - by rewrite Hq.
Qed.
End receive_normal.

(** C5 (as the code has it): outside AT mode and with the escape flag
    clear, [!!] queues nothing and raises the flush signal on the second
    byte only; [!.] queues one literal [!] when the receive ring has room
    (a full ring drops it and counts a receive overflow) and calls no
    command; [!] followed by a byte that is no command code queues
    nothing and, when the transmit ring has room, adds exactly one [E]
    to the outbound stream; each sequence ends with the escape flag
    clear. *)
Theorem escape_protocol st :
  ring_ok rx st -> ring_ok tx st ->
  0 <= rd serial_rx_overflow st <= 65535 ->
  rd at_mode_active st = 0 ->
  rd last_was_bang st = 0 ->
  (exists s1 s2,
      receive (ch "!") st = Some s1 /\ receive (ch "!") s1 = Some s2
      /\ queued rx s1 = queued rx st
      /\ rd tx_buffered_data s1 = rd tx_buffered_data st
      /\ queued rx s2 = queued rx st
      /\ rd tx_buffered_data s2 = 1
      /\ rd last_was_bang s2 = 0)
  /\ (exists s2,
      receive_all [ch "!"; ch "."] st = Some s2
      /\ rd last_was_bang s2 = 0
      /\ rd tx_buffered_data s2 = rd tx_buffered_data st
      /\ outbound s2 = outbound st
      /\ calls s2 = calls st ++ [at_plus_detector (ch "!"); at_plus_detector (ch ".")]
      /\ (if BUF_NOT_FULL rx st
          then queued rx s2 = queued rx st ++ [ch "!"]
               /\ rd serial_rx_overflow s2 = rd serial_rx_overflow st
          else queued rx s2 = queued rx st
               /\ rd serial_rx_overflow s2 = Z.min 65535 (rd serial_rx_overflow st + 1)))
  /\ (forall c, is_command_code c = false ->
      exists s2,
        receive_all [ch "!"; c] st = Some s2
        /\ rd last_was_bang s2 = 0
        /\ rd tx_buffered_data s2 = rd tx_buffered_data st
        /\ queued rx s2 = queued rx st
        /\ calls s2 = calls st ++ [at_plus_detector (ch "!"); at_plus_detector c]
        /\ (BUF_NOT_FULL tx st = true -> outbound s2 = outbound st ++ [ch "E"])).
Proof.
  intros Hrx Htx Hrov Hat Hbang.
  destruct (receive_bang st Htx Hat) as (s1 & Hs1 & Hseen1 & Hsrx1 & Htx1 & Hu1).
  assert (Hb0 : truthy (rd last_was_bang st) = false) by (by rewrite Hbang).
  rewrite Hb0 in Hseen1.
  pose proof (f_equal v_rx Hseen1) as Hq1.
  pose proof (f_equal v_out Hseen1) as Ho1.
  pose proof (f_equal v_bang Hseen1) as Hb1.
  pose proof (f_equal v_flush Hseen1) as Hf1.
  pose proof (f_equal v_at Hseen1) as Hat1.
  pose proof (f_equal v_rx_overflow Hseen1) as Hov1.
  pose proof (f_equal v_calls Hseen1) as Hc1.
  cbn in Hq1, Ho1, Hb1, Hf1, Hat1, Hov1, Hc1. clear Hseen1.
  assert (Hrx1 : ring_ok rx s1) by (by eapply same_ring_ok).
  assert (Hbt1 : truthy (rd last_was_bang s1) = true) by (by rewrite Hb1).
  split; [|split].
  - destruct (receive_bang s1 Htx1 Hat1) as (s2 & Hs2 & Hseen2 & _).
    rewrite Hbt1 in Hseen2.
    exists s1, s2. split; [done|]. split; [done|]. split; [done|]. split; [done|].
    pose proof (f_equal v_rx Hseen2) as Hq2.
    pose proof (f_equal v_bang Hseen2) as Hb2.
    pose proof (f_equal v_flush Hseen2) as Hf2.
    cbn in Hq2, Hb2, Hf2. by rewrite Hq2, Hq1.
  - destruct (receive_dot s1 Hrx1 Htx1 Hat1 Hbt1) as (s2 & Hs2 & Hb2 & Hf2 & Ho2 & Hc2 & Hq2).
    cbn in Hb2, Hf2, Ho2, Hc2, Hq2.
    exists s2. cbn [receive_all]. rewrite Hs1, Hs2.
    split; [done|]. split; [done|]. split; [congruence|]. split; [congruence|].
    split; [by rewrite Hc2, Hc1, <- app_assoc|].
    rewrite (same_ring_not_full rx st s1 Hsrx1), Hq1, Hov1 in Hq2.
    destruct (BUF_NOT_FULL rx st); [done|]. destruct Hq2 as [? Hov]. split; [done | by apply Hov].
  - intros c Hc.
    destruct (receive_unknown s1 Htx1 Hat1 Hbt1 c Hc)
      as (s2 & Hs2 & Hb2 & Hf2 & Hq2 & _ & Hc2 & Ho2).
    cbn in Hb2, Hf2, Hq2, Hc2, Ho2.
    exists s2. cbn [receive_all]. rewrite Hs1, Hs2.
    split; [done|]. split; [done|]. split; [congruence|]. split; [congruence|].
    split; [by rewrite Hc2, Hc1, <- app_assoc|].
    intros Hnf. rewrite BUF_NOT_FULL_used in Hnf by done.
    assert (Hnf1 : BUF_NOT_FULL tx s1 = true).
    { rewrite BUF_NOT_FULL_used by done. cbn [sizeof_buf] in *. lia. }
    rewrite Hnf1 in Ho2. by rewrite Ho2, Ho1.
Qed.

Lemma escape_protocol_witness :
  (ring_ok rx power_on /\ ring_ok tx power_on)
  /\ exists s2,
       receive_all [ch "!"; ch "."] power_on = Some s2
       /\ rd last_was_bang s2 = 0
       /\ queued rx s2 = [ch "!"].
Proof.
  assert (Hrx : ring_ok rx power_on)
    by (repeat split; vm_compute; (reflexivity || discriminate)).
  assert (Htx : ring_ok tx power_on)
    by (repeat split; vm_compute; (reflexivity || discriminate)).
  assert (Hov : 0 <= rd serial_rx_overflow power_on <= 65535)
    by (split; vm_compute; discriminate).
  split; [by split|].
  destruct (escape_protocol power_on Hrx Htx Hov eq_refl eq_refl)
    as (_ & (s2 & Hr & Hb & _ & _ & _ & Hq) & _).
  exists s2. split; [exact Hr|]. split; [exact Hb|]. exact (proj1 Hq).
Defined.

(** C5, as stated, fails: with the receive ring full and the escape
    flag clear, [!.] queues no byte at all; the literal is dropped and
    counted as a receive overflow. *)
Lemma escape_literal_dropped_when_rx_full :
  let st := wr rx_insert 255 power_on in
  rd last_was_bang st = 0
  /\ rd at_mode_active st = 0
  /\ BUF_FULL rx st = true
  /\ (fun s2 => (queued rx s2, rd serial_rx_overflow s2, rd last_was_bang s2))
       <$> receive_all [ch "!"; ch "."] st
     = Some (queued rx st, 1, 0).
Proof. cbv zeta. repeat split; vm_compute; reflexivity. Qed.

(** *** Silence mode *)

(** The single-byte write refuses while silence mode is on. *)
Lemma serial_write_silent c st :
  truthy (rd uboot_silence_mode st) = true -> serial_write c st = (false, st).
Proof. intros H. unfold serial_write. by rewrite H. Qed.

(** Outside AT mode, a received [!] ends silence mode at once. *)
Lemma receive_bang_clears_silence st :
  ring_ok tx st -> rd at_mode_active st = 0 ->
  exists s1, receive (ch "!") st = Some s1 /\ rd uboot_silence_mode s1 = 0.
Proof.
  intros Htx Hat.
  destruct (receive_bang st Htx Hat) as (s1 & Hs1 & Hseen & _).
  exists s1. split; [done|]. exact (f_equal v_silence Hseen).
Qed.

(** The detector counts bytes that continue the alternation from the
    byte before, and trips on the 80th such byte. *)
Lemma uboot_detect_step c st :
  (rd last_byte st = 134 /\ c = 152) \/ (rd last_byte st = 152 /\ c = 134) ->
  0 <= rd uboot_counter st < 80 ->
  let st' := uboot_detect c st in
  rd last_byte st' = c
  /\ (if rd uboot_counter st <? 79
      then rd uboot_counter st' = rd uboot_counter st + 1
           /\ rd uboot_silence_mode st' = rd uboot_silence_mode st
      else rd uboot_counter st' = 0
           /\ rd uboot_silence_mode st' = 1
           /\ rd uboot_silence_counter st' = 2000).
Proof.
  intros Hpat Hk. cbv zeta. unfold uboot_detect.
  assert (Hcond : (rd last_byte st =? 134) && (c =? 152)
                  || (rd last_byte st =? 152) && (c =? 134) = true).
  { destruct Hpat as [[-> ->] | [-> ->]]; reflexivity. }
  rewrite Hcond. cbv zeta. store. unfold uint8.
  destruct (Z.ltb_spec (rd uboot_counter st) 79);
    destruct ((rd uboot_counter st + 1) mod 256 >=? 80) eqn:E; try lia;
    store; repeat split; try done; lia.
Qed.


(** C7: with silence mode on, the single-byte write refuses but the
    block write still queues its byte; and from a cold start 80 banner
    bytes leave silence mode off (the count stands at 79), the 81st
    turns it on. *)
Theorem silence_mode_block_write_and_threshold :
  (let st := wr uboot_silence_mode 1 power_on in
   serial_write 65 st = (false, st)
   /\ queued tx (serial_write_buf [65] 1 st) = [65]
   /\ rd uboot_silence_mode (serial_write_buf [65] 1 st) = 1)
  /\ (fun s => (rd uboot_silence_mode s, rd uboot_counter s))
       <$> receive_all (banner 80) power_on
     = Some (0, 79)
  /\ (fun s => (rd uboot_silence_mode s, rd uboot_silence_counter s))
       <$> receive_all (banner 81) power_on
     = Some (1, 2000).
Proof.
  split; [|split].
  - cbv zeta. split; [by apply serial_write_silent|]. split; vm_compute; reflexivity.
  - vm_compute. reflexivity.
  - vm_compute. reflexivity.
Qed.

(** ** Further properties of the serial transport *)

(** *** The data path of the handler *)

Section receive_data.
Variable st : state.
Hypothesis Hrx : ring_ok rx st.
Hypothesis Htx : ring_ok tx st.
Hypothesis Hat : rd at_mode_active st = 0.
Hypothesis Hbang : rd last_was_bang st = 0.

(** One payload byte: queued at the tail if the ring has room, dropped
    and counted if it has not; the transmit side sees nothing of it. *)
Lemma receive_data c :
  c <> ch "!" ->
  exists s1,
    receive c st = Some s1
    /\ ring_ok rx s1 /\ ring_ok tx s1
    /\ rd at_mode_active s1 = 0 /\ rd last_was_bang s1 = 0
    /\ outbound s1 = outbound st
    /\ rd serial_tx_overflow s1 = rd serial_tx_overflow st
    /\ calls s1 = calls st ++ [at_plus_detector c]
    /\ (if BUF_NOT_FULL rx st
        then queued rx s1 = queued rx st ++ [c]
             /\ rd serial_rx_overflow s1 = rd serial_rx_overflow st
        else queued rx s1 = queued rx st
             /\ (0 <= rd serial_rx_overflow st <= 65535 ->
                 rd serial_rx_overflow s1 = Z.min 65535 (rd serial_rx_overflow st + 1))).
Proof.
  intros Hc.
  rewrite receive_normal, escape_scan_data by (by rewrite ?rd_pre_scan, ?Hbang).
  set (x := pre_scan c st).
  assert (Hxrx : same_ring rx x st).
  { subst x. apply same_ring_of_frame; cbn [insert_of remove_of]; by store. }
  assert (Hxtx : same_ring tx x st).
  { subst x. apply same_ring_of_frame; cbn [insert_of remove_of]; by store. }
  destruct (rx_store_spec c x (same_ring_ok _ _ _ Hxrx Hrx))
    as (Hq & Hok & Hstx & Hsent & Hcalls & Hfr).
  cbv zeta in Hq, Hok, Hstx, Hsent, Hcalls, Hfr.
  rewrite (same_ring_not_full rx st x Hxrx), (same_ring_queued rx x st Hxrx) in Hq.
  set (y := rx_store c x) in *.
  assert (Hytx : same_ring tx (cts_low y) st).
  { eapply same_ring_trans; [|eapply same_ring_trans; [exact Hstx | exact Hxtx]].
    apply same_ring_of_frame; cbn [insert_of remove_of]; by store. }
  assert (Hyrx : same_ring rx (cts_low y) y).
  { apply same_ring_of_frame; cbn [insert_of remove_of]; by store. }
  assert (Hmid : ring_ok tx (cts_low y)) by (by eapply same_ring_ok).
  destruct (tx_after_spec _ Hmid) as (Ho & Hoktx & _ & Hsrx & Hc' & Hx).
  eexists. split; [reflexivity|].
  split; [eapply same_ring_ok; [eapply same_ring_trans; [exact Hsrx | exact Hyrx] | done]|].
  split; [done|].
  rewrite !Hx, !rd_cts_low, !Hfr by done.
  split; [subst x; by store|]. split; [subst x; by store|].
  split.
  { rewrite Ho. apply outbound_same; [|done]. rewrite sent_cts_low, Hsent. subst x. by store. }
  split; [subst x; by store|].
  split; [rewrite Hc', calls_cts_low, Hcalls; subst x; by store|].
  rewrite (same_ring_queued rx _ _ Hsrx), (same_ring_queued rx _ _ Hyrx).
  assert (Hov : rd serial_rx_overflow x = rd serial_rx_overflow st) by (subst x; by store).
  rewrite Hov in Hq.
  destruct (BUF_NOT_FULL rx st); [done|].
  destruct Hq as [Hq1 Hq2]. split; [done|]. intros Hr. by apply Hq2.
Qed.
End receive_data.

(** A stream of payload bytes fills the ring in order and overflows once
    it is full. *)
Lemma receive_payload cs : forall st,
  Forall (fun c => c <> ch "!") cs ->
  ring_ok rx st -> ring_ok tx st ->
  rd at_mode_active st = 0 -> rd last_was_bang st = 0 ->
  0 <= rd serial_rx_overflow st <= 65535 ->
  let room := RX_BUFF_MAX - 1 - BUF_USED rx st in
  exists s',
    receive_all cs st = Some s'
    /\ queued rx s' = queued rx st ++ take (Z.to_nat room) cs
    /\ rd serial_rx_overflow s'
       = Z.min 65535 (rd serial_rx_overflow st + Z.max 0 (Z.of_nat (length cs) - room))
    /\ outbound s' = outbound st
    /\ rd last_was_bang s' = 0 /\ rd at_mode_active s' = 0
    /\ ring_ok rx s' /\ ring_ok tx s'.
Proof.
  induction cs as [|c cs IH]; intros st Hcs Hrx Htx Hat Hbang Hov room.
  - exists st. cbn [receive_all length]. rewrite take_nil, app_nil_r.
    pose proof (BUF_USED_range rx st Hrx) as Hu. subst room. cbn [sizeof_buf] in Hu.
    unfold RX_BUFF_MAX in *.
    split; [done|]. split; [done|]. split; [lia|]. done.
  - apply Forall_cons in Hcs as [Hc Hcs].
    destruct (receive_data st Hrx Htx Hat Hbang c Hc)
      as (s1 & Hs1 & Hrx1 & Htx1 & Hat1 & Hb1 & Ho1 & _ & _ & Hq1).
    pose proof (BUF_USED_range rx st Hrx) as Hu.
    pose proof (length_queued rx st Hrx) as Hl.
    pose proof (length_queued rx s1 Hrx1) as Hl1.
    rewrite BUF_NOT_FULL_used in Hq1 by done.
    cbn [sizeof_buf] in *. unfold RX_BUFF_MAX in *.
    destruct (Z.ltb_spec (BUF_USED rx st) (256 - 1)) as [Hroom|Hfull].
    + destruct Hq1 as [Hq1 Hov1].
      assert (Hu1 : BUF_USED rx s1 = BUF_USED rx st + 1).
      { rewrite Hq1, length_app in Hl1. cbn [length] in Hl1. lia. }
      destruct (IH s1 Hcs Hrx1 Htx1 Hat1 Hb1 ltac:(lia))
        as (s' & Hs' & Hq' & Hov' & Ho' & Hb' & Hat' & Hok').
      exists s'. cbn [receive_all]. rewrite Hs1.
      split; [done|]. split.
      { rewrite Hq', Hq1, <- app_assoc. f_equal. subst room.
        replace (Z.to_nat (256 - 1 - BUF_USED rx st))
          with (S (Z.to_nat (256 - 1 - BUF_USED rx s1))) by lia.
        done. }
      split; [rewrite Hov', Hov1; cbn [length]; subst room; lia|].
      split; [congruence | done].
    + destruct Hq1 as [Hq1 Hov1]. specialize (Hov1 Hov).
      assert (Hu1 : BUF_USED rx s1 = BUF_USED rx st).
      { rewrite Hq1 in Hl1. lia. }
      destruct (IH s1 Hcs Hrx1 Htx1 Hat1 Hb1 ltac:(lia))
        as (s' & Hs' & Hq' & Hov' & Ho' & Hb' & Hat' & Hok').
      exists s'. cbn [receive_all]. rewrite Hs1.
      split; [done|]. split.
      { rewrite Hq', Hq1. f_equal. subst room.
        replace (Z.to_nat (256 - 1 - BUF_USED rx s1)) with 0%nat by lia.
        replace (Z.to_nat (256 - 1 - BUF_USED rx st)) with 0%nat by lia.
        done. }
      split; [rewrite Hov', Hov1; cbn [length]; subst room; lia|].
      split; [congruence | done].
Qed.

(** X5: a stream of payload bytes (no [!] among them) arriving outside
    AT mode with the escape flag clear is queued in arrival order until
    the ring holds [RX_BUFF_MAX - 1] bytes; every byte after that is
    dropped and raises the saturating receive-overflow counter by one.
    The outbound stream is not touched. *)
Theorem receive_data_stream cs : forall st,
  Forall (fun c => c <> ch "!") cs ->
  ring_ok rx st -> ring_ok tx st ->
  rd at_mode_active st = 0 -> rd last_was_bang st = 0 ->
  0 <= rd serial_rx_overflow st <= 65535 ->
  let room := RX_BUFF_MAX - 1 - BUF_USED rx st in
  exists s',
    receive_all cs st = Some s'
    /\ queued rx s' = queued rx st ++ take (Z.to_nat room) cs
    /\ rd serial_rx_overflow s'
       = Z.min 65535 (rd serial_rx_overflow st + Z.max 0 (Z.of_nat (length cs) - room))
    /\ outbound s' = outbound st
    /\ rd last_was_bang s' = 0 /\ rd at_mode_active s' = 0
    /\ ring_ok rx s' /\ ring_ok tx s'.
Proof. exact (receive_payload cs). Qed.

(** Closed well-formedness side conditions, by evaluation. *)
Ltac ring_ok_now := repeat split; vm_compute; (reflexivity || discriminate).

Lemma receive_data_stream_witness :
  Forall (fun c => c <> ch "!") [ch "h"; ch "i"]
  /\ exists s',
       receive_all [ch "h"; ch "i"] power_on = Some s'
       /\ queued rx s' = [ch "h"; ch "i"].
Proof.
  assert (Hcs : Forall (fun c => c <> ch "!") [ch "h"; ch "i"])
    by (repeat constructor; discriminate).
  split; [exact Hcs|].
  destruct (receive_data_stream [ch "h"; ch "i"] power_on Hcs
              ltac:(ring_ok_now) ltac:(ring_ok_now) eq_refl eq_refl
              ltac:(split; vm_compute; discriminate))
    as (s' & Hs' & Hq' & _).
  exists s'. split; [exact Hs' | exact Hq'].
Defined.

(** X6: loop-back through the receive ring.  From an empty ring, up to
    255 payload bytes received by the handler are handed back by one
    block read, all of them and in the order they arrived, and the ring
    is empty again. *)
Theorem receive_then_read_buf cs st buf :
  Forall (fun c => c <> ch "!") cs ->
  ring_ok rx st -> ring_ok tx st ->
  rd at_mode_active st = 0 -> rd last_was_bang st = 0 ->
  0 <= rd serial_rx_overflow st <= 65535 ->
  BUF_EMPTY rx st = true ->
  Z.of_nat (length cs) <= 255 ->
  (length cs <= length buf)%nat ->
  exists s' buf' s'',
    receive_all cs st = Some s'
    /\ serial_read_buf buf (Z.of_nat (length cs)) s' = (true, buf', s'')
    /\ buf' = cs ++ drop (length cs) buf
    /\ queued rx s'' = [].
Proof.
  intros Hcs Hrx Htx Hat Hbang Hov He Hlen Hbuf.
  pose proof (queued_empty rx st He) as Hq0.
  rewrite BUF_EMPTY_used in He by done. apply Z.eqb_eq in He.
  destruct (receive_payload cs st Hcs Hrx Htx Hat Hbang Hov)
    as (s' & Hs' & Hq' & Hov' & _ & _ & _ & Hrx' & _).
  rewrite Hq0, He in Hq'. cbn [app] in Hq'.
  rewrite firstn_all2 in Hq' by (unfold RX_BUFF_MAX; lia).
  assert (Hav : Z.of_nat (length cs) <= fst (serial_read_available s')).
  { rewrite serial_read_available_used, <- length_queued, Hq' by done. lia. }
  destruct (serial_read_buf_enough s' buf (Z.of_nat (length cs)) Hrx'
              ltac:(lia) ltac:(lia) Hav)
    as (buf' & s'' & Heq & _ & _ & _ & _ & _).
  destruct (serial_read_buf_fifo s' buf (Z.of_nat (length cs)) Hrx'
              ltac:(lia) ltac:(lia) buf' s'' Hav Heq) as (Ht & Hd & Hq'').
  rewrite Nat2Z.id, Hq' in *.
  exists s', buf', s''. split; [done|]. split; [done|].
  split.
  { rewrite <- (take_drop (length cs) buf'), Ht, Hd.
    by rewrite firstn_all. }
  by rewrite Hq'', drop_all.
Qed.

Lemma receive_then_read_buf_witness :
  exists s' buf' s'',
    receive_all [ch "h"; ch "i"] power_on = Some s'
    /\ serial_read_buf [0; 0; 0] 2 s' = (true, buf', s'')
    /\ buf' = [ch "h"; ch "i"; 0].
Proof.
  destruct (receive_then_read_buf [ch "h"; ch "i"] power_on [0; 0; 0]
              ltac:(repeat constructor; discriminate)
              ltac:(ring_ok_now) ltac:(ring_ok_now) eq_refl eq_refl
              ltac:(split; vm_compute; discriminate) eq_refl
              ltac:(cbn; lia) ltac:(cbn; lia))
    as (s' & buf' & s'' & H1 & H2 & H3 & _).
  exists s', buf', s''. split; [exact H1|]. split; [exact H2 | exact H3].
Defined.

(** *** AT mode *)



(** *** Commands that act on the receive ring *)

Lemma serial_read_frame st :
  same_ring tx (snd (serial_read st)) st
  /\ sent (snd (serial_read st)) = sent st
  /\ calls (snd (serial_read st)) = calls st
  /\ buf_of rx (snd (serial_read st)) = buf_of rx st
  /\ (forall x, x <> rx_remove -> x <> SERIAL_CTS -> rd x (snd (serial_read st)) = rd x st).
Proof.
  assert (Hx : forall x, x <> rx_remove -> x <> SERIAL_CTS ->
            rd x (snd (serial_read st)) = rd x st).
  { intros x H1 H2. unfold serial_read, es0_critical, BUF_REMOVE.
    destruct (decide (x = ES0)) as [->|H3];
      repeat case_match; simplify_eq; cbn [snd remove_of];
      rewrite ?rd_wr_eq, ?rd_wr_ne by done; done. }
  assert (Hb : forall b, buf_of b (snd (serial_read st)) = buf_of b st).
  { intros b. unfold serial_read, es0_critical, BUF_REMOVE.
    repeat case_match; simplify_eq; cbn [snd]; by rewrite ?buf_of_wr. }
  split; [apply same_ring_of_frame; cbn [insert_of remove_of]; by rewrite ?Hx, ?Hb|].
  split; [unfold serial_read, es0_critical, BUF_REMOVE;
          repeat case_match; simplify_eq; cbn [snd]; by rewrite ?sent_wr|].
  split; [unfold serial_read, es0_critical, BUF_REMOVE;
          repeat case_match; simplify_eq; cbn [snd]; by rewrite ?calls_wr|].
  split; [apply Hb | exact Hx].
Qed.

Lemma serial_read_ok st : ring_ok rx st -> ring_ok rx (snd (serial_read st)).
Proof.
  intros Hr. destruct (BUF_NOT_EMPTY rx st) eqn:E.
  - pose proof (serial_read_head st Hr E) as Hq.
    destruct (serial_read_frame st) as (_ & _ & _ & Hb & Hx).
    destruct Hr as (Hi & Hrm & Hl).
    split; [by rewrite Hx|]. split; [|by rewrite Hb].
    unfold serial_read, es0_critical.
    assert (E' : BUF_NOT_EMPTY rx (wr ES0 0 st) = true) by exact E. rewrite E'.
    unfold BUF_REMOVE. cbn [remove_of snd].
    assert (Hn : 0 <= BUF_NEXT_REMOVE rx (wr ES0 0 st) < sizeof_buf rx).
    { unfold BUF_NEXT_REMOVE. cbn [remove_of]. rewrite rd_wr_ne by done.
      cbn [remove_of sizeof_buf] in *. unfold uint16, RX_BUFF_MAX in *.
      case_match; lia. }
    case_match; rewrite ?rd_wr_ne, rd_wr_eq by done; done.
  - destruct (serial_read_frame st) as (_ & _ & _ & Hb & Hx).
    destruct Hr as (Hi & Hrm & Hl).
    split; [by rewrite Hx|]. split; [|by rewrite Hb].
    unfold serial_read, es0_critical.
    assert (E' : BUF_NOT_EMPTY rx (wr ES0 0 st) = false) by exact E. rewrite E'.
    cbn [remove_of]. case_match; cbn [snd]; by rewrite !rd_wr_ne.
Qed.

Lemma BUF_EMPTY_queued b st :
  ring_ok b st -> BUF_EMPTY b st = match queued b st with [] => true | _ => false end.
Proof.
  intros Hr. pose proof (length_queued b st Hr) as Hl.
  destruct (BUF_EMPTY b st) eqn:E.
  - by rewrite queued_empty.
  - destruct (queued b st); [|done]. cbn [length] in Hl.
    assert (BUF_EMPTY b st = true) by (rewrite BUF_EMPTY_used by done; lia).
    congruence.
Qed.

Lemma BUF_NOT_EMPTY_negb b st : BUF_NOT_EMPTY b st = negb (BUF_EMPTY b st).
Proof. reflexivity. Qed.

Lemma drain_rx_frame fuel : forall st,
  same_ring tx (drain_rx fuel st) st
  /\ sent (drain_rx fuel st) = sent st
  /\ calls (drain_rx fuel st) = calls st
  /\ buf_of rx (drain_rx fuel st) = buf_of rx st
  /\ (forall x, x <> rx_remove -> rd x (drain_rx fuel st) = rd x st).
Proof.
  induction fuel as [|fuel IH]; intros st; cbn [drain_rx].
  - by repeat split.
  - case_match; [|by repeat split].
    destruct (IH (snd (BUF_REMOVE rx st))) as (Ht & Hs & Hc & Hb & Hx).
    split; [eapply same_ring_trans; [exact Ht | by apply same_ring_BUF_REMOVE]|].
    split; [by rewrite Hs|]. split; [by rewrite Hc|].
    split; [by rewrite Hb, buf_of_BUF_REMOVE|].
    intros x ?. rewrite Hx by done. by apply rd_BUF_REMOVE_other.
Qed.

(** A command byte whose branch returns: the ready-to-receive update
    and the transmit branch follow, and leave the receive ring, the
    outbound stream and the escape state as the branch left them. *)
Lemma receive_command c st s :
  rd at_mode_active st = 0 ->
  escape_scan c (pre_scan c st) = Some s ->
  ring_ok tx s ->
  exists s1,
    receive c st = Some s1
    /\ same_ring rx s1 s /\ outbound s1 = outbound s /\ calls s1 = calls s
    /\ ring_ok tx s1
    /\ (forall x, x <> TI0 -> x <> rts_count -> x <> tx_idle -> x <> tx_remove ->
          x <> SERIAL_CTS -> rd x s1 = rd x s).
Proof.
  intros Hat Hs Htx. rewrite receive_normal, Hs by done.
  assert (Hmtx : same_ring tx (cts_low s) s).
  { apply same_ring_of_frame; cbn [insert_of remove_of]; by store. }
  assert (Hmrx : same_ring rx (cts_low s) s).
  { apply same_ring_of_frame; cbn [insert_of remove_of]; by store. }
  destruct (tx_after_spec (cts_low s) (same_ring_ok _ _ _ Hmtx Htx))
    as (Ho & Hok & _ & Hsrx & Hc & Hx).
  eexists. split; [reflexivity|].
  split; [by eapply same_ring_trans|].
  split; [rewrite Ho; apply outbound_same; [by store | done]|].
  split; [rewrite Hc; by store|]. split; [done|].
  intros x ? ? ? ? ?. rewrite Hx by done. by apply rd_cts_low.
Qed.

Lemma pre_scan_same_ring b c st : same_ring b (pre_scan c st) st.
Proof. apply same_ring_of_frame; destruct b; cbn [insert_of remove_of]; by store. Qed.

(** The state in which the byte after a [!] reaches the scanner. *)
Lemma after_bang st :
  ring_ok rx st -> ring_ok tx st ->
  rd at_mode_active st = 0 -> rd last_was_bang st = 0 ->
  exists s1,
    receive (ch "!") st = Some s1
    /\ (forall c, same_ring rx (pre_scan c s1) st
                  /\ ring_ok tx (pre_scan c s1)
                  /\ outbound (pre_scan c s1) = outbound st
                  /\ truthy (rd last_was_bang (pre_scan c s1)) = true)
    /\ rd at_mode_active s1 = 0.
Proof.
  intros Hrx Htx Hat Hb.
  destruct (receive_bang st Htx Hat) as (s1 & H1 & Hseen & Hsrx & Hok & _).
  exists s1. split; [done|].
  apply (f_equal v_bang) in Hseen as Hvb. apply (f_equal v_out) in Hseen as Hvo.
  apply (f_equal v_at) in Hseen as Hva. cbn in Hvb, Hvo, Hva.
  rewrite Hb in Hvb. cbn in Hvb.
  split; [|done]. intros c.
  split; [eapply same_ring_trans; [apply pre_scan_same_ring | done]|].
  split; [eapply same_ring_ok; [apply pre_scan_same_ring | done]|].
  split; [rewrite <- Hvo; apply outbound_same; [by store | apply pre_scan_same_ring]|].
  rewrite rd_pre_scan by done. by rewrite Hvb.
Qed.

Lemma escape_scan_C st :
  truthy (rd last_was_bang st) = true ->
  escape_scan (ch "C") st = Some (drain_rx (Z.to_nat RX_BUFF_MAX) (wr last_was_bang 0 st)).
Proof. intros H. unfold escape_scan. rewrite H. reflexivity. Qed.

Lemma escape_scan_zero st :
  truthy (rd last_was_bang st) = true ->
  escape_scan (ch "0") st = Some (call (user_pin_command (ch "0")) (wr last_was_bang 0 st)).
Proof. intros H. unfold escape_scan. rewrite H. reflexivity. Qed.

(** X8: [!C] empties the receive ring by advancing the remove pointer up
    to the insert pointer; the insert pointer, the outbound stream and
    the cleared escape flag are what remains. *)
Theorem bang_C_empties_rx st :
  ring_ok rx st -> ring_ok tx st ->
  rd at_mode_active st = 0 -> rd last_was_bang st = 0 ->
  exists s',
    receive_all [ch "!"; ch "C"] st = Some s'
    /\ queued rx s' = []
    /\ rd rx_insert s' = rd rx_insert st
    /\ rd rx_remove s' = rd rx_insert st
    /\ rd last_was_bang s' = 0
    /\ outbound s' = outbound st.
Proof.
  intros Hrx Htx Hat Hb.
  destruct (after_bang st Hrx Htx Hat Hb) as (s1 & H1 & Hpre & Hat1).
  destruct (Hpre (ch "C")) as (Hprx & Hptx & Hpo & Hpb).
  set (p := pre_scan (ch "C") s1) in *.
  set (s := drain_rx (Z.to_nat RX_BUFF_MAX) (wr last_was_bang 0 p)).
  assert (Hp0 : ring_ok rx (wr last_was_bang 0 p)).
  { eapply same_ring_ok; [by apply same_ring_wr|]. by eapply same_ring_ok. }
  destruct (drain_rx_frame (Z.to_nat RX_BUFF_MAX) (wr last_was_bang 0 p))
    as (Hdt & Hds & Hdc & Hdb & Hdx). fold s in Hdt, Hds, Hdc, Hdb, Hdx.
  destruct (drain_rx_used (Z.to_nat RX_BUFF_MAX) (wr last_was_bang 0 p) Hp0) as [He Hok].
  { pose proof (BUF_USED_range rx _ Hp0). cbn [sizeof_buf] in *. lia. }
  fold s in He, Hok.
  assert (Hstx : same_ring tx s p).
  { eapply same_ring_trans; [exact Hdt | by apply same_ring_wr]. }
  destruct (receive_command (ch "C") s1 s Hat1 (escape_scan_C p Hpb))
    as (s2 & H2 & Hrx2 & Ho2 & _ & _ & Hx2); [by eapply same_ring_ok|].
  exists s2. split; [cbn [receive_all]; by rewrite H1, H2|].
  assert (Hins : rd rx_insert s = rd rx_insert st).
  { rewrite Hdx, rd_wr_ne by done. exact (proj1 Hprx). }
  split; [rewrite (same_ring_queued rx _ _ Hrx2); by apply queued_empty|].
  split; [etransitivity; [exact (proj1 Hrx2) | exact Hins]|].
  split.
  { etransitivity; [exact (proj1 (proj2 Hrx2))|].
    unfold BUF_EMPTY in He. apply Z.eqb_eq in He.
    cbn [insert_of remove_of] in *. by rewrite <- He. }
  split; [rewrite Hx2, Hdx by done; by rewrite rd_wr_eq|].
  rewrite Ho2, <- Hpo. apply outbound_same; [|done].
  by rewrite Hds, sent_wr.
Qed.

Lemma bang_C_empties_rx_witness :
  let st := BUF_INSERT rx 7 (BUF_INSERT rx 9 power_on) in
  exists s',
    receive_all [ch "!"; ch "C"] st = Some s'
    /\ queued rx s' = []
    /\ rd rx_insert s' = 2
    /\ rd rx_remove s' = 2.
Proof.
  intros st.
  destruct (bang_C_empties_rx st ltac:(ring_ok_now) ltac:(ring_ok_now) eq_refl eq_refl)
    as (s' & H1 & H2 & H3 & H4 & _).
  exists s'. split; [exact H1|]. split; [exact H2|]. split; [exact H3 | exact H4].
Defined.

(** X9: a [0] after [!] is taken by the digit range of the pin-command
    branch, which stands earlier in the chain than the branch that
    resets the receive pointers; the receive ring therefore keeps its
    pointers and its bytes. *)
Theorem bang_zero_keeps_rx st :
  ring_ok rx st -> ring_ok tx st ->
  rd at_mode_active st = 0 -> rd last_was_bang st = 0 ->
  exists s',
    receive_all [ch "!"; ch "0"] st = Some s'
    /\ queued rx s' = queued rx st
    /\ rd rx_insert s' = rd rx_insert st
    /\ rd rx_remove s' = rd rx_remove st
    /\ rd last_was_bang s' = 0
    /\ calls s' = calls st ++ [at_plus_detector (ch "!"); at_plus_detector (ch "0");
                               user_pin_command (ch "0")].
Proof.
  intros Hrx Htx Hat Hb.
  destruct (receive_bang st Htx Hat) as (sb & Hsb & Hseen & _).
  destruct (after_bang st Hrx Htx Hat Hb) as (s1 & H1 & Hpre & Hat1).
  assert (sb = s1) by congruence. subst sb.
  apply (f_equal v_calls) in Hseen as Hvc. cbn in Hvc.
  destruct (Hpre (ch "0")) as (Hprx & Hptx & Hpo & Hpb).
  set (p := pre_scan (ch "0") s1) in *.
  set (s := call (user_pin_command (ch "0")) (wr last_was_bang 0 p)).
  assert (Hsrx : same_ring rx s st).
  { eapply same_ring_trans; [|exact Hprx].
    eapply same_ring_trans; [apply same_ring_call | by apply same_ring_wr]. }
  assert (Hstx : ring_ok tx s).
  { eapply same_ring_ok; [|exact Hptx].
    eapply same_ring_trans; [apply same_ring_call | by apply same_ring_wr]. }
  destruct (receive_command (ch "0") s1 s Hat1 (escape_scan_zero p Hpb) Hstx)
    as (s2 & H2 & Hrx2 & _ & Hc2 & _ & Hx2).
  exists s2. split; [cbn [receive_all]; by rewrite H1, H2|].
  assert (Hall : same_ring rx s2 st) by (by eapply same_ring_trans).
  split; [by apply same_ring_queued|].
  split; [exact (proj1 Hall)|].
  split; [exact (proj1 (proj2 Hall))|].
  split; [rewrite Hx2 by done; subst s; by rewrite rd_call, rd_wr_eq|].
  rewrite Hc2. subst s p. cbn [call calls]. rewrite calls_wr, calls_pre_scan, Hvc.
  by rewrite <- !app_assoc.
Qed.

Lemma bang_zero_keeps_rx_witness :
  let st := BUF_INSERT rx 7 (BUF_INSERT rx 9 power_on) in
  exists s',
    receive_all [ch "!"; ch "0"] st = Some s'
    /\ queued rx s' = [9; 7]
    /\ rd rx_insert s' = 2.
Proof.
  intros st.
  destruct (bang_zero_keeps_rx st ltac:(ring_ok_now) ltac:(ring_ok_now) eq_refl eq_refl)
    as (s' & H1 & H2 & H3 & _).
  exists s'. split; [exact H1|]. split; [exact H2 | exact H3].
Defined.

Lemma escape_scan_B_unfold st :
  truthy (rd last_was_bang st) = true ->
  escape_scan (ch "B") st
  = let '(c, st) :=
      if BUF_EMPTY rx st then (1, st)
      else let '(r, st) := serial_read st in
           (if negb (r =? ch "u") then 1 else ch "B", st) in
    let '(c, st) :=
      if BUF_EMPTY rx st then (1, st)
      else let '(r, st) := serial_read st in
           (if negb (r =? ch "p") then 1 else c, st) in
    let c := if BUF_NOT_EMPTY rx st then 1 else c in
    let st := wr last_was_bang 0 st in
    if c =? ch "B" then None else Some st.
Proof. intros H. unfold escape_scan. rewrite H. reflexivity. Qed.

(** One [serial_read] inside the [B] branch, on a ring that is not empty. *)
Lemma serial_read_cons a q st :
  ring_ok rx st -> queued rx st = a :: q ->
  exists s1,
    serial_read st = (a, s1)
    /\ queued rx s1 = q /\ ring_ok rx s1
    /\ same_ring tx s1 st /\ sent s1 = sent st /\ calls s1 = calls st
    /\ (forall x, x <> rx_remove -> x <> SERIAL_CTS -> rd x s1 = rd x st).
Proof.
  intros Hr Hq.
  assert (Hne : BUF_NOT_EMPTY rx st = true).
  { by rewrite BUF_NOT_EMPTY_negb, BUF_EMPTY_queued, Hq. }
  pose proof (serial_read_head st Hr Hne) as Hh.
  pose proof (serial_read_ok st Hr) as Hok.
  destruct (serial_read_frame st) as (Ht & Hs & Hc & _ & Hx).
  destruct (serial_read st) as [r s1]. cbn [fst snd] in *.
  rewrite Hq in Hh. simplify_eq. by exists s1.
Qed.

(** The [B] branch resets the chip exactly when the receive ring holds
    the two bytes [up] and nothing else; otherwise it consumes up to two
    queued bytes and returns. *)
Lemma escape_scan_B st :
  ring_ok rx st -> truthy (rd last_was_bang st) = true ->
  (queued rx st = [ch "u"; ch "p"] /\ escape_scan (ch "B") st = None)
  \/ (queued rx st <> [ch "u"; ch "p"]
      /\ exists s,
           escape_scan (ch "B") st = Some s
           /\ queued rx s = drop 2 (queued rx st)
           /\ rd last_was_bang s = 0
           /\ same_ring tx s st /\ sent s = sent st).
Proof.
  intros Hr Hb. rewrite escape_scan_B_unfold by done.
  assert (Hfin : forall s c, ring_ok rx s -> same_ring tx s st -> sent s = sent st ->
            c <> ch "B" ->
            exists s', (if c =? ch "B" then None else Some (wr last_was_bang 0 s)) = Some s'
              /\ queued rx s' = queued rx s /\ rd last_was_bang s' = 0
              /\ same_ring tx s' st /\ sent s' = sent st).
  { intros s c Hs Ht Hse Hc. apply Z.eqb_neq in Hc. rewrite Hc.
    eexists. split; [reflexivity|].
    split; [apply same_ring_queued; by apply same_ring_wr|].
    split; [by rewrite rd_wr_eq|].
    split; [eapply same_ring_trans; [by apply same_ring_wr | done]|].
    by rewrite sent_wr. }
  destruct (queued rx st) as [|a q1] eqn:Eq.
  { right. split; [done|].
    rewrite BUF_EMPTY_queued, Eq by done. cbv beta iota zeta.
    rewrite BUF_EMPTY_queued, Eq by done. cbv beta iota zeta.
    rewrite BUF_NOT_EMPTY_negb, BUF_EMPTY_queued, Eq by done. cbn [negb].
    destruct (Hfin st 1 Hr (same_ring_refl _ _) eq_refl ltac:(done)) as (s' & E & Hq & H).
    exists s'. split; [exact E|]. split; [by rewrite Hq, Eq | exact H]. }
  destruct (serial_read_cons a q1 st Hr Eq) as (s1 & E1 & Hq1 & Hr1 & Ht1 & Hs1 & _).
  rewrite BUF_EMPTY_queued, Eq, E1 by done. cbv beta iota zeta.
  destruct q1 as [|b q2].
  { right. split; [done|].
    rewrite BUF_EMPTY_queued, Hq1 by done. cbv beta iota zeta.
    rewrite BUF_NOT_EMPTY_negb, BUF_EMPTY_queued, Hq1 by done. cbn [negb].
    destruct (Hfin s1 1 Hr1 Ht1 Hs1 ltac:(done)) as (s' & E & Hq & H).
    exists s'. split; [exact E|]. split; [by rewrite Hq, Hq1 | exact H]. }
  destruct (serial_read_cons b q2 s1 Hr1 Hq1) as (s2 & E2 & Hq2 & Hr2 & Ht2 & Hs2 & _).
  rewrite BUF_EMPTY_queued, Hq1, E2 by done. cbv beta iota zeta.
  rewrite BUF_NOT_EMPTY_negb, BUF_EMPTY_queued, Hq2 by done.
  assert (Ht : same_ring tx s2 st) by (by eapply same_ring_trans).
  assert (Hs : sent s2 = sent st) by congruence.
  destruct q2 as [|d q3].
  - cbn [negb]. destruct (Z.eqb_spec b (ch "p")) as [->|Hnb]; cbn [negb].
    + destruct (Z.eqb_spec a (ch "u")) as [->|Hna]; cbn [negb].
      * left. by split.
      * right. split; [congruence|].
        destruct (Hfin s2 1 Hr2 Ht Hs ltac:(done)) as (s' & E & Hq & H).
        exists s'. split; [exact E|]. split; [by rewrite Hq, Hq2 | exact H].
    + right. split; [congruence|].
      destruct (Hfin s2 1 Hr2 Ht Hs ltac:(done)) as (s' & E & Hq & H).
      exists s'. split; [exact E|]. split; [by rewrite Hq, Hq2 | exact H].
  - cbn [negb]. right. split; [done|].
    destruct (Hfin s2 1 Hr2 Ht Hs ltac:(done)) as (s' & E & Hq & H).
    exists s'. split; [exact E|]. split; [by rewrite Hq, Hq2 | exact H].
Qed.

(** X10: [!B] resets the chip exactly when the receive ring holds the two
    bytes [up] and nothing else.  In every other case the handler
    returns, having taken up to two bytes off the front of the receive
    ring, with the escape flag cleared and the outbound stream as it
    was. *)
Theorem bang_B_resets_iff_up st :
  ring_ok rx st -> ring_ok tx st ->
  rd at_mode_active st = 0 -> rd last_was_bang st = 0 ->
  (queued rx st = [ch "u"; ch "p"] /\ receive_all [ch "!"; ch "B"] st = None)
  \/ (queued rx st <> [ch "u"; ch "p"]
      /\ exists s',
           receive_all [ch "!"; ch "B"] st = Some s'
           /\ queued rx s' = drop 2 (queued rx st)
           /\ rd last_was_bang s' = 0
           /\ outbound s' = outbound st).
Proof.
  intros Hrx Htx Hat Hb.
  destruct (after_bang st Hrx Htx Hat Hb) as (s1 & H1 & Hpre & Hat1).
  destruct (Hpre (ch "B")) as (Hprx & Hptx & Hpo & Hpb).
  set (p := pre_scan (ch "B") s1) in *.
  assert (Hpr : ring_ok rx p) by (by eapply same_ring_ok).
  rewrite <- (same_ring_queued rx p st Hprx).
  destruct (escape_scan_B p Hpr Hpb) as [[Hq E] | (Hq & s & E & Hqs & Hbs & Hts & Hss)].
  - left. split; [done|]. cbn [receive_all]. rewrite H1.
    rewrite receive_normal by done. fold p. by rewrite E.
  - right. split; [done|].
    destruct (receive_command (ch "B") s1 s Hat1 E)
      as (s2 & H2 & Hrx2 & Ho2 & _ & _ & Hx2); [by eapply same_ring_ok|].
    exists s2. split; [cbn [receive_all]; by rewrite H1, H2|].
    split; [by rewrite (same_ring_queued rx _ _ Hrx2)|].
    split; [by rewrite Hx2|].
    rewrite Ho2, <- Hpo. by apply outbound_same.
Qed.

Lemma bang_B_resets_iff_up_witness :
  receive_all [ch "!"; ch "B"] (BUF_INSERT rx (ch "p") (BUF_INSERT rx (ch "u") power_on)) = None
  /\ exists s',
       receive_all [ch "!"; ch "B"] (BUF_INSERT rx (ch "p") power_on) = Some s'
       /\ queued rx s' = [].
Proof.
  split.
  - destruct (bang_B_resets_iff_up (BUF_INSERT rx (ch "p") (BUF_INSERT rx (ch "u") power_on))
                ltac:(ring_ok_now) ltac:(ring_ok_now) eq_refl eq_refl)
      as [[_ H] | [H _]]; [exact H|].
    exfalso. apply H. vm_compute. reflexivity.
  - destruct (bang_B_resets_iff_up (BUF_INSERT rx (ch "p") power_on)
                ltac:(ring_ok_now) ltac:(ring_ok_now) eq_refl eq_refl)
      as [[H _] | (_ & s' & H1 & H2 & _)]; [vm_compute in H; discriminate H|].
    exists s'. split; [exact H1 | exact H2].
Defined.

(** *** The transmit branch *)

(** The transmit branch holds a byte back when the ring is empty, or
    when flow control is on, the remote end signals that it is full, and
    the credit is used up. *)
Lemma tx_branch_hold st :
  ring_ok tx st ->
  queued tx st = []
  \/ (rd feature_rtscts st <> 0 /\ rd SERIAL_RTS st <> 0 /\ rd at_mode_active st = 0
      /\ rd rts_count st = 0) ->
  tx_branch st = wr tx_idle 1 (wr TI0 0 st).
Proof.
  intros Hr H. unfold tx_branch.
  assert (Hr0 : ring_ok tx (wr TI0 0 st)) by (eapply same_ring_ok; [by apply same_ring_wr | done]).
  rewrite BUF_NOT_EMPTY_negb, BUF_EMPTY_queued by done.
  rewrite (same_ring_queued tx (wr TI0 0 st) st) by (by apply same_ring_wr).
  destruct H as [-> | (Hf & Hrts & Hat & Hc)]; [done|].
  destruct (queued tx st); [done|]. cbn [negb].
  rewrite !rd_wr_ne by done. unfold truthy. rewrite Hat, Hc.
  apply Z.eqb_neq in Hf, Hrts. by rewrite Hf, Hrts.
Qed.

(** Otherwise it sends the oldest queued byte, and updates the credit. *)
Lemma tx_branch_send a q st :
  ring_ok tx st -> queued tx st = a :: q ->
  ~ (rd feature_rtscts st <> 0 /\ rd SERIAL_RTS st <> 0 /\ rd at_mode_active st = 0
     /\ rd rts_count st = 0) ->
  sent (tx_branch st) = sent st ++ [a]
  /\ queued tx (tx_branch st) = q
  /\ ring_ok tx (tx_branch st)
  /\ rd rts_count (tx_branch st)
     = (if truthy (rd feature_rtscts st) then
          if truthy (rd SERIAL_RTS st) && negb (truthy (rd at_mode_active st))
          then uint8 (rd rts_count st - 1) else 8
        else rd rts_count st)
  /\ (forall x, x <> TI0 -> x <> rts_count -> x <> tx_remove ->
        rd x (tx_branch st) = rd x st).
Proof.
  intros Hr Hq Hopen. unfold tx_branch.
  assert (H0 : same_ring tx (wr TI0 0 st) st) by (by apply same_ring_wr).
  assert (Hr0 : ring_ok tx (wr TI0 0 st)) by (by eapply same_ring_ok).
  rewrite BUF_NOT_EMPTY_negb, BUF_EMPTY_queued by done.
  rewrite (same_ring_queued tx _ _ H0), Hq. cbn [negb].
  rewrite !rd_wr_ne by done.
  set (credit := if truthy (rd feature_rtscts st) then _ else _).
  assert (Hcredit : exists sg, credit = Some sg /\ same_ring tx sg st
            /\ sent sg = sent st
            /\ rd rts_count sg
               = (if truthy (rd feature_rtscts st) then
                    if truthy (rd SERIAL_RTS st) && negb (truthy (rd at_mode_active st))
                    then uint8 (rd rts_count st - 1) else 8
                  else rd rts_count st)
            /\ (forall x, x <> TI0 -> x <> rts_count -> rd x sg = rd x st)).
  { subst credit. unfold truthy in *.
    destruct (Z.eqb_spec (rd feature_rtscts st) 0) as [Hf|Hf]; cbn [negb].
    { eexists. split; [reflexivity|]. split; [done|]. split; [done|].
      split; [by rewrite rd_wr_ne|]. intros x ? ?. by rewrite rd_wr_ne. }
    destruct (Z.eqb_spec (rd SERIAL_RTS st) 0) as [Hs|Hs]; cbn [negb andb].
    { eexists. split; [reflexivity|].
      split; [eapply same_ring_trans; [by apply same_ring_wr | done]|].
      split; [done|]. split; [by rewrite rd_wr_eq|].
      intros x ? ?. by rewrite !rd_wr_ne. }
    destruct (Z.eqb_spec (rd at_mode_active st) 0) as [Ha|Ha]; cbn [negb].
    2:{ eexists. split; [reflexivity|].
        split; [eapply same_ring_trans; [by apply same_ring_wr | done]|].
        split; [done|]. split; [by rewrite rd_wr_eq|].
        intros x ? ?. by rewrite !rd_wr_ne. }
    destruct (Z.eqb_spec (rd rts_count st) 0) as [Hc|Hc]; [by destruct Hopen|].
    eexists. split; [reflexivity|].
    split; [eapply same_ring_trans; [by apply same_ring_wr | done]|].
    split; [done|]. split; [by rewrite rd_wr_eq|].
    intros x ? ?. by rewrite !rd_wr_ne. }
  clearbody credit. destruct Hcredit as (sg & -> & Htx & Hsent & Hrc & Hx).
  assert (Hrg : ring_ok tx sg) by (by eapply same_ring_ok).
  assert (Hneg : BUF_NOT_EMPTY tx sg = true).
  { by rewrite BUF_NOT_EMPTY_negb, BUF_EMPTY_queued, (same_ring_queued tx _ _ Htx), Hq. }
  pose proof (queued_BUF_REMOVE tx sg Hrg Hneg) as Hqr.
  pose proof (BUF_REMOVE_ok tx sg Hrg) as Hok.
  rewrite (same_ring_queued tx _ _ Htx), Hq in Hqr.
  destruct (BUF_REMOVE tx sg) as [c s'] eqn:E. cbn [fst snd] in *.
  assert (Hs' : s' = wr tx_remove (BUF_NEXT_REMOVE tx sg) sg).
  { unfold BUF_REMOVE in E. by inversion E. }
  simplify_eq.
  split; [cbn [transmit sent wr]; by rewrite Hsent|].
  split; [by rewrite (same_ring_queued tx (transmit _ _) _) by apply same_ring_transmit|].
  split; [eapply same_ring_ok; [apply same_ring_transmit | done]|].
  split; [by rewrite rd_transmit, rd_wr_ne|].
  intros x ? ? ?. rewrite rd_transmit, rd_wr_ne by done. by apply Hx.
Qed.

(** With the line open each transmit interrupt sends the oldest queued
    byte. *)
Lemma tx_interrupts_open n : forall st,
  ring_ok tx st ->
  rd feature_rtscts st = 0 \/ rd SERIAL_RTS st = 0 \/ rd at_mode_active st <> 0 ->
  sent (tx_interrupts n st) = sent st ++ take n (queued tx st)
  /\ queued tx (tx_interrupts n st) = drop n (queued tx st)
  /\ rd tx_idle (tx_interrupts n st)
     = (if (length (queued tx st) <? n)%nat then 1 else rd tx_idle st).
Proof.
  induction n as [|n IH]; intros st Hr Hopen; cbn [tx_interrupts].
  { rewrite take_0, drop_0, app_nil_r. done. }
  destruct (queued tx st) as [|a q] eqn:Hq.
  - rewrite (tx_branch_hold st Hr) by (by left).
    set (s1 := wr tx_idle 1 (wr TI0 0 st)).
    assert (H1 : same_ring tx s1 st).
    { subst s1. eapply same_ring_trans; by apply same_ring_wr. }
    destruct (IH s1) as (Hs & Hqq & Hi).
    { by eapply same_ring_ok. }
    { subst s1. by rewrite !rd_wr_ne. }
    rewrite (same_ring_queued tx _ _ H1), Hq in Hs, Hqq, Hi.
    rewrite Hs, Hqq, Hi. subst s1. rewrite take_nil, !drop_nil.
    split; [done|]. split; [done|]. cbn [length]. rewrite rd_wr_eq.
    by destruct (0 <? n)%nat.
  - destruct (tx_branch_send a q st Hr Hq) as (Hs1 & Hq1 & Hr1 & _ & Hx1).
    { intros (Hf & Hrts & Hat & _). by destruct Hopen as [?|[?|?]]. }
    destruct (IH (tx_branch st) Hr1) as (Hs & Hqq & Hi).
    { by rewrite !Hx1. }
    rewrite Hs, Hqq, Hi, Hs1, Hq1, Hx1 by done. cbn [take drop length].
    split; [by rewrite <- app_assoc|]. split; [done|].
    change (S (length q) <? S n)%nat with (length q <? n)%nat. done.
Qed.

(** X11: with flow control off, or with the remote end ready, each
    transmit interrupt sends the oldest queued byte: after [n]
    interrupts the first [n] queued bytes have left in order, the rest
    is still queued, and the idle flag is raised by the first interrupt
    that finds the ring empty. *)
Theorem tx_interrupts_drain n : forall st,
  ring_ok tx st ->
  rd feature_rtscts st = 0 \/ rd SERIAL_RTS st = 0 \/ rd at_mode_active st <> 0 ->
  sent (tx_interrupts n st) = sent st ++ take n (queued tx st)
  /\ queued tx (tx_interrupts n st) = drop n (queued tx st)
  /\ rd tx_idle (tx_interrupts n st)
     = (if (length (queued tx st) <? n)%nat then 1 else rd tx_idle st).
Proof. exact (tx_interrupts_open n). Qed.

Lemma tx_interrupts_drain_witness :
  let st := BUF_INSERT tx 7 (BUF_INSERT tx 9 power_on) in
  sent (tx_interrupts 3 st) = [9; 7]
  /\ queued tx (tx_interrupts 3 st) = []
  /\ rd tx_idle (tx_interrupts 3 st) = 1.
Proof.
  intros st.
  exact (tx_interrupts_drain 3 st ltac:(ring_ok_now) (or_introl eq_refl)).
Defined.

(** X12: with flow control on and the remote end signalling that it is
    full, the transmit branch spends one credit per byte and stops when
    the credit is used up: [n] interrupts send the first
    [min n rts_count] queued bytes and no more, and the first interrupt
    that may not send raises the idle flag. *)
Theorem tx_interrupts_credit n : forall st,
  ring_ok tx st ->
  rd feature_rtscts st <> 0 -> rd SERIAL_RTS st <> 0 -> rd at_mode_active st = 0 ->
  0 <= rd rts_count st <= 255 ->
  let k := Nat.min n (Z.to_nat (rd rts_count st)) in
  sent (tx_interrupts n st) = sent st ++ take k (queued tx st)
  /\ queued tx (tx_interrupts n st) = drop k (queued tx st)
  /\ rd rts_count (tx_interrupts n st)
     = rd rts_count st - Z.of_nat (Nat.min k (length (queued tx st)))
  /\ rd tx_idle (tx_interrupts n st)
     = (if (Nat.min (Z.to_nat (rd rts_count st)) (length (queued tx st)) <? n)%nat
        then 1 else rd tx_idle st).
Proof.
  induction n as [|n IH]; intros st Hr Hf Hrts Hat Hc; cbn [tx_interrupts].
  { cbn. rewrite app_nil_r. split; [done|]. split; [done|]. split; [lia | done]. }
  cbv zeta.
  assert (Hhold : queued tx st = [] \/ rd rts_count st = 0 ->
            let s1 := wr tx_idle 1 (wr TI0 0 st) in
            tx_branch st = s1 /\ same_ring tx s1 st /\ sent s1 = sent st
            /\ ring_ok tx s1
            /\ rd feature_rtscts s1 <> 0 /\ rd SERIAL_RTS s1 <> 0
            /\ rd at_mode_active s1 = 0 /\ rd rts_count s1 = rd rts_count st
            /\ rd tx_idle s1 = 1).
  { intros H. cbv zeta.
    split; [apply tx_branch_hold; [done|]; destruct H; [by left | by right]|].
    assert (H1 : same_ring tx (wr tx_idle 1 (wr TI0 0 st)) st).
    { eapply same_ring_trans; by apply same_ring_wr. }
    split; [done|]. split; [done|]. split; [by eapply same_ring_ok|].
    by rewrite rd_wr_eq, !rd_wr_ne. }
  destruct (queued tx st) as [|a q] eqn:Hq.
  { destruct Hhold as (-> & H1 & Hs1 & Hr1 & Hf1 & Hrts1 & Hat1 & Hc1 & Hi1); [by left|].
    destruct (IH _ Hr1 Hf1 Hrts1 Hat1) as (Hs & Hqq & Hcc & Hii); [by rewrite Hc1|].
    rewrite (same_ring_queued tx _ _ H1), Hq, Hc1 in Hs, Hqq, Hcc, Hii.
    rewrite Hs, Hqq, Hcc, Hii, Hs1, Hi1, !take_nil, !drop_nil. cbn [length].
    split; [done|]. split; [done|]. split; [lia|].
    rewrite Nat.min_0_r. by destruct (0 <? n)%nat. }
  destruct (Z.eq_dec (rd rts_count st) 0) as [H0|H0].
  { destruct Hhold as (-> & H1 & Hs1 & Hr1 & Hf1 & Hrts1 & Hat1 & Hc1 & Hi1); [by right|].
    destruct (IH _ Hr1 Hf1 Hrts1 Hat1) as (Hs & Hqq & Hcc & Hii); [by rewrite Hc1|].
    rewrite (same_ring_queued tx _ _ H1), Hq, Hc1 in Hs, Hqq, Hcc, Hii.
    rewrite H0 in *. change (Z.to_nat 0) with 0%nat in *.
    rewrite Nat.min_0_r in *. rewrite Nat.min_0_l in *.
    rewrite Hs, Hqq, Hcc, Hii, Hs1, Hi1.
    split; [done|]. split; [done|]. split; [done|]. by destruct (0 <? n)%nat. }
  clear Hhold.
  destruct (tx_branch_send a q st Hr Hq) as (Hs1 & Hq1 & Hr1 & Hc1 & Hx1).
  { intros (_ & _ & _ & ?). done. }
  assert (Hc1' : rd rts_count (tx_branch st) = rd rts_count st - 1).
  { rewrite Hc1. unfold truthy. apply Z.eqb_neq in Hf, Hrts.
    rewrite Hf, Hrts, Hat. cbn. unfold uint8. lia. }
  destruct (IH (tx_branch st) Hr1) as (Hs & Hqq & Hcc & Hii).
  { by rewrite Hx1. } { by rewrite Hx1. } { by rewrite Hx1. } { lia. }
  rewrite Hs, Hqq, Hcc, Hii, Hs1, Hq1, Hc1', Hx1 by done.
  replace (Z.to_nat (rd rts_count st)) with (S (Z.to_nat (rd rts_count st - 1))) by lia.
  rewrite <- !Nat.succ_min_distr. cbn [take drop length].
  split; [by rewrite <- app_assoc|]. split; [done|].
  rewrite <- !Nat.succ_min_distr.
  split; [lia|].
  by change (S (Nat.min (Z.to_nat (rd rts_count st - 1)) (length q)) <? S n)%nat
       with (Nat.min (Z.to_nat (rd rts_count st - 1)) (length q) <? n)%nat.
Qed.

Lemma tx_interrupts_credit_witness :
  let st := wr rts_count 1 (wr SERIAL_RTS 1 (wr feature_rtscts 1
              (BUF_INSERT tx 7 (BUF_INSERT tx 9 power_on)))) in
  sent (tx_interrupts 3 st) = [9]
  /\ queued tx (tx_interrupts 3 st) = [7]
  /\ rd rts_count (tx_interrupts 3 st) = 0
  /\ rd tx_idle (tx_interrupts 3 st) = 1.
Proof.
  intros st.
  exact (tx_interrupts_credit 3 st ltac:(ring_ok_now)
           ltac:(vm_compute; discriminate) ltac:(vm_compute; discriminate) eq_refl
           ltac:(vm_compute; split; discriminate)).
Defined.

(** X13: a stalled transmitter and its restart.  With the credit used up
    and bytes still queued, the transmit branch raises the idle flag and
    sends nothing; [serial_check_rts] changes nothing while the remote
    end still signals full; once that signal is gone it raises the
    transmit interrupt flag and clears the idle flag, and the interrupts
    that follow send the queue in order. *)
Theorem tx_stall_and_restart n st :
  ring_ok tx st ->
  rd feature_rtscts st <> 0 -> rd SERIAL_RTS st <> 0 -> rd at_mode_active st = 0 ->
  rd rts_count st = 0 ->
  queued tx st <> [] ->
  let s1 := tx_branch st in
  let s2 := serial_check_rts (wr SERIAL_RTS 0 s1) in
  rd tx_idle s1 = 1 /\ sent s1 = sent st /\ queued tx s1 = queued tx st
  /\ serial_check_rts s1 = s1
  /\ rd TI0 s2 = 1 /\ rd tx_idle s2 = 0
  /\ sent (tx_interrupts n s2) = sent st ++ take n (queued tx st).
Proof.
  intros Hr Hf Hrts Hat Hc Hq. cbv zeta.
  rewrite (tx_branch_hold st Hr) by (by right).
  set (s1 := wr tx_idle 1 (wr TI0 0 st)).
  assert (H1 : same_ring tx s1 st).
  { subst s1. eapply same_ring_trans; by apply same_ring_wr. }
  assert (Hr1 : ring_ok tx s1) by (by eapply same_ring_ok).
  assert (Hne : forall s, same_ring tx s st -> BUF_NOT_EMPTY tx s = true).
  { intros s Hs. rewrite BUF_NOT_EMPTY_negb, BUF_EMPTY_queued by (by eapply same_ring_ok).
    rewrite (same_ring_queued tx _ _ Hs). by destruct (queued tx st). }
  apply Z.eqb_neq in Hf, Hrts.
  split; [subst s1; by rewrite rd_wr_eq|]. split; [done|].
  split; [by apply same_ring_queued|].
  split.
  { unfold serial_check_rts, serial_restart. rewrite (Hne s1 H1). subst s1.
    rewrite rd_wr_eq, !rd_wr_ne by done. unfold truthy. by rewrite Hf, Hrts, Hat. }
  set (s1' := wr SERIAL_RTS 0 s1).
  assert (H1' : same_ring tx s1' st).
  { subst s1'. eapply same_ring_trans; [by apply same_ring_wr | done]. }
  assert (E2 : serial_check_rts s1' = wr TI0 1 (wr tx_idle 0 s1')).
  { unfold serial_check_rts, serial_restart. rewrite (Hne s1' H1'). subst s1' s1.
    rewrite rd_wr_ne, rd_wr_eq, rd_wr_eq by done. rewrite !rd_wr_ne by done.
    unfold truthy. rewrite Hf. by cbn. }
  rewrite E2. split; [by rewrite rd_wr_eq|]. split; [by rewrite rd_wr_ne, rd_wr_eq|].
  set (s2 := wr TI0 1 (wr tx_idle 0 s1')).
  assert (H2 : same_ring tx s2 st).
  { subst s2. eapply same_ring_trans; [by apply same_ring_wr|].
    eapply same_ring_trans; [by apply same_ring_wr | done]. }
  destruct (tx_interrupts_open n s2) as (Hs & _).
  { by eapply same_ring_ok. }
  { right. left. subst s2 s1'. by rewrite 2!rd_wr_ne, rd_wr_eq. }
  by rewrite Hs, (same_ring_queued tx _ _ H2).
Qed.

Lemma tx_stall_and_restart_witness :
  let st := wr SERIAL_RTS 1 (wr feature_rtscts 1
              (BUF_INSERT tx 7 (BUF_INSERT tx 9 power_on))) in
  sent (tx_branch st) = []
  /\ sent (tx_interrupts 2 (serial_check_rts (wr SERIAL_RTS 0 (tx_branch st)))) = [9; 7].
Proof.
  intros st.
  destruct (tx_stall_and_restart 2 st ltac:(ring_ok_now)
              ltac:(vm_compute; discriminate) ltac:(vm_compute; discriminate)
              eq_refl eq_refl ltac:(vm_compute; discriminate))
    as (_ & H2 & _ & _ & _ & _ & H7).
  split; [exact H2 | exact H7].
Defined.

(** A block write leaves every scalar alone but the insert pointer, the
    overflow counter and the two restart flags. *)
Lemma rd_serial_write_buf x buf count st :
  x <> tx_insert -> x <> serial_tx_overflow -> x <> tx_idle -> x <> TI0 ->
  rd x (serial_write_buf buf count st) = rd x st.
Proof.
  intros H1 H2 H3 H4. unfold serial_write_buf, serial_write_space, es0_critical.
  destruct (decide (x = ES0)) as [->|H5];
    repeat case_match; simplify_eq;
    rewrite ?rd_serial_restart by done;
    repeat (rewrite ?rd_wr_eq, ?rd_wr_ne, ?rd_set_buf, ?rd_saturating_inc_ne by done);
    done.
Qed.

(** X14: the transmit path end to end.  A block that fits into the free
    space, written with [serial_write_buf] while the line is open, leaves
    through the transmit interrupts behind what was already queued, in
    order and complete. *)
Theorem write_buf_then_drain n st buf count :
  ring_ok tx st ->
  0 <= rd serial_tx_overflow st <= 65535 ->
  0 <= count <= 255 ->
  count <= Z.of_nat (length buf) ->
  count < fst (serial_write_space st) ->
  rd feature_rtscts st = 0 \/ rd SERIAL_RTS st = 0 \/ rd at_mode_active st <> 0 ->
  let s1 := serial_write_buf buf count st in
  sent (tx_interrupts n s1)
  = sent st ++ take n (queued tx st ++ take (Z.to_nat count) buf)
  /\ queued tx (tx_interrupts n s1)
     = drop n (queued tx st ++ take (Z.to_nat count) buf)
  /\ rd serial_tx_overflow s1 = rd serial_tx_overflow st.
Proof.
  intros Hr Hov Hcount Hbuf Hfit Hopen. cbv zeta.
  destruct (serial_write_buf_cells st buf count Hr Hov Hcount Hbuf)
    as (Hins & Hrem & Hlen & _ & Hovf & _ & Hsent & _).
  pose proof (serial_write_buf_appends st buf count Hr Hov Hcount Hbuf Hfit) as Hq.
  set (s1 := serial_write_buf buf count st) in *.
  assert (Hr1 : ring_ok tx s1).
  { destruct Hr as (Hi & Hrm & Hl). unfold ring_ok.
    cbn [insert_of remove_of buf_of sizeof_buf] in *.
    rewrite Hins, Hrem, Hlen. unfold TX_BUFF_MAX in *. lia. }
  destruct (tx_interrupts_open n s1 Hr1) as (Hs & Hqq & _).
  { subst s1. by rewrite !rd_serial_write_buf. }
  rewrite Hs, Hqq, Hq, Hsent. split; [done|]. split; [done|].
  rewrite Hovf. destruct (Z.gtb_spec count (fst (serial_write_space st))); [lia | done].
Qed.

Lemma write_buf_then_drain_witness :
  sent (tx_interrupts 2 (serial_write_buf [ch "o"; ch "k"] 2 power_on)) = [ch "o"; ch "k"].
Proof.
  destruct (write_buf_then_drain 2 power_on [ch "o"; ch "k"] 2 ltac:(ring_ok_now)
              ltac:(vm_compute; split; discriminate)
              ltac:(vm_compute; split; discriminate)
              ltac:(vm_compute; discriminate)
              ltac:(vm_compute; reflexivity)
              (or_introl eq_refl)) as (H & _).
  exact H.
Defined.

(** *** Queueing single bytes *)

Lemma _serial_write_room c st :
  ring_ok tx st -> BUF_USED tx st < TX_BUFF_MAX - 1 ->
  outbound (_serial_write c st) = outbound st ++ [c]
  /\ ring_ok tx (_serial_write c st)
  /\ BUF_USED tx (_serial_write c st) = BUF_USED tx st + 1.
Proof.
  intros Hr Hu.
  destruct (_serial_write_spec c st Hr) as (Hq & Hok & _ & Hs & _).
  cbv zeta in Hq, Hok, Hs.
  rewrite BUF_NOT_FULL_used in Hq by done.
  destruct (Z.ltb_spec (BUF_USED tx st) (sizeof_buf tx - 1)) as [_|Hge];
    [|cbn [sizeof_buf] in Hge; lia].
  destruct Hq as [Hq _].
  split; [unfold outbound; by rewrite Hs, Hq, app_assoc|].
  split; [done|].
  rewrite <- !length_queued, Hq, length_app by done. cbn [length]. lia.
Qed.

(** X15: outside silence mode [serial_write] always reports success.  The
    free-space count it tests is never below 1, so with the ring full
    the byte is dropped and counted as an overflow while the caller is
    told it was written. *)
Theorem serial_write_reports_success c st :
  ring_ok tx st ->
  rd uboot_silence_mode st = 0 ->
  0 <= rd serial_tx_overflow st <= 65535 ->
  exists s',
    serial_write c st = (true, s')
    /\ (if BUF_NOT_FULL tx st
        then outbound s' = outbound st ++ [c]
             /\ rd serial_tx_overflow s' = rd serial_tx_overflow st
        else outbound s' = outbound st
             /\ rd serial_tx_overflow s' = Z.min 65535 (rd serial_tx_overflow st + 1)).
Proof.
  intros Hr Hsil Hov. unfold serial_write. rewrite Hsil. cbn [truthy Z.eqb negb].
  pose proof (serial_write_space_free st Hr) as Hfree.
  pose proof (serial_write_space_state st) as (Hx & _ & Htb & Hse & _).
  destruct (serial_write_space st) as [space s0]. cbn [fst snd] in *.
  rewrite BUF_FREE_used in Hfree by done.
  pose proof (BUF_USED_range tx st Hr) as Hu. cbn [sizeof_buf] in *.
  destruct (Z.ltb_spec space 1) as [Hlt|_]; [lia|].
  eexists. split; [reflexivity|].
  assert (H0 : same_ring tx s0 st) by (apply same_ring_of_frame; [apply Hx | apply Hx | exact Htb]).
  assert (Hr0 : ring_ok tx s0) by (by eapply same_ring_ok).
  destruct (_serial_write_spec c s0 Hr0) as (Hq & _ & _ & Hs & _).
  cbv zeta in Hq, Hs.
  rewrite (same_ring_not_full tx st s0 H0), (same_ring_queued tx s0 st H0) in Hq.
  destruct (BUF_NOT_FULL tx st) eqn:E.
  - destruct Hq as [Hq Ho]. rewrite Ho, Hx.
    split; [unfold outbound; by rewrite Hs, Hse, Hq, app_assoc | done].
  - split; [unfold outbound; by rewrite Hs, Hse, Hq|].
    rewrite _serial_write_unfold.
    assert (E0 : BUF_NOT_FULL tx (wr ES0 0 s0) = false).
    { rewrite <- E. apply same_ring_not_full.
      eapply same_ring_trans; [by apply same_ring_wr | done]. }
    rewrite E0, rd_wr_ne by done.
    rewrite rd_saturating_inc_eq by (by rewrite rd_wr_ne, Hx).
    by rewrite rd_wr_ne, Hx.
Qed.

Lemma serial_write_reports_success_witness :
  let st := wr tx_insert 511 power_on in
  exists s',
    serial_write 65 st = (true, s')
    /\ outbound s' = outbound st
    /\ rd serial_tx_overflow s' = 1.
Proof.
  intros st.
  destruct (serial_write_reports_success 65 st ltac:(ring_ok_now) eq_refl
              ltac:(vm_compute; split; discriminate)) as (s' & H1 & H2).
  assert (E : BUF_NOT_FULL tx st = false) by (vm_compute; reflexivity).
  rewrite E in H2. destruct H2 as [H2 H3].
  exists s'. split; [exact H1|]. split; [exact H2 | exact H3].
Defined.

(** X16: [putchar_r] queues a carriage return before a line feed and
    every other byte as it is, straight into the transmit ring; silence
    mode does not hold it back. *)
Theorem putchar_r_outbound c st :
  ring_ok tx st ->
  BUF_USED tx st + 2 <= TX_BUFF_MAX - 1 ->
  outbound (putchar_r c st) = outbound st ++ (if c =? 10 then [13; 10] else [c]).
Proof.
  intros Hr Hu. unfold putchar_r. destruct (Z.eqb_spec c 10) as [->|Hne].
  - destruct (_serial_write_room 13 st Hr) as (Ho & Hok & Hu1); [lia|].
    destruct (_serial_write_room 10 (_serial_write 13 st) Hok) as (Ho2 & _); [lia|].
    by rewrite Ho2, Ho, <- app_assoc.
  - destruct (_serial_write_room c st Hr) as (Ho & _); [lia|]. done.
Qed.

Lemma putchar_r_outbound_witness :
  outbound (putchar_r 10 (wr uboot_silence_mode 1 power_on)) = [13; 10].
Proof.
  exact (putchar_r_outbound 10 (wr uboot_silence_mode 1 power_on)
           ltac:(ring_ok_now) ltac:(vm_compute; discriminate)).
Defined.

(** *** The ready-to-receive pin *)

Lemma same_ring_free b s s' : same_ring b s' s -> BUF_FREE b s' = BUF_FREE b s.
Proof. intros (Hi & Hr & _). unfold BUF_FREE. by rewrite Hi, Hr. Qed.

Lemma receive_data_cts c st s1 :
  ring_ok rx st -> ring_ok tx st ->
  rd at_mode_active st = 0 -> rd last_was_bang st = 0 ->
  c <> ch "!" ->
  receive c st = Some s1 ->
  ring_ok rx s1
  /\ rd SERIAL_CTS s1
     = if BUF_FREE rx s1 <? SERIAL_CTS_THRESHOLD_LOW then 1 else rd SERIAL_CTS st.
Proof.
  intros Hrx Htx Hat Hbang Hc.
  rewrite receive_normal, escape_scan_data by (by rewrite ?rd_pre_scan, ?Hbang).
  intros [= <-].
  set (x := pre_scan c st).
  destruct (rx_store_spec c x (same_ring_ok _ _ _ (pre_scan_same_ring rx c st) Hrx))
    as (_ & Hok & Hstx & _ & _ & Hfr).
  cbv zeta in Hok, Hstx, Hfr.
  set (y := rx_store c x) in *.
  assert (Hytx : same_ring tx (cts_low y) st).
  { eapply same_ring_trans;
      [|eapply same_ring_trans; [exact Hstx | apply pre_scan_same_ring]].
    apply same_ring_of_frame; cbn [insert_of remove_of]; by store. }
  assert (Hyrx : same_ring rx (cts_low y) y).
  { apply same_ring_of_frame; cbn [insert_of remove_of]; by store. }
  destruct (tx_after_spec _ (same_ring_ok _ _ _ Hytx Htx)) as (_ & _ & _ & Hsrx & _ & Hx).
  assert (Hall : same_ring rx (tx_after (cts_low y)) y) by (by eapply same_ring_trans).
  split; [by eapply same_ring_ok|].
  rewrite Hx, (same_ring_free rx _ _ Hall) by done.
  assert (Hcts : rd SERIAL_CTS y = rd SERIAL_CTS st).
  { rewrite Hfr by done. subst x. by store. }
  unfold cts_low. case_match; [by rewrite rd_wr_eq | done].
Qed.

Lemma serial_read_cts st :
  ring_ok rx st ->
  rd SERIAL_CTS (snd (serial_read st))
  = if BUF_FREE rx (snd (serial_read st)) >? SERIAL_CTS_THRESHOLD_HIGH
    then 0 else rd SERIAL_CTS st.
Proof.
  intros Hr. unfold serial_read, es0_critical.
  set (p := if BUF_NOT_EMPTY rx (wr ES0 0 st) then BUF_REMOVE rx (wr ES0 0 st)
            else (0, wr ES0 0 st)).
  assert (Hp : rd SERIAL_CTS (snd p) = rd SERIAL_CTS st).
  { subst p. case_match; [rewrite rd_BUF_REMOVE_other by done|cbn [snd]];
      by rewrite rd_wr_ne. }
  destruct p as [c sr]. cbn [snd] in *.
  set (g := BUF_FREE rx sr >? SERIAL_CTS_THRESHOLD_HIGH).
  assert (Hg : BUF_FREE rx (wr ES0 (rd ES0 st) (if g then wr SERIAL_CTS 0 sr else sr))
               = BUF_FREE rx sr).
  { apply same_ring_free. eapply same_ring_trans; [by apply same_ring_wr|].
    destruct g; [by apply same_ring_wr | apply same_ring_refl]. }
  rewrite Hg. fold g. rewrite rd_wr_ne by done.
  destruct g; [by rewrite rd_wr_eq | done].
Qed.

(** X17: the ready-to-receive pin follows the fill level with
    hysteresis.  A payload byte sets it to 1 when more than 239 bytes are
    queued afterwards, and leaves it alone otherwise; [serial_read] sets
    it to 0 when fewer than 222 bytes are queued afterwards, and leaves
    it alone otherwise. *)
Theorem cts_hysteresis st :
  ring_ok rx st -> ring_ok tx st ->
  rd at_mode_active st = 0 -> rd last_was_bang st = 0 ->
  (forall c, c <> ch "!" ->
     exists s1,
       receive c st = Some s1
       /\ rd SERIAL_CTS s1 = if 239 <? BUF_USED rx s1 then 1 else rd SERIAL_CTS st)
  /\ rd SERIAL_CTS (snd (serial_read st))
     = if BUF_USED rx (snd (serial_read st)) <? 222 then 0 else rd SERIAL_CTS st.
Proof.
  intros Hrx Htx Hat Hbang. split.
  - intros c Hc.
    destruct (receive_data st Hrx Htx Hat Hbang c Hc) as (s1 & H1 & _).
    exists s1. split; [done|].
    destruct (receive_data_cts c st s1 Hrx Htx Hat Hbang Hc H1) as [Hok ->].
    rewrite BUF_FREE_used by done.
    pose proof (BUF_USED_range rx s1 Hok) as Hu.
    unfold SERIAL_CTS_THRESHOLD_LOW. cbn [sizeof_buf] in *. unfold RX_BUFF_MAX in *.
    destruct (Z.ltb_spec (256 - BUF_USED rx s1) 17), (Z.ltb_spec 239 (BUF_USED rx s1));
      (done || lia).
  - rewrite serial_read_cts by done.
    pose proof (serial_read_ok st Hrx) as Hok.
    rewrite BUF_FREE_used by done.
    unfold SERIAL_CTS_THRESHOLD_HIGH. cbn [sizeof_buf]. unfold RX_BUFF_MAX.
    destruct (Z.gtb_spec (256 - BUF_USED rx (snd (serial_read st))) 34),
             (Z.ltb_spec (BUF_USED rx (snd (serial_read st))) 222); (done || lia).
Qed.

Lemma cts_hysteresis_witness :
  let st := wr SERIAL_CTS 1 (wr rx_insert 230 power_on) in
  (exists s1, receive 65 st = Some s1 /\ rd SERIAL_CTS s1 = 1)
  /\ rd SERIAL_CTS (snd (serial_read st)) = 1.
Proof.
  intros st.
  destruct (cts_hysteresis st ltac:(ring_ok_now) ltac:(ring_ok_now) eq_refl eq_refl)
    as [H1 H2].
  split.
  - destruct (H1 65 ltac:(vm_compute; discriminate)) as (s1 & Hs & Hc).
    exists s1. split; [exact Hs|]. rewrite Hc. by destruct (239 <? BUF_USED rx s1).
  - rewrite H2. vm_compute. reflexivity.
Defined.

(** *** Looking at the receive ring without consuming *)

(** X18: [serial_peekx k] returns the byte [k] places behind the head of
    the receive queue for every [k] below the number of queued bytes, and
    leaves the transport as it was; [serial_peek] and [serial_peek2] are
    the cases 0 and 1. *)
Theorem serial_peekx_queued st :
  ring_ok rx st ->
  (forall k, 0 <= k < BUF_USED rx st ->
     queued rx st !! Z.to_nat k = Some (fst (serial_peekx k st)))
  /\ (forall k, same_state (snd (serial_peekx k st)) st)
  /\ serial_peek st = serial_peekx 0 st
  /\ serial_peek2 st = serial_peekx 1 st.
Proof.
  intros Hr. pose proof Hr as (Hi & Hrm & Hl).
  cbn [insert_of remove_of sizeof_buf] in *. unfold RX_BUFF_MAX in *.
  split; [|split; [|split]].
  - intros k Hk. unfold queued. rewrite list_lookup_fmap, lookup_upto by lia.
    cbn [fmap option_fmap option_map]. f_equal.
    unfold serial_peekx, es0_critical, BUF_PEEKX. cbn [fst remove_of sizeof_buf].
    rewrite rd_wr_ne, buf_of_wr by done.
    pose proof (BUF_USED_range rx st Hr) as Hu. cbn [sizeof_buf] in Hu.
    unfold uint16, RX_BUFF_MAX in *. f_equal. lia.
  - intros k. apply same_state_es0.
  - unfold serial_peek, serial_peekx, es0_critical, BUF_PEEK, BUF_PEEKX.
    cbn [remove_of sizeof_buf]. rewrite rd_wr_ne by done.
    unfold uint16, RX_BUFF_MAX. do 2 f_equal. lia.
  - unfold serial_peek2, serial_peekx, es0_critical, BUF_PEEK2, BUF_PEEKX, BUF_NEXT_REMOVE.
    cbn [remove_of sizeof_buf]. rewrite rd_wr_ne by done.
    unfold uint16, RX_BUFF_MAX. do 2 f_equal. case_match; lia.
Qed.

Lemma serial_peekx_queued_witness :
  let st := BUF_INSERT rx 7 (BUF_INSERT rx 9 power_on) in
  fst (serial_peekx 1 st) = 7 /\ fst (serial_peek2 st) = 7.
Proof.
  intros st.
  destruct (serial_peekx_queued st ltac:(ring_ok_now)) as (H1 & _ & _ & H4).
  pose proof (H1 1 ltac:(vm_compute; split; [discriminate | reflexivity])) as H.
  assert (E : fst (serial_peekx 1 st) = 7).
  { apply (inj Some). rewrite <- H. vm_compute. reflexivity. }
  split; [exact E | rewrite H4; exact E].
Defined.

(** X19: the free-space reports on the receive ring.  The byte count is
    the array size less the queued bytes, so it is never 0; the
    percentage is computed from whole groups of eight free bytes, reads
    100 only for an empty ring, and reads 0 as soon as fewer than eight
    bytes are free. *)
Theorem serial_read_space_percent st :
  ring_ok rx st ->
  let free := RX_BUFF_MAX - BUF_USED rx st in
  let p := fst (serial_read_space st) in
  fst (serial_read_space_bytes st) = free
  /\ 1 <= free <= RX_BUFF_MAX
  /\ p = 100 * (free / 8) / 32
  /\ 0 <= p <= 100
  /\ (p = 100 <-> BUF_USED rx st = 0)
  /\ (p = 0 <-> free < 8)
  /\ same_state (snd (serial_read_space st)) st.
Proof.
  intros Hr. cbv zeta.
  pose proof (serial_read_available_used st Hr) as Ha.
  pose proof (serial_read_available_state st) as Hs.
  pose proof (BUF_USED_range rx st Hr) as Hu. cbn [sizeof_buf] in Hu.
  unfold serial_read_space, serial_read_space_bytes.
  destruct (serial_read_available st) as [avail s0]. cbn [fst snd] in *. subst avail.
  unfold uint8, uint16, RX_BUFF_MAX in *.
  set (u := BUF_USED rx st) in *. clearbody u.
  assert (Hdiv : 0 <= (256 - u) / 8 <= 32) by lia.
  set (d := (256 - u) / 8) in *.
  assert (Hd : d = (256 - u) / 8) by done. clearbody d.
  change (256 / 8) with 32.
  assert (Hp : ((100 * ((256 - u) mod 65536 / 8)) mod 65536 / 32) mod 65536 mod 256
               = 100 * d / 32).
  { replace ((256 - u) mod 65536) with (256 - u) by lia. rewrite <- Hd. lia. }
  rewrite Hp.
  split; [lia|]. split; [lia|]. split; [done|]. split; [lia|].
  split; [lia|]. split; [lia | done].
Qed.

Lemma serial_read_space_percent_witness :
  let st := wr rx_insert 250 power_on in
  fst (serial_read_space_bytes st) = 6 /\ fst (serial_read_space st) = 0.
Proof.
  intros st.
  destruct (serial_read_space_percent st ltac:(ring_ok_now)) as (H1 & _ & H3 & _).
  split; [rewrite H1 | rewrite H3]; vm_compute; reflexivity.
Defined.

(** *** Rate codes *)

(** X20: the supported rate codes are the nine of the table.  Any other
    code programs the UART as code 57 does, while the packet layer is
    still told the rate of the code that was asked for. *)
Theorem serial_speed_fallback speed st :
  (serial_device_valid_speed speed = true
   <-> In speed [1; 2; 4; 9; 19; 38; 57; 115; 230])
  /\ (serial_device_valid_speed speed = false ->
      rd TH1 (serial_device_set_speed speed st) = rd TH1 (serial_device_set_speed 57 st)
      /\ rd CKCON (serial_device_set_speed speed st)
         = rd CKCON (serial_device_set_speed 57 st)
      /\ calls (serial_device_set_speed speed st)
         = calls st ++ [packet_set_serial_speed ((speed * 125) mod 2 ^ 32)]).
Proof.
  split.
  - assert (E : serial_device_valid_speed speed
                = existsb (Z.eqb speed) [1; 2; 4; 9; 19; 38; 57; 115; 230]).
    { unfold serial_device_valid_speed, serial_rates. cbn [rate_scan existsb].
      repeat (destruct (speed =? _); [reflexivity|]). reflexivity. }
    rewrite E, existsb_exists. split.
    + intros (x & Hin & Heq). apply Z.eqb_eq in Heq. by subst.
    + intros Hin. exists speed. split; [done | apply Z.eqb_refl].
  - unfold serial_device_valid_speed, serial_device_set_speed.
    intros H. apply negb_false_iff in H. rewrite H. cbn.
    split; [by store|]. split; by store.
Qed.

Lemma serial_speed_fallback_witness :
  rd TH1 (serial_device_set_speed 3 power_on) = 0x2b
  /\ calls (serial_device_set_speed 3 power_on) = [packet_set_serial_speed 375].
Proof.
  destruct (serial_speed_fallback 3 power_on) as [_ H].
  destruct (H eq_refl) as (H1 & _ & H3).
  split; [rewrite H1 | rewrite H3]; vm_compute; reflexivity.
Defined.

(** *** Hexadecimal digits *)

Lemma hex_decode_cases c :
  0 <= c < 256 ->
  (48 <= c <= 57 /\ hex_decode c = c - 48)
  \/ (65 <= c <= 70 /\ hex_decode c = c - 55)
  \/ (97 <= c <= 102 /\ hex_decode c = c - 87)
  \/ (~ 48 <= c <= 57 /\ ~ 65 <= c <= 70 /\ ~ 97 <= c <= 102 /\ hex_decode c = 0).
Proof.
  intros Hc. unfold hex_decode, uint8.
  change (ch "0") with 48. change (ch "9") with 57.
  change (ch "A") with 65. change (ch "F") with 70.
  change (ch "a") with 97. change (ch "f") with 102.
  destruct (Z.geb_spec c 48), (Z.leb_spec c 57), (Z.geb_spec c 65), (Z.leb_spec c 70),
    (Z.geb_spec c 97), (Z.leb_spec c 102); cbn [andb]; lia.
Qed.

(** X21: [hex_decode] returns a value from 0 to 15, the same for a
    lower-case digit as for its upper-case form, and returns 0 for every
    byte that is not a hexadecimal digit, which the caller cannot tell
    from the digit [0]. *)
Theorem hex_decode_nibble c :
  0 <= c < 256 ->
  0 <= hex_decode c <= 15
  /\ (ch "a" <= c <= ch "f" -> hex_decode c = hex_decode (c - 32))
  /\ (hex_decode c <> 0 ->
      ch "1" <= c <= ch "9" \/ ch "A" <= c <= ch "F" \/ ch "a" <= c <= ch "f")
  /\ (ch "0" <= c <= ch "9" -> hex_decode c = c - ch "0").
Proof.
  intros Hc.
  change (ch "0") with 48. change (ch "9") with 57. change (ch "1") with 49.
  change (ch "A") with 65. change (ch "F") with 70.
  change (ch "a") with 97. change (ch "f") with 102.
  pose proof (hex_decode_cases c Hc) as H.
  split; [lia|]. split; [|split; lia].
  intros Hl. pose proof (hex_decode_cases (c - 32) ltac:(lia)) as H'. lia.
Qed.

Lemma hex_decode_nibble_witness :
  hex_decode (ch "b") = hex_decode (ch "B") /\ hex_decode (ch "7") = 7.
Proof.
  destruct (hex_decode_nibble (ch "b") ltac:(vm_compute; split; [discriminate | reflexivity]))
    as (_ & H2 & _).
  destruct (hex_decode_nibble (ch "7") ltac:(vm_compute; split; [discriminate | reflexivity]))
    as (_ & _ & _ & H4).
  split.
  - exact (H2 ltac:(vm_compute; split; discriminate)).
  - exact (H4 ltac:(vm_compute; split; discriminate)).
Defined.

(** *** Reading single bytes *)

(** X22: [serial_read] on a ring that is not empty returns the oldest
    queued byte and removes just that byte; the transmit side, the
    outbound stream and the record of collaborator calls are untouched. *)
Theorem serial_read_takes_oldest a q st :
  ring_ok rx st ->
  queued rx st = a :: q ->
  exists s',
    serial_read st = (a, s')
    /\ queued rx s' = q
    /\ ring_ok rx s'
    /\ outbound s' = outbound st
    /\ calls s' = calls st
    /\ rd rx_insert s' = rd rx_insert st.
Proof.
  intros Hr Hq.
  destruct (serial_read_cons a q st Hr Hq) as (s' & E & Hq' & Hok & Ht & Hs & Hc & Hx).
  exists s'. split; [done|]. split; [done|]. split; [done|].
  split; [by apply outbound_same|]. split; [done|]. by apply Hx.
Qed.

Lemma serial_read_takes_oldest_witness :
  exists s',
    serial_read (BUF_INSERT rx 7 (BUF_INSERT rx 9 power_on)) = (9, s')
    /\ queued rx s' = [7].
Proof.
  destruct (serial_read_takes_oldest 9 [7] (BUF_INSERT rx 7 (BUF_INSERT rx 9 power_on))
              ltac:(ring_ok_now) ltac:(vm_compute; reflexivity))
    as (s' & H1 & H2 & _).
  exists s'. split; [exact H1 | exact H2].
Defined.
End SerialFacts.

(** ** The EEPROM bus *)

Module I2CFacts.
Import I2C.

#[local] Ltac Zify.zify_post_hook ::= Z.to_euclidean_division_equations.

(** *** Runs of events *)

Lemma emits_nil b : emits [] b = b.
Proof. destruct b. unfold emits. cbn. by rewrite app_nil_r. Qed.

Lemma emits_emits l l' b : emits l (emits l' b) = emits (l' ++ l) b.
Proof. unfold emits. cbn. by rewrite app_assoc. Qed.

Lemma emit_emits e l b : emit e (emits l b) = emits (l ++ [e]) b.
Proof. unfold emit, emits. cbn. by rewrite app_assoc. Qed.

Lemma emit_one e b : emit e b = emits [e] b.
Proof. reflexivity. Qed.

Lemma get_adc_emits pin l b :
  get_adc pin (emits l b)
  = (default 0 (head (adc b)), mkBus (events b ++ l ++ [pins_user_get_adc pin]) (tail (adc b))).
Proof. unfold get_adc, emits. cbn. by rewrite app_assoc. Qed.

Lemma i2c_stop_emits l b : i2c_stop (emits l b) = emits (l ++ stop_events) b.
Proof.
  unfold i2c_stop, i2c_data_high, i2c_clock_high. rewrite !emit_emits.
  by rewrite <- !app_assoc.
Qed.

Lemma i2c_start_emits l b : i2c_start (emits l b) = emits (l ++ start_events) b.
Proof.
  unfold i2c_start, i2c_stop, i2c_clock_low, i2c_data_low, i2c_data_high, i2c_clock_high.
  rewrite !emit_emits. by rewrite <- !app_assoc.
Qed.

Lemma i2c_start_bus b : i2c_start b = emits start_events b.
Proof. rewrite <- (emits_nil b) at 1. by rewrite i2c_start_emits. Qed.

(** The transmit loop only appends events, the same whatever came
    before. *)
Lemma i2c_tx_bits_emits x : forall d l b,
  i2c_tx_bits x d (emits l b)
  = emits (l ++ events (i2c_tx_bits x d (mkBus [] []))) b.
Proof.
  induction x as [|x IH]; intros d l b; cbn [i2c_tx_bits].
  { cbn. by rewrite app_nil_r. }
  unfold i2c_delay, i2c_clock_low, i2c_clock_high, i2c_data_high, i2c_data_low.
  destruct (negb (Z.land d 128 =? 0));
    rewrite <- (emits_nil (mkBus [] [])) at 1;
    rewrite !emit_emits, !IH; cbn [emits events adc app]; by rewrite <- !app_assoc.
Qed.

Lemma i2c_tx_spec d l b :
  i2c_tx d (emits l b)
  = (if negb (default 0 (head (adc b)) =? 0) then 1 else 0,
     mkBus (events b ++ l ++ tx_events d ++ [pins_user_get_adc 4]) (tail (adc b))).
Proof.
  unfold i2c_tx, i2c_data_value, tx_events, i2c_delay, i2c_clock_low.
  rewrite <- (emits_nil (mkBus [] [])).
  rewrite !emit_emits, !i2c_tx_bits_emits, get_adc_emits.
  cbn [emits events adc app]. by rewrite <- !app_assoc.
Qed.

(** *** Bits and bytes *)

Lemma In_upto m x : 0 <= x < m -> In x (upto m).
Proof.
  intros Hx. apply list_elem_of_In, list_elem_of_lookup.
  exists (Z.to_nat x). rewrite lookup_upto by lia. f_equal. lia.
Qed.

(** What one [i2c_tx] puts on the lines, for every byte value. *)
Lemma tx_events_facts d :
  0 <= d < 256 ->
  data_bits (tx_events d) = bits_of_byte d
  /\ byte_of_bits (bits_of_byte d) = d
  /\ clock_releases (tx_events d) = 8%nat.
Proof.
  intros Hd.
  assert (Hall : forallb (fun d =>
            bool_decide (data_bits (tx_events d) = bits_of_byte d)
            && (byte_of_bits (bits_of_byte d) =? d)
            && (clock_releases (tx_events d) =? 8)%nat) (upto 256) = true)
    by (vm_compute; reflexivity).
  rewrite forallb_forall in Hall. specialize (Hall d (In_upto 256 d Hd)).
  apply andb_prop in Hall as [Hall H3]. apply andb_prop in Hall as [H1 H2].
  apply bool_decide_eq_true in H1. apply Z.eqb_eq in H2. apply Nat.eqb_eq in H3.
  done.
Qed.

Lemma data_bits_app l l' : data_bits (l ++ l') = data_bits l ++ data_bits l'.
Proof. apply omap_app. Qed.

Lemma data_bits_get_adc pin : data_bits [pins_user_get_adc pin] = [].
Proof. reflexivity. Qed.

Lemma clock_releases_app l l' :
  clock_releases (l ++ l') = (clock_releases l + clock_releases l')%nat.
Proof. unfold clock_releases. by rewrite omap_app, length_app. Qed.

(** The control byte carries the device code 1010, address bits 8 to 10
    and the read flag; higher address bits do not reach the bus. *)
Lemma control_byte_spec address read :
  0 <= address -> 0 <= read <= 1 ->
  control_byte address read = 0xa0 + 2 * ((address / 256) mod 8) + read.
Proof.
  intros Ha Hr. unfold control_byte, uint8.
  rewrite Z.shiftr_div_pow2 by lia. change (2 ^ 7) with 128.
  set (x := address / 128).
  assert (Hx : Z.land x 14 = 2 * ((x / 2) mod 8)).
  { replace (Z.land x 14) with (Z.land (Z.land x 15) 14)
      by (rewrite <- Z.land_assoc; reflexivity).
    change 15 with (Z.ones 4). rewrite Z.land_ones by lia. change (2 ^ 4) with 16.
    assert (Hall : forallb (fun y => Z.land y 14 =? 2 * ((y / 2) mod 8)) (upto 16) = true)
      by (vm_compute; reflexivity).
    rewrite forallb_forall in Hall.
    assert (Hin : 0 <= x mod 16 < 16) by lia.
    pose proof (Hall (x mod 16) (In_upto 16 _ Hin)) as Hy.
    apply Z.eqb_eq in Hy. rewrite Hy. lia. }
  rewrite Hx. subst x. lia.
Qed.

Lemma control_byte_write address :
  uint8 (0xa0 + Z.land (Z.shiftr address 7) 0xe) = control_byte address 0.
Proof. reflexivity. Qed.

Lemma control_byte_read address :
  uint8 (0xa1 + Z.land (Z.shiftr address 7) 0xe) = control_byte address 1.
Proof. reflexivity. Qed.

Lemma control_byte_range address read : 0 <= control_byte address read < 256.
Proof. unfold control_byte, uint8. lia. Qed.

(** X23: [i2c_tx] sets the data line eight times, most significant bit
    first, with one clock pulse after each setting, and then reads the
    data pin once for its result.  The settings spell the byte; no ninth
    clock pulse precedes the read. *)
Theorem i2c_tx_frame d b :
  0 <= d < 256 ->
  exists es,
    i2c_tx d b
    = (if negb (default 0 (head (adc b)) =? 0) then 1 else 0,
       mkBus (events b ++ es ++ [pins_user_get_adc 4]) (tail (adc b)))
    /\ data_bits es = bits_of_byte d
    /\ byte_of_bits (data_bits es) = d
    /\ clock_releases es = 8%nat.
Proof.
  intros Hd. exists (tx_events d).
  destruct (tx_events_facts d Hd) as (H1 & H2 & H3).
  rewrite <- (emits_nil b) at 1. rewrite i2c_tx_spec. cbn [app].
  split; [done|]. split; [done|]. split; [by rewrite H1 | done].
Qed.

Lemma i2c_tx_frame_witness :
  exists es,
    i2c_tx 0xa4 (mkBus [] [1]) = (1, mkBus (es ++ [pins_user_get_adc 4]) [])
    /\ byte_of_bits (data_bits es) = 0xa4.
Proof.
  destruct (i2c_tx_frame 0xa4 (mkBus [] [1]) ltac:(lia)) as (es & H1 & _ & H3 & _).
  exists es. split; [exact H1 | exact H3].
Defined.

(** *** Writing a byte *)

Lemma tx_until_acked_spec value naks : forall fuel l b rest,
  Forall (fun v => v <> 0) naks ->
  adc b = naks ++ 0 :: rest ->
  (length naks < fuel)%nat ->
  exists es,
    tx_until_acked fuel value (emits l b) = Some (mkBus (events b ++ l ++ es) rest)
    /\ data_bits es
       = mjoin (replicate (S (length naks)) (data_bits (tx_events value))).
Proof.
  induction naks as [|v naks IH]; intros fuel l b rest Hn Hadc Hf.
  - destruct fuel as [|fuel]; [cbn in Hf; lia|]. cbn [tx_until_acked].
    rewrite i2c_tx_spec, Hadc. cbn [head default tail app id Z.eqb negb].
    exists (tx_events value ++ [pins_user_get_adc 4]). split; [done|].
    cbn [length replicate mjoin list_join]. rewrite data_bits_app, data_bits_get_adc.
    done.
  - destruct fuel as [|fuel]; [cbn in Hf; lia|]. cbn [tx_until_acked].
    rewrite i2c_tx_spec, Hadc. cbn [head default tail app id].
    apply Forall_cons in Hn as [Hv Hn]. apply Z.eqb_neq in Hv. rewrite Hv.
    cbn [negb Z.eqb]. unfold i2c_delay.
    change (mkBus (events b ++ l ++ tx_events value ++ [pins_user_get_adc 4])
              (naks ++ 0 :: rest))
      with (emits (l ++ tx_events value ++ [pins_user_get_adc 4])
              (mkBus (events b) (naks ++ 0 :: rest))).
    rewrite emit_emits.
    destruct (IH fuel ((l ++ tx_events value ++ [pins_user_get_adc 4]) ++ [delay])
                (mkBus (events b) (naks ++ 0 :: rest)) rest Hn eq_refl)
      as (es & He & Hd); [cbn in Hf; lia|].
    exists (tx_events value ++ [pins_user_get_adc 4] ++ [delay] ++ es).
    split.
    + rewrite He. cbn [events]. by rewrite <- !app_assoc.
    + rewrite !data_bits_app, Hd. cbn [length replicate mjoin list_join]. done.
Qed.

(** X24: [eeprom_write_byte] puts a start condition, the control byte
    (device code 1010, address bits 8 to 10, write flag), the low address
    byte and the value on the bus, then a stop condition, and returns 0.
    A value that is not acknowledged is sent again, without a new start,
    until it is; address bits above bit 10 reach the bus nowhere. *)
Theorem eeprom_write_byte_sends fuel address value b naks rest :
  0 <= address < 65536 -> 0 <= value < 256 ->
  Forall (fun v => v <> 0) naks ->
  adc b = 0 :: 0 :: naks ++ 0 :: rest ->
  (length naks < fuel)%nat ->
  exists es,
    eeprom_write_byte fuel address value b = Some (0, mkBus (events b ++ es) rest)
    /\ data_bits es
       = [true; false]
         ++ bits_of_byte (0xa0 + 2 * ((address / 256) mod 8))
         ++ bits_of_byte (address mod 256)
         ++ mjoin (replicate (S (length naks)) (bits_of_byte value))
         ++ [true].
Proof.
  intros Ha Hv Hn Hadc Hf. unfold eeprom_write_byte.
  rewrite control_byte_write, i2c_start_bus, i2c_tx_spec, Hadc.
  cbn [app head default tail id Z.eqb negb].
  change (mkBus (events b ++ start_events ++ tx_events (control_byte address 0)
                   ++ [pins_user_get_adc 4]) (0 :: naks ++ 0 :: rest))
    with (emits (start_events ++ tx_events (control_byte address 0)
                   ++ [pins_user_get_adc 4])
            (mkBus (events b) (0 :: naks ++ 0 :: rest))).
  rewrite i2c_tx_spec. cbn [adc events head default tail id Z.eqb negb].
  set (l := (start_events ++ tx_events (control_byte address 0) ++ [pins_user_get_adc 4])
            ++ tx_events (uint8 (Z.land address 255)) ++ [pins_user_get_adc 4]).
  change (mkBus (events b ++ l) (naks ++ 0 :: rest))
    with (emits l (mkBus (events b) (naks ++ 0 :: rest))).
  destruct (tx_until_acked_spec value naks fuel l
              (mkBus (events b) (naks ++ 0 :: rest)) rest Hn eq_refl Hf)
    as (es & He & Hd).
  rewrite He. cbn [events].
  change (mkBus (events b ++ l ++ es) rest) with (emits (l ++ es) (mkBus (events b) rest)).
  rewrite i2c_stop_emits.
  exists ((l ++ es) ++ stop_events). split; [done|].
  assert (Hlo : uint8 (Z.land address 255) = address mod 256).
  { change 255 with (Z.ones 8). rewrite Z.land_ones by lia. unfold uint8.
    change (2 ^ 8) with 256. lia. }
  destruct (tx_events_facts (control_byte address 0) (control_byte_range _ _)) as (Hc & _).
  destruct (tx_events_facts (address mod 256) ltac:(lia)) as (Hl & _).
  destruct (tx_events_facts value Hv) as (Hval & _).
  subst l. rewrite Hlo, !data_bits_app, Hd, Hc, Hl, Hval, !data_bits_get_adc.
  rewrite control_byte_spec by lia. rewrite Z.add_0_r.
  cbn [app]. rewrite !app_nil_r, <- !app_assoc. done.
Qed.

Lemma eeprom_write_byte_sends_witness :
  exists es,
    eeprom_write_byte 2 0x1a0 0x5a (mkBus [] [0; 0; 1; 0]) = Some (0, mkBus es [])
    /\ data_bits es
       = [true; false] ++ bits_of_byte 0xa2 ++ bits_of_byte 0xa0
         ++ bits_of_byte 0x5a ++ bits_of_byte 0x5a ++ [true].
Proof.
  destruct (eeprom_write_byte_sends 2 0x1a0 0x5a (mkBus [] [0; 0; 1; 0]) [1] []
              ltac:(lia) ltac:(lia) ltac:(repeat constructor; discriminate)
              eq_refl ltac:(cbn; lia)) as (es & H1 & H2).
  exists es. split; [exact H1 | exact H2].
Defined.

(** X25: when the device does not acknowledge the control byte,
    [eeprom_write_byte] and [eeprom_read_byte] return -1 at once.
    Nothing more is sent, the caller's byte keeps its value, and the bus
    is left after the acknowledge read, with no stop condition. *)
Theorem eeprom_refused fuel address value byte b v rest :
  v <> 0 ->
  adc b = v :: rest ->
  let b' := mkBus (events b ++ start_events ++ tx_events (control_byte address 0)
                     ++ [pins_user_get_adc 4]) rest in
  eeprom_write_byte fuel address value b = Some (-1, b')
  /\ eeprom_read_byte fuel address byte b = Some (-1, byte, b').
Proof.
  intros Hv Hadc. cbv zeta. unfold eeprom_write_byte, eeprom_read_byte.
  rewrite !control_byte_write, !i2c_start_bus, !i2c_tx_spec, Hadc.
  cbn [app head default tail id]. apply Z.eqb_neq in Hv. rewrite Hv. done.
Qed.

Lemma eeprom_refused_witness :
  exists b',
    eeprom_write_byte 0 0x1a0 0x5a (mkBus [] [1]) = Some (-1, b')
    /\ eeprom_read_byte 0 0x1a0 0x33 (mkBus [] [1]) = Some (-1, 0x33, b')
    /\ last (events b') = Some (pins_user_get_adc 4).
Proof.
  destruct (eeprom_refused 0 0x1a0 0x5a 0x33 (mkBus [] [1]) 1 []
              ltac:(discriminate) eq_refl) as [H1 H2].
  eexists. split; [exact H1|]. split; [exact H2|]. vm_compute. reflexivity.
Defined.

(** *** Reading a byte *)

Lemma wait_clock_low fuel l b rest :
  adc b = 0 :: rest ->
  wait_clock (S fuel) (emits l b)
  = Some (mkBus (events b ++ l ++ [pins_user_get_adc 3]) rest).
Proof.
  intros Hadc. cbn [wait_clock]. unfold i2c_clock_value.
  rewrite get_adc_emits, Hadc. reflexivity.
Qed.

(** The receive loop, fed one clock read of 0 and one data read per bit. *)
Lemma i2c_rx_bits_spec fuel vs : forall d l b rest,
  adc b = flat_map (fun v => [0; v]) vs ++ rest ->
  exists es,
    i2c_rx_bits (S fuel) (length vs) d (emits l b)
    = Some (fold_left (fun d v =>
                         if negb (v =? 0) then uint8 (Z.lor (uint8 (Z.shiftl d 1)) 1)
                         else uint8 (Z.shiftl d 1)) vs d,
            mkBus (events b ++ l ++ es) rest)
    /\ data_bits es = []
    /\ clock_releases es = length vs.
Proof.
  induction vs as [|v vs IH]; intros d l b rest Hadc.
  { exists []. cbn in *. rewrite app_nil_r. destruct b. cbn in *. by subst. }
  cbn [length i2c_rx_bits].
  unfold i2c_delay, i2c_clock_high. rewrite !emit_emits.
  rewrite (wait_clock_low fuel _ b (v :: flat_map (fun v => [0; v]) vs ++ rest))
    by (by rewrite Hadc).
  unfold i2c_data_value, get_adc. cbn [adc events head default tail id].
  set (l1 := events b ++ _).
  set (d1 := if negb ((if negb (v =? 0) then 1 else 0) =? 0) then _ else _).
  assert (Hd1 : d1 = if negb (v =? 0) then uint8 (Z.lor (uint8 (Z.shiftl d 1)) 1)
                     else uint8 (Z.shiftl d 1)).
  { subst d1. by destruct (v =? 0). }
  unfold i2c_clock_low.
  change (mkBus (l1 ++ [pins_user_get_adc 4]) (flat_map (fun v => [0; v]) vs ++ rest))
    with (emits (l1 ++ [pins_user_get_adc 4])
            (mkBus [] (flat_map (fun v => [0; v]) vs ++ rest))).
  rewrite !emit_emits.
  destruct (IH d1 ((((l1 ++ [pins_user_get_adc 4]) ++ [pins_user_set_io 3 true])
                      ++ [pins_user_set_value 3 false]) ++ [delay])
              (mkBus [] (flat_map (fun v => [0; v]) vs ++ rest)) rest eq_refl)
    as (es & He & Hb & Hc).
  rewrite He. cbn [events fold_left]. rewrite <- Hd1.
  exists ([pins_user_set_io 3 false; delay; pins_user_get_adc 3; pins_user_get_adc 4;
           pins_user_set_io 3 true; pins_user_set_value 3 false; delay] ++ es).
  split; [subst l1; rewrite <- !app_assoc; reflexivity|].
  split; [by rewrite data_bits_app, Hb|].
  rewrite clock_releases_app, Hc. reflexivity.
Qed.

Lemma rx_fold_bits d :
  0 <= d < 256 ->
  fold_left (fun d v =>
               if negb (v =? 0) then uint8 (Z.lor (uint8 (Z.shiftl d 1)) 1)
               else uint8 (Z.shiftl d 1)) (Z.b2z <$> bits_of_byte d) 0
  = d
  /\ length (Z.b2z <$> bits_of_byte d) = 8%nat.
Proof.
  intros Hd.
  assert (Hall : forallb (fun d =>
            fold_left (fun d v =>
                         if negb (v =? 0) then uint8 (Z.lor (uint8 (Z.shiftl d 1)) 1)
                         else uint8 (Z.shiftl d 1)) (Z.b2z <$> bits_of_byte d) 0 =? d)
            (upto 256) = true) by (vm_compute; reflexivity).
  rewrite forallb_forall in Hall. specialize (Hall d (In_upto 256 d Hd)).
  apply Z.eqb_eq in Hall. split; [done | reflexivity].
Qed.

Lemma i2c_rx_spec fuel ack d l b rest :
  0 <= d < 256 ->
  adc b = flat_map (fun v => [0; v]) (Z.b2z <$> bits_of_byte d) ++ rest ->
  exists es,
    i2c_rx (S fuel) ack (emits l b) = Some (d, mkBus (events b ++ l ++ es) rest)
    /\ data_bits es = [true; ack =? 0; true]
    /\ clock_releases es = 9%nat.
Proof.
  intros Hd Hadc. unfold i2c_rx.
  destruct (rx_fold_bits d Hd) as [Hfold Hlen].
  assert (E : i2c_delay (i2c_data_high (emits l b))
              = emits ((l ++ [pins_user_set_io 4 false]) ++ [delay]) b).
  { unfold i2c_delay, i2c_data_high. by rewrite !emit_emits. }
  cbv zeta. rewrite E.
  destruct (i2c_rx_bits_spec fuel (Z.b2z <$> bits_of_byte d) 0
              ((l ++ [pins_user_set_io 4 false]) ++ [delay]) b rest Hadc)
    as (es & He & Hb & Hc).
  rewrite Hlen in He, Hc. rewrite He, Hfold.
  set (l1 := ((l ++ [pins_user_set_io 4 false]) ++ [delay]) ++ es).
  change (mkBus (events b ++ l1) rest) with (emits l1 (mkBus (events b) rest)).
  unfold i2c_delay, i2c_data_high, i2c_data_low, i2c_clock_high, i2c_clock_low.
  destruct (Z.eqb_spec ack 0) as [Hack|Hack]; cbn [negb]; rewrite !emit_emits;
    cbn [emits events adc]; subst l1.
  - exists ([pins_user_set_io 4 false; delay] ++ es
            ++ [pins_user_set_io 4 false; delay; pins_user_set_io 3 false; delay;
                pins_user_set_io 3 true; pins_user_set_value 3 false; delay;
                pins_user_set_io 4 false; delay]).
    split; [by rewrite <- !app_assoc|].
    split; [by rewrite !data_bits_app, Hb|].
    rewrite !clock_releases_app, Hc. reflexivity.
  - exists ([pins_user_set_io 4 false; delay] ++ es
            ++ [pins_user_set_io 4 true; pins_user_set_value 4 false; delay;
                pins_user_set_io 3 false; delay;
                pins_user_set_io 3 true; pins_user_set_value 3 false; delay;
                pins_user_set_io 4 false; delay]).
    split; [by rewrite <- !app_assoc|].
    split; [by rewrite !data_bits_app, Hb|].
    rewrite !clock_releases_app, Hc. reflexivity.
Qed.

(** The clock wait polls the pin until it reads 0: every non-zero read
    costs one poll and one delay. *)
Lemma wait_clock_polls hs : forall fuel l b rest,
  Forall (fun v => v <> 0) hs ->
  (length hs < fuel)%nat ->
  adc b = hs ++ 0 :: rest ->
  wait_clock fuel (emits l b)
  = Some (mkBus (events b ++ l
                   ++ mjoin (replicate (length hs) [pins_user_get_adc 3; delay])
                   ++ [pins_user_get_adc 3]) rest).
Proof.
  induction hs as [|h hs IH]; intros fuel l b rest Hhs Hf Hadc.
  - destruct fuel as [|fuel]; [cbn in Hf; lia|].
    by apply wait_clock_low.
  - destruct fuel as [|fuel]; [cbn in Hf; lia|]. cbn [wait_clock].
    unfold i2c_clock_value. rewrite get_adc_emits, Hadc.
    cbn [app head default tail id].
    apply Forall_cons in Hhs as [Hh Hhs]. apply Z.eqb_neq in Hh. rewrite Hh.
    cbn [negb Z.eqb]. unfold i2c_delay.
    change (mkBus (events b ++ l ++ [pins_user_get_adc 3]) (hs ++ 0 :: rest))
      with (emits (l ++ [pins_user_get_adc 3]) (mkBus (events b) (hs ++ 0 :: rest))).
    rewrite emit_emits.
    rewrite (IH fuel _ (mkBus (events b) (hs ++ 0 :: rest)) rest Hhs) by (cbn in Hf; done || lia).
    cbn [events length replicate mjoin list_join app]. do 2 f_equal.
    by rewrite <- !app_assoc.
Qed.

(** The receive loop with the clock pin polled as often as it reads
    non-zero before each bit. *)
Lemma i2c_rx_bits_waits fuel : forall waits vs d l b rest,
  length waits = length vs ->
  Forall (fun hs => Forall (fun v => v <> 0) hs /\ (length hs < fuel)%nat) waits ->
  adc b = flat_map (fun '(hs, v) => hs ++ [0; v]) (zip waits vs) ++ rest ->
  i2c_rx_bits fuel (length vs) d (emits l b)
  = Some (fold_left (fun d v =>
                       if negb (v =? 0) then uint8 (Z.lor (uint8 (Z.shiftl d 1)) 1)
                       else uint8 (Z.shiftl d 1)) vs d,
          mkBus (events b ++ l
                   ++ flat_map (fun hs =>
                        [pins_user_set_io 3 false; delay]
                        ++ mjoin (replicate (length hs) [pins_user_get_adc 3; delay])
                        ++ [pins_user_get_adc 3; pins_user_get_adc 4;
                            pins_user_set_io 3 true; pins_user_set_value 3 false; delay])
                        waits) rest).
Proof.
  induction waits as [|hs waits IH]; intros vs d l b rest Hlen Hw Hadc;
    destruct vs as [|v vs]; try discriminate Hlen.
  { cbn in *. rewrite !app_nil_r. destruct b. cbn in *. by subst. }
  cbn [length i2c_rx_bits zip zip_with flat_map] in *.
  apply Forall_cons in Hw as [[Hhs Hf] Hw]. injection Hlen as Hlen.
  assert (E0 : i2c_delay (i2c_clock_high (emits l b))
               = emits ((l ++ [pins_user_set_io 3 false]) ++ [delay]) b).
  { unfold i2c_delay, i2c_clock_high. by rewrite !emit_emits. }
  rewrite E0.
  rewrite (wait_clock_polls hs fuel _ b
             (v :: flat_map (fun '(hs, v) => hs ++ [0; v]) (zip waits vs) ++ rest) Hhs Hf)
    by (rewrite Hadc, <- !app_assoc; reflexivity).
  unfold i2c_data_value, get_adc. cbn [adc events head default tail id].
  set (l1 := events b ++ _).
  set (d1 := if negb ((if negb (v =? 0) then 1 else 0) =? 0) then _ else _).
  assert (Hd1 : d1 = if negb (v =? 0) then uint8 (Z.lor (uint8 (Z.shiftl d 1)) 1)
                     else uint8 (Z.shiftl d 1)).
  { subst d1. by destruct (v =? 0). }
  unfold i2c_delay, i2c_clock_low.
  change (mkBus (l1 ++ [pins_user_get_adc 4])
            (flat_map (fun '(hs, v) => hs ++ [0; v]) (zip waits vs) ++ rest))
    with (emits (l1 ++ [pins_user_get_adc 4])
            (mkBus [] (flat_map (fun '(hs, v) => hs ++ [0; v]) (zip waits vs) ++ rest))).
  rewrite !emit_emits.
  rewrite (IH vs d1 _ (mkBus [] (flat_map (fun '(hs, v) => hs ++ [0; v]) (zip waits vs) ++ rest))
             rest Hlen Hw eq_refl).
  cbn [events fold_left app]. rewrite <- Hd1. do 2 f_equal.
  subst l1. rewrite <- !app_assoc. reflexivity.
Qed.

Lemma data_bits_polls k :
  data_bits (mjoin (replicate k [pins_user_get_adc 3; delay])) = [].
Proof.
  induction k as [|k IH]; [done|].
  change (replicate (S k) [pins_user_get_adc 3; delay])
    with ([pins_user_get_adc 3; delay] :: replicate k [pins_user_get_adc 3; delay]).
  change (mjoin ([pins_user_get_adc 3; delay] :: replicate k [pins_user_get_adc 3; delay]))
    with ([pins_user_get_adc 3; delay] ++ mjoin (replicate k [pins_user_get_adc 3; delay])).
  by rewrite data_bits_app, IH.
Qed.

Lemma clock_releases_polls k :
  clock_releases (mjoin (replicate k [pins_user_get_adc 3; delay])) = 0%nat.
Proof.
  induction k as [|k IH]; [done|].
  change (replicate (S k) [pins_user_get_adc 3; delay])
    with ([pins_user_get_adc 3; delay] :: replicate k [pins_user_get_adc 3; delay]).
  change (mjoin ([pins_user_get_adc 3; delay] :: replicate k [pins_user_get_adc 3; delay]))
    with ([pins_user_get_adc 3; delay] ++ mjoin (replicate k [pins_user_get_adc 3; delay])).
  by rewrite clock_releases_app, IH.
Qed.

(** X26: [i2c_rx] releases the data line and then, for each of eight
    bits, releases the clock, polls the clock pin until it reads 0, with
    a delay after every non-zero read, and only then samples the data
    pin once and drives the clock low; the samples are assembled most
    significant bit first, so a byte presented that way is the byte
    returned, however long the clock pin reads non-zero before each bit.
    A ninth clock pulse follows, with the data line driven low if [ack]
    is non-zero and released otherwise, and the data line is released at
    the end. *)
Theorem i2c_rx_reads_byte fuel ack d b waits rest :
  0 <= d < 256 ->
  length waits = 8%nat ->
  Forall (fun hs => Forall (fun v => v <> 0) hs /\ (length hs < fuel)%nat) waits ->
  adc b = flat_map (fun '(hs, v) => hs ++ [0; v]) (zip waits (Z.b2z <$> bits_of_byte d))
          ++ rest ->
  let es :=
    [pins_user_set_io 4 false; delay]
    ++ flat_map (fun hs =>
         [pins_user_set_io 3 false; delay]
         ++ mjoin (replicate (length hs) [pins_user_get_adc 3; delay])
         ++ [pins_user_get_adc 3; pins_user_get_adc 4;
             pins_user_set_io 3 true; pins_user_set_value 3 false; delay]) waits
    ++ (if ack =? 0 then [pins_user_set_io 4 false]
        else [pins_user_set_io 4 true; pins_user_set_value 4 false])
    ++ [delay; pins_user_set_io 3 false; delay;
        pins_user_set_io 3 true; pins_user_set_value 3 false; delay;
        pins_user_set_io 4 false; delay] in
  i2c_rx fuel ack b = Some (d, mkBus (events b ++ es) rest)
  /\ data_bits es = [true; ack =? 0; true]
  /\ clock_releases es = 9%nat.
Proof.
  intros Hd Hlen Hw Hadc es.
  destruct (rx_fold_bits d Hd) as [Hfold Hl8].
  set (bitev := fun hs : list Z =>
         [pins_user_set_io 3 false; delay]
         ++ mjoin (replicate (length hs) [pins_user_get_adc 3; delay])
         ++ [pins_user_get_adc 3; pins_user_get_adc 4;
             pins_user_set_io 3 true; pins_user_set_value 3 false; delay]) in *.
  assert (Hdb : forall ws, data_bits (flat_map bitev ws) = []).
  { induction ws as [|hs ws IH]; [done|]. cbn [flat_map]. subst bitev. cbv beta.
    by rewrite !data_bits_app, data_bits_polls, IH. }
  assert (Hcr : forall ws, clock_releases (flat_map bitev ws) = length ws).
  { induction ws as [|hs ws IH]; [done|]. cbn [flat_map length]. subst bitev. cbv beta.
    by rewrite !clock_releases_app, clock_releases_polls, IH. }
  split; [|split].
  - unfold i2c_rx.
    assert (E : i2c_delay (i2c_data_high b)
                = emits [pins_user_set_io 4 false; delay] b).
    { unfold i2c_delay, i2c_data_high. by rewrite (emit_one _ b), emit_emits. }
    cbv zeta. rewrite E.
    pose proof (i2c_rx_bits_waits fuel waits (Z.b2z <$> bits_of_byte d) 0
                  [pins_user_set_io 4 false; delay] b rest
                  ltac:(by rewrite Hlen, Hl8) Hw Hadc) as He.
    rewrite Hl8 in He. rewrite He, Hfold. fold bitev.
    set (l1 := [pins_user_set_io 4 false; delay] ++ flat_map bitev waits).
    change (mkBus (events b ++ l1) rest) with (emits l1 (mkBus (events b) rest)).
    unfold i2c_delay, i2c_data_high, i2c_data_low, i2c_clock_high, i2c_clock_low.
    subst es. fold bitev.
    destruct (Z.eqb_spec ack 0) as [Hack|Hack]; cbn [negb]; rewrite !emit_emits;
      cbn [emits events adc]; subst l1; do 3 f_equal;
      rewrite <- !app_assoc; reflexivity.
  - subst es. fold bitev. rewrite !data_bits_app, Hdb.
    by destruct (ack =? 0).
  - subst es. fold bitev. rewrite !clock_releases_app, Hcr, Hlen.
    by destruct (ack =? 0).
Qed.

Lemma i2c_rx_reads_byte_witness :
  exists es,
    i2c_rx 3 1 (mkBus [] [1; 0; 1; 0; 0; 5; 5; 0; 1; 0; 0; 0; 0; 0; 1; 0; 0; 0; 1; 7])
    = Some (0xa5, mkBus es [7])
    /\ data_bits es = [true; false; true].
Proof.
  destruct (i2c_rx_reads_byte 3 1 0xa5
              (mkBus [] [1; 0; 1; 0; 0; 5; 5; 0; 1; 0; 0; 0; 0; 0; 1; 0; 0; 0; 1; 7])
              [[1]; []; [5; 5]; []; []; []; []; []] [7]
              ltac:(lia) eq_refl
              ltac:(repeat constructor; (discriminate || (cbn; lia)))
              eq_refl) as (H1 & H2 & _).
  eexists. split; [exact H1 | exact H2].
Defined.

(** X27: [eeprom_read_byte], with every byte acknowledged, sets the
    device's address pointer with a write transfer that ends after the
    address (start, control byte with the write flag, low address byte,
    stop), then starts again, sends the control byte with the read flag,
    receives one byte, acknowledges it, stops, and returns 0 with that
    byte. *)
Theorem eeprom_read_byte_acked fuel address byte d b rest :
  0 <= address < 65536 -> 0 <= d < 256 ->
  adc b = 0 :: 0 :: 0 :: flat_map (fun v => [0; v]) (Z.b2z <$> bits_of_byte d) ++ rest ->
  exists es,
    eeprom_read_byte (S fuel) address byte b = Some (0, d, mkBus (events b ++ es) rest)
    /\ data_bits es
       = [true; false]
         ++ bits_of_byte (0xa0 + 2 * ((address / 256) mod 8))
         ++ bits_of_byte (address mod 256)
         ++ [true]
         ++ [true; false]
         ++ bits_of_byte (0xa0 + 2 * ((address / 256) mod 8) + 1)
         ++ [true; false; true]
         ++ [true].
Proof.
  intros Ha Hd Hadc. unfold eeprom_read_byte.
  rewrite control_byte_write, control_byte_read, i2c_start_bus, i2c_tx_spec, Hadc.
  cbn [app head default tail id Z.eqb negb].
  set (l1 := start_events ++ tx_events (control_byte address 0) ++ [pins_user_get_adc 4]).
  set (a1 := 0 :: 0 :: flat_map (fun v => [0; v]) (Z.b2z <$> bits_of_byte d) ++ rest).
  change (mkBus (events b ++ l1) a1) with (emits l1 (mkBus (events b) a1)).
  rewrite i2c_tx_spec. subst a1. cbn [adc events head default tail id Z.eqb negb].
  set (l2 := l1 ++ tx_events (uint8 (Z.land address 255)) ++ [pins_user_get_adc 4]).
  set (a2 := 0 :: flat_map (fun v => [0; v]) (Z.b2z <$> bits_of_byte d) ++ rest).
  change (mkBus (events b ++ l2) a2) with (emits l2 (mkBus (events b) a2)).
  rewrite i2c_stop_emits, i2c_start_emits, i2c_tx_spec. subst a2.
  cbn [adc events head default tail id Z.eqb negb].
  set (l3 := ((l2 ++ stop_events) ++ start_events)
             ++ tx_events (control_byte address 1) ++ [pins_user_get_adc 4]).
  set (a3 := flat_map (fun v => [0; v]) (Z.b2z <$> bits_of_byte d) ++ rest).
  change (mkBus (events b ++ l3) a3) with (emits l3 (mkBus (events b) a3)).
  destruct (i2c_rx_spec fuel 1 d l3 (mkBus (events b) a3) rest Hd eq_refl)
    as (es & He & Hb & _).
  rewrite He. cbn [events].
  change (mkBus (events b ++ l3 ++ es) rest)
    with (emits (l3 ++ es) (mkBus (events b) rest)).
  rewrite i2c_stop_emits. cbn [emits events adc].
  exists ((l3 ++ es) ++ stop_events). split; [done|].
  assert (Hlo : uint8 (Z.land address 255) = address mod 256).
  { change 255 with (Z.ones 8). rewrite Z.land_ones by lia. unfold uint8.
    change (2 ^ 8) with 256. lia. }
  destruct (tx_events_facts (control_byte address 0) (control_byte_range _ _)) as (Hc0 & _).
  destruct (tx_events_facts (control_byte address 1) (control_byte_range _ _)) as (Hc1 & _).
  destruct (tx_events_facts (address mod 256) ltac:(lia)) as (Hl & _).
  subst l3 l2 l1.
  rewrite Hlo, !data_bits_app, Hb, Hc0, Hc1, Hl, !data_bits_get_adc.
  rewrite !control_byte_spec by lia. rewrite Z.add_0_r.
  cbn [app]. rewrite !app_nil_r, <- !app_assoc. done.
Qed.

Lemma eeprom_read_byte_acked_witness :
  exists es,
    eeprom_read_byte 1 0x1a0 0
      (mkBus [] [0; 0; 0; 0; 1; 0; 0; 0; 1; 0; 0; 0; 0; 0; 1; 0; 0; 0; 1])
    = Some (0, 0xa5, mkBus es []).
Proof.
  destruct (eeprom_read_byte_acked 0 0x1a0 0 0xa5
              (mkBus [] [0; 0; 0; 0; 1; 0; 0; 0; 1; 0; 0; 0; 0; 0; 1; 0; 0; 0; 1]) []
              ltac:(lia) ltac:(lia) eq_refl) as (es & H1 & _).
  exists es. exact H1.
Defined.

End I2CFacts.
